(** * Order transaction and notification subsystem

    A shallow embedding of the order service, the repository helpers
    ([executeQuery], [executeTransaction]) and the notification service of
    the example project, together with the properties of its transaction
    and error-isolation behaviour.

    The asynchronous TypeScript functions are written in a state-and-
    exception monad over a [World]: the committed tables, the pool's
    bookkeeping, the per-connection transaction state and the chronological
    trace of everything the program did to its environment (statements,
    log lines, directory lookups, deliveries).  The database driver, the
    user directory and the delivery channel are external; whether one of
    their calls is rejected is decided by oracles carried in the world. *)

From Stdlib Require Import ZArith List String Bool Arith Lia DecimalString.
From Stdlib Require Import SpecFloat Permutation.
Import ListNotations.

Local Open Scope string_scope.
Local Open Scope list_scope.

(* ================================================================== *)
(** * Data model (order-service.ts, notification-service.ts) *)

(** A JavaScript [number]: an IEEE 754 double.  Sums and products round
    to the nearest double, ties to even. *)
Definition number : Type := spec_float.

Definition js_add : number -> number -> number := SFadd 53 1024.

Definition js_mul : number -> number -> number := SFmul 53 1024.

(** The double nearest to an integer; the integer itself as long as it
    has no more than 53 significant bits. *)
Definition num (z : Z) : number := binary_normalize 53 1024 z 0 false.

(** [interface Order]; the [orders] table also has the [paid_at] column
    written by [markOrderPaid].  Ids and timestamps are integers; amounts
    and quantities are numbers, as [price: number] and [quantity: number]
    of the input are. *)
Record Order := mkOrder {
  ord_id : Z;
  ord_user_id : Z;
  ord_status : string;
  ord_total_amount : number;
  ord_created_at : Z;
  ord_updated_at : Z;
  ord_paid_at : option Z
}.

(** [interface OrderItem] *)
Record OrderItem := mkOrderItem {
  oi_id : Z;
  oi_order_id : Z;
  oi_product_id : Z;
  oi_quantity : number;
  oi_price : number
}.

(** One element of [CreateOrderInput.items]. *)
Record OrderLine := mkLine {
  productId : Z;
  quantity : number;
  price : number
}.

(** [interface CreateOrderInput] *)
Record CreateOrderInput := mkInput {
  userId : Z;
  items : list OrderLine
}.

(** [interface EmailNotification] *)
Record EmailNotification := mkEmail {
  to : string;
  subject : string;
  body : string;
  template : option string
}.

(** The two tables the order service writes. *)
Record Db := mkDb {
  orders : list Order;
  order_items : list OrderItem
}.

(** The SQL texts of repository.ts and order-service.ts, one constructor
    per text, carrying its positional parameters. *)
Inductive Stmt :=
| Begin
| Commit
| Rollback
| InsertOrder (user_id : Z) (status : string) (total : number)
| InsertOrderItem (order_id product_id : Z) (qty unit_price : number)
| SelectOrderById (id : Z)
| SelectOrderItems (order_id : Z)
| UpdateOrderStatus (status : string) (id : Z)
| UpdateOrderPaid (status : string) (id : Z)
| DeleteOrderItems (order_id : Z)
| DeleteOrder (id : Z).

Inductive Row :=
| RowOrder (o : Order)
| RowItem (i : OrderItem).

(** [interface QueryResult<T>] *)
Record QueryResult := mkResult {
  rows : list Row;
  rowCount : nat
}.

(** What a rejected promise carries. *)
Inductive Error :=
| ConnectionError
| QueryError (s : Stmt)
| LookupError (user : Z)
| DeliveryError (n : EmailNotification)
| ErrorMsg (message : string)
| TypeError (message : string).

Inductive LogLevel := Info | Warn | LError.

Inductive LogValue :=
| LNum (z : Z)
| LStr (s : string)
| LErr (e : Error).

(** Everything the program does to its environment, in order. *)
Inductive Event :=
| EvConnect (c : nat)
| EvConnectFailed
| EvQuery (c : nat) (s : Stmt) (ok : bool)
| EvRelease (c : nat)
| EvLog (level : LogLevel) (message : string) (meta : list (string * LogValue))
| EvLookup (user : Z) (ok : bool)
| EvDeliver (n : EmailNotification) (ok : bool).

(** The state the program runs against.

    - [tables]: committed rows; [order_seq], [item_seq]: the id sequences.
    - [sessions c]: the writes pending in the transaction open on
      connection [c], as a transformation of the tables, if one is open.
    - [acquired], [released]: connections handed out and given back.
    - [tick]: number of driver calls so far; [db_faults n] tells whether
      the [n]-th driver call ([pool.connect] or [client.query]) rejects.
    - [lookup_fails], [deliver_fails]: whether the user directory and the
      delivery channel reject a request (the example project simulates
      both with timers that always resolve: the constant-[false] oracles).
    - [trace]: the events so far, oldest first. *)
Record World := mkWorld {
  tables : Db;
  order_seq : Z;
  item_seq : Z;
  sessions : nat -> option (Db -> Db);
  acquired : nat;
  released : nat;
  tick : nat;
  db_faults : nat -> bool;
  lookup_fails : Z -> bool;
  deliver_fails : EmailNotification -> bool;
  trace : list Event
}.

(* ================================================================== *)
(** * The monad of asynchronous computations *)

Inductive Result (A : Type) :=
| Ok (a : A)
| Err (e : Error).

Arguments Ok {A} a.
Arguments Err {A} e.

Definition M (A : Type) : Type := World -> Result A * World.

Definition ret {A} (a : A) : M A := fun w => (Ok a, w).

Definition throw {A} (e : Error) : M A := fun w => (Err e, w).

Definition bind {A B} (m : M A) (k : A -> M B) : M B :=
  fun w =>
    match m w with
    | (Ok a, w') => k a w'
    | (Err e, w') => (Err e, w')
    end.

(** [try { m } catch (error) { h error }] *)
Definition try_catch {A} (m : M A) (h : Error -> M A) : M A :=
  fun w =>
    match m w with
    | (Ok a, w') => (Ok a, w')
    | (Err e, w') => h e w'
    end.

(** [try { m } finally { fin }]: [fin] runs on both exits; its own
    failure replaces the outcome of [m]. *)
Definition try_finally {A} (m : M A) (fin : M unit) : M A :=
  fun w =>
    match m w with
    | (r, w') =>
        match fin w' with
        | (Ok _, w'') => (r, w'')
        | (Err e, w'') => (Err e, w'')
        end
    end.

Declare Scope async_scope.
Delimit Scope async_scope with async.
Notation "x <- m ;; k" := (bind m (fun x => k))
  (at level 61, m at next level, right associativity) : async_scope.
Notation "m ;; k" := (bind m (fun _ => k))
  (at level 61, right associativity) : async_scope.
Local Open Scope async_scope.

Definition emit (e : Event) (w : World) : World :=
  mkWorld (tables w) (order_seq w) (item_seq w) (sessions w)
          (acquired w) (released w) (tick w)
          (db_faults w) (lookup_fails w) (deliver_fails w)
          (trace w ++ [e]).

(** Modelled from the spec: the logger module ([utils/logger]) is not
    among the sources.  [logger.info] and [logger.error] record their
    line and return. *)
Definition log (level : LogLevel) (message : string)
    (meta : list (string * LogValue)) : M unit :=
  fun w => (Ok tt, emit (EvLog level message meta) w).

(* ================================================================== *)
(** * The database driver (external: [pg]) *)

Definition set_tables (t : Db) (w : World) : World :=
  mkWorld t (order_seq w) (item_seq w) (sessions w)
          (acquired w) (released w) (tick w)
          (db_faults w) (lookup_fails w) (deliver_fails w) (trace w).

Definition set_seqs (o i : Z) (w : World) : World :=
  mkWorld (tables w) o i (sessions w)
          (acquired w) (released w) (tick w)
          (db_faults w) (lookup_fails w) (deliver_fails w) (trace w).

Definition set_session (c : nat) (v : option (Db -> Db)) (w : World) : World :=
  mkWorld (tables w) (order_seq w) (item_seq w)
          (fun k => if Nat.eqb k c then v else sessions w k)
          (acquired w) (released w) (tick w)
          (db_faults w) (lookup_fails w) (deliver_fails w) (trace w).

Definition set_pool (a r : nat) (w : World) : World :=
  mkWorld (tables w) (order_seq w) (item_seq w) (sessions w)
          a r (tick w)
          (db_faults w) (lookup_fails w) (deliver_fails w) (trace w).

(** One round trip to the driver: the fault oracle moves on. *)
Definition driver_call (e : Event) (w : World) : World :=
  emit e (mkWorld (tables w) (order_seq w) (item_seq w) (sessions w)
                  (acquired w) (released w) (S (tick w))
                  (db_faults w) (lookup_fails w) (deliver_fails w) (trace w)).

Definition set_status (st : string) (now : Z) (o : Order) : Order :=
  mkOrder (ord_id o) (ord_user_id o) st (ord_total_amount o)
          (ord_created_at o) now (ord_paid_at o).

Definition set_paid (st : string) (now : Z) (o : Order) : Order :=
  mkOrder (ord_id o) (ord_user_id o) st (ord_total_amount o)
          (ord_created_at o) now (Some now).

Definition has_id (id : Z) (o : Order) : bool := Z.eqb (ord_id o) id.

Definition of_order (id : Z) (i : OrderItem) : bool := Z.eqb (oi_order_id i) id.

(** The change a data statement makes to the rows it runs on.  [now] is
    the value of [NOW()], [oseq] and [iseq] the next values of the id
    sequences. *)
Definition effect (s : Stmt) (now oseq iseq : Z) (d : Db) : Db :=
  match s with
  | InsertOrder u st total =>
      mkDb (orders d ++ [mkOrder oseq u st total now now None]) (order_items d)
  | InsertOrderItem o p q pr =>
      mkDb (orders d) (order_items d ++ [mkOrderItem iseq o p q pr])
  | UpdateOrderStatus st id =>
      mkDb (map (fun o => if has_id id o then set_status st now o else o) (orders d))
           (order_items d)
  | UpdateOrderPaid st id =>
      mkDb (map (fun o => if has_id id o then set_paid st now o else o) (orders d))
           (order_items d)
  | DeleteOrderItems id =>
      mkDb (orders d) (filter (fun i => negb (of_order id i)) (order_items d))
  | DeleteOrder id =>
      mkDb (filter (fun o => negb (has_id id o)) (orders d)) (order_items d)
  | _ => d
  end.

(** The rows a statement sends back ([SELECT], [RETURNING *]), given the
    rows [d] visible to it. *)
Definition answer (s : Stmt) (now oseq iseq : Z) (d : Db) : list Row :=
  match s with
  | InsertOrder u st total => [RowOrder (mkOrder oseq u st total now now None)]
  | SelectOrderById id => map RowOrder (filter (has_id id) (orders d))
  | SelectOrderItems id => map RowItem (filter (of_order id) (order_items d))
  | UpdateOrderStatus st id =>
      map RowOrder (map (set_status st now) (filter (has_id id) (orders d)))
  | UpdateOrderPaid st id =>
      map RowOrder (map (set_paid st now) (filter (has_id id) (orders d)))
  | _ => []
  end.

Definition affected (s : Stmt) (d : Db) : nat :=
  match s with
  | InsertOrder _ _ _ | InsertOrderItem _ _ _ _ => 1
  | SelectOrderById id | UpdateOrderStatus _ id | UpdateOrderPaid _ id
  | DeleteOrder id => List.length (filter (has_id id) (orders d))
  | SelectOrderItems id | DeleteOrderItems id =>
      List.length (filter (of_order id) (order_items d))
  | _ => 0
  end.

(** Sequences advance with the insert that draws from them (and are not
    transactional). *)
Definition draw (s : Stmt) (w : World) : World :=
  match s with
  | InsertOrder _ _ _ => set_seqs (order_seq w + 1) (item_seq w) w
  | InsertOrderItem _ _ _ _ => set_seqs (order_seq w) (item_seq w + 1) w
  | _ => w
  end.

(** The rows connection [c] sees: the committed ones with its own pending
    writes applied. *)
Definition view (w : World) (c : nat) : Db :=
  match sessions w c with
  | Some pending => pending (tables w)
  | None => tables w
  end.

(** [pool.connect()].  Each connection handed out is identified by its
    rank and starts with no transaction open. *)
Definition pool_connect : M nat :=
  fun w =>
    if db_faults w (tick w)
    then (Err ConnectionError, driver_call EvConnectFailed w)
    else
      let c := acquired w in
      (Ok c, set_session c None
               (set_pool (S (acquired w)) (released w)
                  (driver_call (EvConnect c) w))).

(** [client.release()]: the connection goes back to the pool. *)
Definition release (c : nat) : M unit :=
  fun w =>
    (Ok tt, set_pool (acquired w) (S (released w)) (emit (EvRelease c) w)).

(** [client.query(text, params)].  A rejected statement changes nothing.
    Outside a transaction a data statement is applied to the committed
    rows at once; inside one it is added to the connection's pending
    writes, which [COMMIT] applies and [ROLLBACK] drops.  A connection
    sees the committed rows with its own pending writes applied. *)
Definition query (c : nat) (s : Stmt) : M QueryResult :=
  fun w =>
    let failed := db_faults w (tick w) in
    let w1 := driver_call (EvQuery c s (negb failed)) w in
    if failed then (Err (QueryError s), w1)
    else
      match s with
      | Begin =>
          match sessions w c with
          | Some _ => (Ok (mkResult [] 0), w1)
          | None => (Ok (mkResult [] 0), set_session c (Some (fun d => d)) w1)
          end
      | Commit =>
          match sessions w c with
          | Some pending =>
              (Ok (mkResult [] 0),
               set_session c None (set_tables (pending (tables w)) w1))
          | None => (Ok (mkResult [] 0), w1)
          end
      | Rollback => (Ok (mkResult [] 0), set_session c None w1)
      | _ =>
          let now := Z.of_nat (tick w) in
          let f := effect s now (order_seq w) (item_seq w) in
          let d := view w c in
          let res := mkResult (answer s now (order_seq w) (item_seq w) d)
                              (affected s d) in
          match sessions w c with
          | Some pending =>
              (Ok res, set_session c (Some (fun t => f (pending t))) (draw s w1))
          | None =>
              (Ok res, set_tables (f (tables w)) (draw s w1))
          end
      end.

(* ================================================================== *)
(** * db/repository.ts *)

(** [executeQuery<T>(query, params)] *)
Definition executeQuery (s : Stmt) : M QueryResult :=
  client <- pool_connect ;;
  try_finally
    (result <- query client s ;;
     ret (mkResult (rows result) (rowCount result)))
    (release client).

(** [executeTransaction<T>(callback)] *)
Definition executeTransaction {T} (callback : nat -> M T) : M T :=
  client <- pool_connect ;;
  try_finally
    (try_catch
       (query client Begin ;;
        result <- callback client ;;
        query client Commit ;;
        ret result)
       (fun error =>
          query client Rollback ;;
          throw error))
    (release client).

(* ================================================================== *)
(** * services/notification-service.ts *)

(** A number interpolated in a template literal. *)
Definition show (z : Z) : string := NilZero.string_of_int (Z.to_int z).

(** The round trip to the user directory, which the environment may
    reject.  The example project stands for it by awaiting a 50 ms
    timer, which is the case of an oracle that never rejects. *)
Definition user_directory (user : Z) : M unit :=
  fun w =>
    if lookup_fails w user
    then (Err (LookupError user), emit (EvLookup user false) w)
    else (Ok tt, emit (EvLookup user true) w).

(** The hand-over to the delivery channel, which the environment may
    reject.  The example project stands for it by awaiting a 100 ms
    timer, which is the case of an oracle that never rejects. *)
Definition delivery_channel (n : EmailNotification) : M unit :=
  fun w =>
    if deliver_fails w n
    then (Err (DeliveryError n), emit (EvDeliver n false) w)
    else (Ok tt, emit (EvDeliver n true) w).

Definition sendEmail (notification : EmailNotification) : M unit :=
  log Info "Sending email"
      [("to", LStr (to notification)); ("subject", LStr (subject notification))] ;;
  delivery_channel notification ;;
  log Info "Email sent successfully" [("to", LStr (to notification))].

Record UserEmail := mkUserEmail { email : string }.

Definition fetchUserEmail (userId : Z) : M UserEmail :=
  user_directory userId ;;
  ret (mkUserEmail ("user" ++ show userId ++ "@example.com")).

Definition sendOrderConfirmation (orderId userId : Z) : M unit :=
  try_catch
    (user <- fetchUserEmail userId ;;
     sendEmail (mkEmail (email user) "Order Confirmation"
                  ("Your order #" ++ show orderId ++ " has been confirmed.")
                  (Some "order-confirmation")))
    (fun error => throw (ErrorMsg "Failed to send order confirmation")).

Definition sendOrderCancellation (orderId userId : Z) : M unit :=
  try_catch
    (user <- fetchUserEmail userId ;;
     sendEmail (mkEmail (email user) "Order Cancellation"
                  ("Your order #" ++ show orderId ++ " has been cancelled.")
                  (Some "order-cancellation")))
    (fun err => throw (ErrorMsg "Order cancellation notification failed")).

Definition sendPasswordReset (address token : string) : M unit :=
  log Info "Sending password reset email" [("email", LStr address)] ;;
  try_catch
    (sendEmail (mkEmail address "Password Reset Request"
                  ("Use this token to reset your password: " ++ token)
                  (Some "password-reset")) ;;
     log Info "Password reset email sent" [("email", LStr address)])
    (fun error =>
       log LError "Failed to send password reset email"
           [("email", LStr address); ("error", LErr error)] ;;
       throw error).

Definition sendWelcomeEmail (userId : Z) : M unit :=
  try_catch
    (user <- fetchUserEmail userId ;;
     sendEmail (mkEmail (email user) "Welcome!" "Welcome to our platform!"
                  (Some "welcome")) ;;
     log Info "Welcome email sent" [("userId", LNum userId)])
    (fun error =>
       log LError "Failed to send welcome email"
           [("userId", LNum userId); ("error", LErr error)]).

(** An element of the array [Promise.allSettled] resolves to. *)
Inductive Settled (A : Type) :=
| Fulfilled (value : A)
| Rejected (reason : Error).

Arguments Fulfilled {A} value.
Arguments Rejected {A} reason.

Definition is_fulfilled {A} (r : Settled A) : bool :=
  match r with Fulfilled _ => true | Rejected _ => false end.

Definition is_rejected {A} (r : Settled A) : bool :=
  match r with Fulfilled _ => false | Rejected _ => true end.

(** [Promise.allSettled(tasks)]: every task runs to its end whatever the
    others do, and the promise itself never rejects.  The tasks are run
    here one after the other, in input order. *)
Fixpoint allSettled {A} (tasks : list (M A)) : M (list (Settled A)) :=
  match tasks with
  | [] => ret []
  | task :: rest =>
      fun w =>
        match task w with
        | (Ok a, w') =>
            (results <- allSettled rest ;; ret (Fulfilled a :: results)) w'
        | (Err e, w') =>
            (results <- allSettled rest ;; ret (Rejected e :: results)) w'
        end
  end.

(** The body of the callback mapped over [userIds]. *)
Definition notify_one (subject body : string) (userId : Z) : M unit :=
  user <- fetchUserEmail userId ;;
  sendEmail (mkEmail (email user) subject body None).

Definition sendBulkNotifications (userIds : list Z) (subject body : string)
  : M unit :=
  log Info "Sending bulk notifications"
      [("count", LNum (Z.of_nat (List.length userIds)))] ;;
  results <- allSettled (map (notify_one subject body) userIds) ;;
  let successful := List.length (filter is_fulfilled results) in
  let failed := List.length (filter is_rejected results) in
  log Info "Bulk notifications completed"
      [("successful", LNum (Z.of_nat successful));
       ("failed", LNum (Z.of_nat failed))].

(* ================================================================== *)
(** * services/order-service.ts *)

(** [rows[0]] of a result read as an [Order]; absent ([undefined]) when
    the result has no row. *)
Definition first_order (rs : list Row) : option Order :=
  match rs with
  | RowOrder o :: _ => Some o
  | _ => None
  end.

(** [for (const x of xs) { await body(x) }] *)
Fixpoint for_of {A} (xs : list A) (body : A -> M unit) : M unit :=
  match xs with
  | [] => ret tt
  | x :: rest => body x ;; for_of rest body
  end.

(** [input.items.reduce((sum, item) => sum + item.price * item.quantity, 0)] *)
Definition totalAmount (its : list OrderLine) : number :=
  fold_left (fun sum item => js_add sum (js_mul (price item) (quantity item)))
            its (num 0).

(** The unit of work [createOrder] hands to [executeTransaction]. *)
Definition createOrder_callback (input : CreateOrderInput) (client : nat)
  : M Order :=
  orderResult <- query client
      (InsertOrder (userId input) "pending" (totalAmount (items input))) ;;
  match first_order (rows orderResult) with
  | None => throw (TypeError "Cannot read properties of undefined (reading 'id')")
  | Some order =>
      log Info "Order created" [("orderId", LNum (ord_id order))] ;;
      for_of (items input) (fun item =>
        query client
          (InsertOrderItem (ord_id order) (productId item) (quantity item)
                           (price item)) ;;
        ret tt) ;;
      log Info "Order items added"
          [("orderId", LNum (ord_id order));
           ("itemCount", LNum (Z.of_nat (List.length (items input))))] ;;
      try_catch
        (sendOrderConfirmation (ord_id order) (userId input))
        (fun error =>
           log LError "Failed to send order confirmation"
               [("orderId", LNum (ord_id order)); ("error", LErr error)]) ;;
      ret order
  end.

Definition createOrder (input : CreateOrderInput) : M Order :=
  log Info "Creating new order"
      [("userId", LNum (userId input));
       ("itemCount", LNum (Z.of_nat (List.length (items input))))] ;;
  executeTransaction (createOrder_callback input).

(** Returns [result.rows[0] || null]. *)
Definition getOrderById (orderId : Z) : M (option Order) :=
  log Info "Fetching order" [("orderId", LNum orderId)] ;;
  result <- executeQuery (SelectOrderById orderId) ;;
  ret (first_order (rows result)).

(** Returns [result.rows[0]], whatever it is: [None] stands for the
    [undefined] a result without rows yields. *)
Definition updateOrderStatus (orderId : Z) (status : string)
  : M (option Order) :=
  log Info "Updating order status"
      [("orderId", LNum orderId); ("status", LStr status)] ;;
  result <- executeQuery (UpdateOrderStatus status orderId) ;;
  let order := first_order (rows result) in
  log Info "Order status updated"
      [("orderId", LNum orderId); ("newStatus", LStr status)] ;;
  ret order.

Definition markOrderPaid (orderId : Z) : M (option Order) :=
  result <- executeQuery (UpdateOrderPaid "paid" orderId) ;;
  ret (first_order (rows result)).

Definition cancelOrder (orderId : Z) : M unit :=
  executeQuery (DeleteOrderItems orderId) ;;
  executeQuery (DeleteOrder orderId) ;;
  try_catch
    (order <- getOrderById orderId ;;
     match order with
     | Some o => sendOrderCancellation orderId (ord_user_id o)
     | None => ret tt
     end)
    (fun error => ret tt).

Definition getOrderItems (orderId : Z) : M (list Row) :=
  log Info "Fetching order items" [("orderId", LNum orderId)] ;;
  result <- executeQuery (SelectOrderItems orderId) ;;
  ret (rows result).

Definition fulfillOrder (orderId : Z) : M (option Order) :=
  log Info "Fulfilling order" [("orderId", LNum orderId)] ;;
  order <- updateOrderStatus orderId "fulfilled" ;;
  log Info "Order fulfilled" [("orderId", LNum orderId)] ;;
  ret order.

(* ================================================================== *)
(** * Concrete worlds *)

(** A fresh world over the given committed rows, in which nothing is
    rejected except the driver calls whose position is listed. *)
Definition world_of (d : Db) (oseq iseq : Z) (rejected : list nat) : World :=
  mkWorld d oseq iseq (fun _ => None) 0 0 0
          (fun n => existsb (Nat.eqb n) rejected)
          (fun _ => false) (fun _ => false) [].

Definition empty_db : Db := mkDb [] [].

Definition sample_input : CreateOrderInput :=
  mkInput 7 [mkLine 100 (num 2) (num 10); mkLine 101 (num 3) (num 5)].

Definition sample_db : Db :=
  mkDb [mkOrder 1 7 "pending" (num 35) 0 0 None]
       [mkOrderItem 1 1 100 (num 2) (num 10);
        mkOrderItem 2 1 101 (num 3) (num 5)].

(* ================================================================== *)
(** * Observations on runs *)

Definition outcome {A} (m : M A) (w : World) : Result A := fst (m w).

Definition after {A} (m : M A) (w : World) : World := snd (m w).

(** Connections handed out and not yet given back. *)
Definition in_use (w : World) : Z :=
  (Z.of_nat (acquired w) - Z.of_nat (released w))%Z.

Definition add_events (evs : list Event) (w : World) : World :=
  mkWorld (tables w) (order_seq w) (item_seq w) (sessions w)
          (acquired w) (released w) (tick w)
          (db_faults w) (lookup_fails w) (deliver_fails w)
          (trace w ++ evs).

(** Up to the point where [executeTransaction] calls its callback. *)
Definition tx_started : M nat :=
  client <- pool_connect ;;
  query client Begin ;;
  ret client.

(** A step of a notification dispatch: the directory lookup or the
    delivery itself. *)
Definition is_dispatch (e : Event) : bool :=
  match e with
  | EvLookup _ _ | EvDeliver _ _ => true
  | _ => false
  end.

(** A [COMMIT] sent to the database, whatever its fate. *)
Definition is_commit (e : Event) : bool :=
  match e with
  | EvQuery _ Commit _ => true
  | _ => false
  end.

Definition is_rollback (e : Event) : bool :=
  match e with
  | EvQuery _ Rollback _ => true
  | _ => false
  end.

(** Every dispatch step in [evs] comes after a [COMMIT] that succeeded;
    [done] tells whether one was already seen. *)
Fixpoint dispatch_only_after_commit (done : bool) (evs : list Event) : bool :=
  match evs with
  | [] => true
  | EvQuery _ Commit true :: rest => dispatch_only_after_commit true rest
  | e :: rest =>
      (negb (is_dispatch e) || done) && dispatch_only_after_commit done rest
  end.

(** No dispatch step in [evs] comes after a [COMMIT] was sent. *)
Fixpoint dispatch_only_before_commit (evs : list Event) : bool :=
  match evs with
  | [] => true
  | e :: rest =>
      (if is_commit e then negb (existsb is_dispatch rest) else true)
      && dispatch_only_before_commit rest
  end.

(** The events of the prefix of a run that [w] had already seen removed. *)
Definition new_events (w w' : World) : list Event :=
  skipn (List.length (trace w)) (trace w').

(** The first [n] driver calls made from [w] on are all accepted. *)
Definition driver_ok (n : nat) (w : World) : Prop :=
  forall k, k < n -> db_faults w (tick w + k) = false.

(** The total as the specification words it: the sum, over the items, of
    unit price times quantity.  The amounts of the lines are numbers and
    are added as numbers, from 0 on and in the order of the list. *)
Definition line_amount (item : OrderLine) : number :=
  js_mul (price item) (quantity item).

Fixpoint sum_from (start : number) (amounts : list number) : number :=
  match amounts with
  | [] => start
  | x :: rest => sum_from (js_add start x) rest
  end.

Definition sum_of_lines (its : list OrderLine) : number :=
  sum_from (num 0) (map line_amount its).

(** ** Integer amounts *)

(** An integer that a double holds exactly, as do its neighbours: at
    most [Number.MAX_SAFE_INTEGER], 2^53 - 1, in absolute value. *)
Definition safe (z : Z) : Prop := (Z.abs z < 2 ^ 53)%Z.

(** An item whose quantity and unit price are integers. *)
Record IntegerLine := mkIntegerLine {
  il_product : Z;
  il_quantity : Z;
  il_price : Z
}.

Definition line_of (l : IntegerLine) : OrderLine :=
  mkLine (il_product l) (num (il_quantity l)) (num (il_price l)).

(** The sum of price times quantity, in the integers. *)
Definition integer_total (ls : list IntegerLine) : Z :=
  fold_right Z.add 0%Z (map (fun l => (il_price l * il_quantity l)%Z) ls).

Definition absolute_total (ls : list IntegerLine) : Z :=
  fold_right Z.add 0%Z
    (map (fun l => Z.abs (il_price l * il_quantity l)) ls).

(** Prices and quantities are safe integers and the amounts of the
    lines, taken in absolute value, add up to a safe integer: no sum of
    some of the lines leaves the safe range. *)
Definition safe_lines (ls : list IntegerLine) : Prop :=
  Forall (fun l => safe (il_quantity l) /\ safe (il_price l)) ls
  /\ safe (absolute_total ls).

(** [x] is the double that holds the non-zero integer [c]: a normal
    number whose mantissa is the absolute value of [c] shifted to 53
    bits. *)
Definition represents (x : number) (c : Z) : Prop :=
  exists m e,
    x = S754_finite (Z.ltb c 0) m e
    /\ bounded 53 1024 m e = true
    /\ (e <= 0)%Z
    /\ Zpos m = (Z.abs c * 2 ^ (- e))%Z
    /\ (2 ^ 52 <= Zpos m < 2 ^ 53)%Z.

(** What a line amounts to when price and quantity are integers: the
    double of the product, or the negative zero of a zero product. *)
Definition amounts_to (x : number) (l : Z) : Prop :=
  x = num l \/ (l = 0%Z /\ x = S754_zero true).

(** The [order_items] rows that inserting [its] for order [oid] creates
    when the item sequence stands at [iseq]. *)
Fixpoint item_rows (oid iseq : Z) (its : list OrderLine) : list OrderItem :=
  match its with
  | [] => []
  | item :: rest =>
      mkOrderItem iseq oid (productId item) (quantity item) (price item)
      :: item_rows oid (iseq + 1) rest
  end.

Definition item_stmt (oid : Z) (item : OrderLine) : Stmt :=
  InsertOrderItem oid (productId item) (quantity item) (price item).

(** The [orders] row [createOrder] inserts in [w]: the insert is the third
    driver call, after [pool.connect] and [BEGIN]. *)
Definition new_order (input : CreateOrderInput) (w : World) : Order :=
  mkOrder (order_seq w) (userId input) "pending" (totalAmount (items input))
          (Z.of_nat (tick w + 2)) (Z.of_nat (tick w + 2)) None.

Definition address_of (user : Z) : string :=
  "user" ++ show user ++ "@example.com".

Definition confirmation_email (orderId userId : Z) : EmailNotification :=
  mkEmail (address_of userId) "Order Confirmation"
          ("Your order #" ++ show orderId ++ " has been confirmed.")
          (Some "order-confirmation").

Definition reset_email (address token : string) : EmailNotification :=
  mkEmail address "Password Reset Request"
          ("Use this token to reset your password: " ++ token)
          (Some "password-reset").

(** The events of one [sendEmail]. *)
Definition email_events (w : World) (n : EmailNotification) : list Event :=
  EvLog Info "Sending email" [("to", LStr (to n)); ("subject", LStr (subject n))]
  :: if deliver_fails w n
     then [EvDeliver n false]
     else [EvDeliver n true;
           EvLog Info "Email sent successfully" [("to", LStr (to n))]].

(** Whether the confirmation for [orderId] to [userId] fails in [w]. *)
Definition confirmation_fails (w : World) (orderId userId : Z) : bool :=
  lookup_fails w userId || deliver_fails w (confirmation_email orderId userId).

(** The events of the guarded confirmation step of [createOrder]. *)
Definition confirmation_events (w : World) (orderId userId : Z) : list Event :=
  (if lookup_fails w userId
   then [EvLookup userId false]
   else EvLookup userId true
        :: email_events w (confirmation_email orderId userId))
  ++ (if confirmation_fails w orderId userId
      then [EvLog LError "Failed to send order confirmation"
              [("orderId", LNum orderId);
               ("error", LErr (ErrorMsg "Failed to send order confirmation"))]]
      else []).

(** What one recipient of a bulk notification settles to: a function of
    that recipient's own lookup and delivery only. *)
Definition bulk_email (subject body : string) (userId : Z) : EmailNotification :=
  mkEmail (address_of userId) subject body None.

Definition settle (w : World) (subject body : string) (userId : Z)
  : Settled unit :=
  if lookup_fails w userId then Rejected (LookupError userId)
  else if deliver_fails w (bulk_email subject body userId)
       then Rejected (DeliveryError (bulk_email subject body userId))
       else Fulfilled tt.

Definition bulk_events_one (w : World) (subject body : string) (userId : Z)
  : list Event :=
  if lookup_fails w userId
  then [EvLookup userId false]
  else EvLookup userId true :: email_events w (bulk_email subject body userId).

(** A world in which the user directory rejects exactly the listed users. *)
Definition directory_down_for (users : list Z) : World :=
  mkWorld empty_db 1 1 (fun _ => None) 0 0 0
          (fun _ => false)
          (fun u => existsb (Z.eqb u) users) (fun _ => false) [].

(** A world in which every notification step is rejected, over [d]. *)
Definition notifications_down (d : Db) (oseq iseq : Z) (rejected : list nat)
  : World :=
  mkWorld d oseq iseq (fun _ => None) 0 0 0
          (fun n => existsb (Nat.eqb n) rejected)
          (fun _ => true) (fun _ => true) [].


(** ** Relations between the world before and the world after a run *)

(** [m] maintains [R]: whatever the outcome, the world [m] leaves is
    related by [R] to the one it started in. *)
Definition maintains (R : World -> World -> Prop) {A} (m : M A) : Prop :=
  forall w, R w (after m w).

(** The run only added events, all of them in [P]. *)
Definition extends_with (P : Event -> Prop) (w w' : World) : Prop :=
  exists evs, trace w' = trace w ++ evs /\ Forall P evs.

(** The run gave back every connection it took. *)
Definition pool_kept (w w' : World) : Prop := in_use w' = in_use w.

(** With a transaction open on [c], the run kept it open and wrote
    nothing to the committed rows. *)
Definition tx_kept (c : nat) (w w' : World) : Prop :=
  sessions w c <> None -> sessions w' c <> None /\ tables w' = tables w.

(** The run touched nothing but the trace. *)
Definition only_events (w w' : World) : Prop :=
  exists evs, w' = add_events evs w.

Definition not_commit (e : Event) : Prop := is_commit e = false.

Definition not_dispatch (e : Event) : Prop := is_dispatch e = false.

(** The statements the database accepted on connection [c], in order. *)
Fixpoint accepted_statements (c : nat) (evs : list Event) : list Stmt :=
  match evs with
  | [] => []
  | EvQuery c' s true :: rest =>
      if Nat.eqb c' c then s :: accepted_statements c rest
      else accepted_statements c rest
  | _ :: rest => accepted_statements c rest
  end.

(** ** Two statements about failures, as propositions on the model *)

(** No failure ever leaves [cancelOrder]. *)
Definition cancelOrder_never_fails : Prop :=
  forall orderId w, exists u, outcome (cancelOrder orderId) w = Ok u.

(** Whenever the unit of work handed to [executeTransaction] raises [e],
    [executeTransaction] raises that same [e]. *)
Definition original_failure_reraised : Prop :=
  forall (T : Type) (callback : nat -> M T) w c w1 e w2,
    tx_started w = (Ok c, w1) ->
    callback c w1 = (Err e, w2) ->
    outcome (executeTransaction callback) w = Err e.

(** The line [sendBulkNotifications] logs at its end, for the given
    settled results. *)
Definition bulk_report (results : list (Settled unit)) : Event :=
  EvLog Info "Bulk notifications completed"
    [("successful", LNum (Z.of_nat (List.length (filter is_fulfilled results))));
     ("failed", LNum (Z.of_nat (List.length (filter is_rejected results))))].

Definition result_of_settled (r : Settled unit) : Result unit :=
  match r with
  | Fulfilled u => Ok u
  | Rejected e => Err e
  end.

(** What the loop of [createOrder] over [its] leaves behind when every
    insert is accepted: [w] is the world before the loop, [w'] after. *)
Record items_inserted (c : nat) (oid : Z) (its : list OrderLine)
    (w w' : World) : Prop := {
  ii_tables : tables w' = tables w;
  ii_order_seq : order_seq w' = order_seq w;
  ii_item_seq : item_seq w' = (item_seq w + Z.of_nat (List.length its))%Z;
  ii_session :
    forall pending, sessions w c = Some pending ->
    exists g, sessions w' c = Some g
              /\ forall t, g t = mkDb (orders (pending t))
                                      (order_items (pending t)
                                       ++ item_rows oid (item_seq w) its);
  ii_acquired : acquired w' = acquired w;
  ii_released : released w' = released w;
  ii_tick : tick w' = tick w + List.length its;
  ii_faults : db_faults w' = db_faults w;
  ii_lookup : lookup_fails w' = lookup_fails w;
  ii_deliver : deliver_fails w' = deliver_fails w;
  ii_trace :
    trace w' = trace w ++ map (fun item => EvQuery c (item_stmt oid item) true) its
}.

(** The events of a [createOrder] whose statements are all accepted. *)
Definition createOrder_events (input : CreateOrderInput) (w : World)
  : list Event :=
  let c := acquired w in
  let order := new_order input w in
  [EvLog Info "Creating new order"
     [("userId", LNum (userId input));
      ("itemCount", LNum (Z.of_nat (List.length (items input))))];
   EvConnect c;
   EvQuery c Begin true;
   EvQuery c (InsertOrder (userId input) "pending" (totalAmount (items input))) true;
   EvLog Info "Order created" [("orderId", LNum (ord_id order))]]
  ++ map (fun item => EvQuery c (item_stmt (ord_id order) item) true) (items input)
  ++ [EvLog Info "Order items added"
        [("orderId", LNum (ord_id order));
         ("itemCount", LNum (Z.of_nat (List.length (items input))))]]
  ++ confirmation_events w (ord_id order) (userId input)
  ++ [EvQuery c Commit true; EvRelease c].

(** The [orders] row the unit of work of [createOrder] inserts when it
    starts in [w]. *)
Definition inserted_order (input : CreateOrderInput) (w : World) : Order :=
  mkOrder (order_seq w) (userId input) "pending" (totalAmount (items input))
          (Z.of_nat (tick w)) (Z.of_nat (tick w)) None.

(** The events of the unit of work of [createOrder] on connection [c]
    when its statements are all accepted. *)
Definition callback_events (input : CreateOrderInput) (c : nat) (w : World)
  : list Event :=
  let oid := order_seq w in
  [EvQuery c (InsertOrder (userId input) "pending" (totalAmount (items input))) true;
   EvLog Info "Order created" [("orderId", LNum oid)]]
  ++ map (fun item => EvQuery c (item_stmt oid item) true) (items input)
  ++ [EvLog Info "Order items added"
        [("orderId", LNum oid);
         ("itemCount", LNum (Z.of_nat (List.length (items input))))]]
  ++ confirmation_events w oid (userId input).

(** A statement that reads or writes rows (not transaction control). *)
Definition is_data (s : Stmt) : bool :=
  match s with
  | Begin | Commit | Rollback => false
  | _ => true
  end.

(** A failure that comes from the notification service. *)
Definition is_notification_failure (e : Error) : bool :=
  match e with
  | LookupError _ | DeliveryError _ | ErrorMsg _ => true
  | _ => false
  end.

(** Every failure [m] can raise is in [P]. *)
Definition raises_only (P : Error -> Prop) {A} (m : M A) : Prop :=
  forall w e, outcome m w = Err e -> P e.

Definition not_notification_failure (e : Error) : Prop :=
  is_notification_failure e = false.

(* ================================================================== *)
(** * utils/validator.ts *)

(** What [data: any] can be when it comes from a parsed JSON body: a
    JSON value, or the [undefined] of a property that is not there.  An
    object is the list of its properties, each name standing once. *)
Unset Elimination Schemes.
Inductive JsValue :=
| JsUndefined
| JsNull
| JsBool (b : bool)
| JsNumber (x : number)
| JsString (s : string)
| JsArray (elements : list JsValue)
| JsObject (properties : list (string * JsValue)).
Set Elimination Schemes.

(** [ToBoolean]: what [!v] negates. *)
Definition truthy (v : JsValue) : bool :=
  match v with
  | JsUndefined | JsNull => false
  | JsBool b => b
  | JsNumber (S754_zero _) | JsNumber S754_nan => false
  | JsNumber _ => true
  | JsString s => negb (String.eqb s "")
  | JsArray _ | JsObject _ => true
  end.

Fixpoint lookup (key : string) (properties : list (string * JsValue))
  : JsValue :=
  match properties with
  | [] => JsUndefined
  | (k, v) :: rest => if String.eqb k key then v else lookup key rest
  end.

Fixpoint has_key (key : string) (properties : list (string * JsValue))
  : bool :=
  match properties with
  | [] => false
  | (k, _) :: rest => String.eqb k key || has_key key rest
  end.

(** What [v.key] reads when it reads at all, for the property names the
    code uses ([userId], [items], [productId], [quantity], [price]),
    which no prototype defines: the own property of an object, and
    [undefined] on anything else. *)
Definition property (v : JsValue) (key : string) : JsValue :=
  match v with
  | JsObject properties => lookup key properties
  | _ => JsUndefined
  end.

(** [v.key]: reading a property of [undefined] or [null] raises. *)
Definition get (v : JsValue) (key : string) : M JsValue :=
  match v with
  | JsUndefined =>
      throw (TypeError ("Cannot read properties of undefined (reading '"
                        ++ key ++ "')"))
  | JsNull =>
      throw (TypeError ("Cannot read properties of null (reading '"
                        ++ key ++ "')"))
  | _ => ret (property v key)
  end.

Definition is_array (v : JsValue) : bool :=
  match v with
  | JsArray _ => true
  | _ => false
  end.

Definition elements_of (v : JsValue) : list JsValue :=
  match v with
  | JsArray elements => elements
  | _ => []
  end.

Definition js_zero : number := S754_zero false.

Section Validator.

(** Two conversions of the language are taken as given: the number a
    string reads as ([StringToNumber], [NaN] for a text that is no
    numeric literal), and the number an array converts to through its
    [toString], if that conversion does not raise. *)
Variable StringToNumber : string -> number.
Variable ArrayToNumber : list JsValue -> option number.

(** [ToNumber].  An object converts through the [toString] it inherits
    to a text that is no number; one that carries a property [toString]
    of its own, which a JSON value cannot be called as, has no
    conversion. *)
Definition to_number (v : JsValue) : M number :=
  match v with
  | JsUndefined => ret S754_nan
  | JsNull => ret js_zero
  | JsBool true => ret (num 1)
  | JsBool false => ret js_zero
  | JsNumber x => ret x
  | JsString s => ret (StringToNumber s)
  | JsArray elements =>
      match ArrayToNumber elements with
      | Some x => ret x
      | None => throw (TypeError "Cannot convert object to primitive value")
      end
  | JsObject properties =>
      if has_key "toString" properties
      then throw (TypeError "Cannot convert object to primitive value")
      else ret S754_nan
  end.

(** [v <= 0]: false when [v] converts to [NaN]. *)
Definition at_most_zero (v : JsValue) : M bool :=
  x <- to_number v ;;
  ret (SFleb x js_zero).

Definition validateOrderData (data : JsValue) : M unit :=
  try_catch
    (userId <- get data "userId" ;;
     (if negb (truthy userId)
      then throw (ErrorMsg "User ID required") else ret tt) ;;
     items <- get data "items" ;;
     (if negb (truthy items) || negb (is_array items)
         || Nat.eqb (List.length (elements_of items)) 0
      then throw (ErrorMsg "Order must contain items") else ret tt) ;;
     for_of (elements_of items) (fun item =>
       productId <- get item "productId" ;;
       (if negb (truthy productId)
        then throw (ErrorMsg "Product ID required for each item")
        else ret tt) ;;
       quantity <- get item "quantity" ;;
       refused <- (if negb (truthy quantity)
                   then ret true else at_most_zero quantity) ;;
       if refused
       then throw (ErrorMsg "Quantity must be positive") else ret tt))
    (fun error => throw (ErrorMsg "Order validation failed")).

(** What passes, said value by value.  A quantity passes when it is a
    number above zero; but also when it is [true], a text that reads as
    no number or as one above zero, an array that converts to such, or
    an object. *)
Definition acceptable_quantity (v : JsValue) : Prop :=
  match v with
  | JsUndefined | JsNull => False
  | JsBool b => b = true
  | JsNumber x => SFltb js_zero x = true
  | JsString s => s <> "" /\ SFleb (StringToNumber s) js_zero = false
  | JsArray elements =>
      exists x, ArrayToNumber elements = Some x /\ SFleb x js_zero = false
  | JsObject properties => has_key "toString" properties = false
  end.

(** An id passes when it is a number other than zero and [NaN], [true],
    a text that is not empty, an array or an object. *)
Definition acceptable_id (v : JsValue) : Prop :=
  match v with
  | JsUndefined | JsNull => False
  | JsBool b => b = true
  | JsNumber x => x <> S754_nan /\ forall s, x <> S754_zero s
  | JsString s => s <> ""
  | JsArray _ | JsObject _ => True
  end.

Definition acceptable_item (item : JsValue) : Prop :=
  acceptable_id (property item "productId")
  /\ acceptable_quantity (property item "quantity").

Definition acceptable_body (data : JsValue) : Prop :=
  acceptable_id (property data "userId")
  /\ exists first rest,
       property data "items" = JsArray (first :: rest)
       /\ Forall acceptable_item (first :: rest).

(** The same as a test that can be run. *)
Definition passes_quantity (v : JsValue) : bool :=
  truthy v
  && match v with
     | JsBool _ | JsUndefined | JsNull => true
     | JsNumber x => negb (SFleb x js_zero)
     | JsString s => negb (SFleb (StringToNumber s) js_zero)
     | JsArray elements =>
         match ArrayToNumber elements with
         | Some x => negb (SFleb x js_zero)
         | None => false
         end
     | JsObject properties => negb (has_key "toString" properties)
     end.

Definition passes_item (item : JsValue) : bool :=
  truthy (property item "productId")
  && passes_quantity (property item "quantity").

Definition passes_body (data : JsValue) : bool :=
  truthy (property data "userId")
  && match property data "items" with
     | JsArray (first :: rest) => forallb passes_item (first :: rest)
     | _ => false
     end.

End Validator.

(* ================================================================== *)
(** * api/orders.ts *)

Inductive JsonValue :=
| JNum (z : Z)
| JAmount (x : number)
| JStr (s : string)
| JRows (rs : list Row)
| JMessageOf (e : Error).

(** What a handler answers: the status and the object passed to [json],
    if any. *)
Record Response := mkResponse {
  res_status : nat;
  res_body : option (list (string * JsonValue))
}.

(** [error.message]: the text given to [new Error], or whatever the
    driver put there. *)
Definition error_message (e : Error) : JsonValue :=
  match e with
  | ErrorMsg m | TypeError m => JStr m
  | _ => JMessageOf e
  end.

Definition error_body (text : string) : option (list (string * JsonValue)) :=
  Some [("error", JStr text)].

(** The handlers, over the order service they import and the builtin
    [parseInt] on the path ids they are given. *)
Section Routes.
Variable StringToNumber : string -> number.
Variable ArrayToNumber : list JsValue -> option number.
Variable parseInt : string -> Z.
Variable svc_createOrder : JsValue -> JsValue -> M Order.
Variable svc_getOrderById : Z -> M (option Order).
Variable svc_getOrderItems : Z -> M (list Row).
Variable svc_updateOrderStatus : Z -> string -> M (option Order).
Variable svc_cancelOrder : Z -> M unit.
Variable svc_fulfillOrder : Z -> M (option Order).
Variable svc_markOrderPaid : Z -> M (option Order).

(** [router.post('/orders', ...)]; the service is called on the object
    made of [req.body.userId] and [req.body.items]. *)
Definition post_orders (body : JsValue) : M Response :=
  try_catch
    (validateOrderData StringToNumber ArrayToNumber body ;;
     userId <- get body "userId" ;;
     items <- get body "items" ;;
     order <- svc_createOrder userId items ;;
     ret (mkResponse 201
            (Some [("id", JNum (ord_id order));
                   ("userId", JNum (ord_user_id order));
                   ("status", JStr (ord_status order));
                   ("totalAmount", JAmount (ord_total_amount order));
                   ("createdAt", JNum (ord_created_at order))])))
    (fun error =>
       ret (mkResponse 400 (Some [("error", error_message error)]))).

(** [router.get('/orders/:id', ...)] *)
Definition get_order (id : string) : M Response :=
  log Info "GET /orders/:id" [("orderId", LStr id)] ;;
  try_catch
    (order <- svc_getOrderById (parseInt id) ;;
     match order with
     | None => ret (mkResponse 404 (error_body "Order not found"))
     | Some order =>
         items <- svc_getOrderItems (ord_id order) ;;
         ret (mkResponse 200
                (Some [("id", JNum (ord_id order));
                       ("userId", JNum (ord_user_id order));
                       ("status", JStr (ord_status order));
                       ("totalAmount", JAmount (ord_total_amount order));
                       ("items", JRows items);
                       ("createdAt", JNum (ord_created_at order))]))
     end)
    (fun error =>
       log LError "Error fetching order"
           [("orderId", LStr id); ("error", LErr error)] ;;
       ret (mkResponse 500 (error_body "Internal server error"))).

(** The object the status routes answer with; reading [order.id] of an
    absent order raises. *)
Definition status_answer (stamp : string) (order : option Order) : M Response :=
  match order with
  | None => throw (TypeError "Cannot read properties of undefined (reading 'id')")
  | Some order =>
      ret (mkResponse 200
             (Some [("id", JNum (ord_id order));
                    ("status", JStr (ord_status order));
                    (stamp, JNum (ord_updated_at order))]))
  end.


(** [router.delete('/orders/:id', ...)] *)
Definition delete_order (id : string) : M Response :=
  try_catch
    (svc_cancelOrder (parseInt id) ;;
     ret (mkResponse 204 None))
    (fun error => ret (mkResponse 500 (error_body "Failed to cancel order"))).

(** [router.post('/orders/:id/fulfill', ...)] *)
Definition post_fulfill (id : string) : M Response :=
  log Info "POST /orders/:id/fulfill" [("orderId", LStr id)] ;;
  try_catch
    (order <- svc_fulfillOrder (parseInt id) ;;
     status_answer "updatedAt" order)
    (fun error =>
       log LError "Error fulfilling order"
           [("orderId", LStr id); ("error", LErr error)] ;;
       ret (mkResponse 500 (error_body "Internal server error"))).

(** [router.post('/orders/:id/pay', ...)] *)
Definition post_pay (id : string) : M Response :=
  try_catch
    (order <- svc_markOrderPaid (parseInt id) ;;
     status_answer "paidAt" order)
    (fun error => ret (mkResponse 500 (error_body "Payment processing failed"))).
End Routes.

(** The integer a number is, if it is one. *)
Definition integer_of (x : number) : option Z :=
  match x with
  | S754_zero _ => Some 0%Z
  | S754_finite s m e =>
      match e with
      | Z0 => Some (cond_Zopp s (Zpos m))
      | Zpos p => Some (cond_Zopp s (Zpos m * 2 ^ Zpos p))
      | Zneg p =>
          if Z.eqb (Zpos m mod 2 ^ Zpos p) 0
          then Some (cond_Zopp s (Zpos m / 2 ^ Zpos p))
          else None
      end
  | _ => None
  end.

(** The request an order service receives, read as the
    [CreateOrderInput] it is declared to be: defined when the ids are
    integers and quantity and price are numbers. *)
Definition id_of (v : JsValue) : option Z :=
  match v with
  | JsNumber x => integer_of x
  | _ => None
  end.

Definition line_of_item (item : JsValue) : option OrderLine :=
  match id_of (property item "productId"),
        property item "quantity", property item "price" with
  | Some p, JsNumber q, JsNumber pr => Some (mkLine p q pr)
  | _, _, _ => None
  end.

Fixpoint lines_of_items (l : list JsValue) : option (list OrderLine) :=
  match l with
  | [] => Some []
  | item :: rest =>
      match line_of_item item, lines_of_items rest with
      | Some line, Some lines => Some (line :: lines)
      | _, _ => None
      end
  end.

Definition input_of_request (userId items : JsValue)
  : option CreateOrderInput :=
  match id_of userId, items with
  | Some u, JsArray l =>
      match lines_of_items l with
      | Some lines => Some (mkInput u lines)
      | None => None
      end
  | _, _ => None
  end.

(** [parseInt] on a path id that begins with decimal digits: the digits
    up to the first other character, read in base ten.  Texts that begin
    with blanks, a sign or a hex prefix, and texts without a leading
    digit, which [parseInt] reads as [NaN], are not covered. *)
Definition digit_of (a : Ascii.ascii) : option Z :=
  let n := Z.of_nat (Ascii.nat_of_ascii a) in
  if Z.leb 48 n && Z.leb n 57 then Some (n - 48)%Z else None.

Fixpoint parse_digits (acc : Z) (s : string) : Z :=
  match s with
  | EmptyString => acc
  | String a rest =>
      match digit_of a with
      | Some d => parse_digits (acc * 10 + d)%Z rest
      | None => acc
      end
  end.

(** [createOrder] behind a handler, for requests that read as its typed
    input.  [createOrder] is modelled on such inputs; what the driver
    makes of an id that is no integer or of a quantity or price that is
    no number is not in the sources, and this stand-in raises there. *)
Definition createOrder_on_request (userId items : JsValue) : M Order :=
  match input_of_request userId items with
  | Some input => createOrder input
  | None => throw (TypeError "request outside CreateOrderInput")
  end.

(* ================================================================== *)
(** * Further observations *)

Definition cancellation_email (orderId userId : Z) : EmailNotification :=
  mkEmail (address_of userId) "Order Cancellation"
          ("Your order #" ++ show orderId ++ " has been cancelled.")
          (Some "order-cancellation").

Definition is_lookup (e : Event) : bool :=
  match e with
  | EvLookup _ _ => true
  | _ => false
  end.

Definition is_delivery (e : Event) : bool :=
  match e with
  | EvDeliver _ _ => true
  | _ => false
  end.

Definition item_object (productId quantity price : JsValue) : JsValue :=
  JsObject [("productId", productId); ("quantity", quantity);
            ("price", price)].

Definition order_object (userId : JsValue) (items : list JsValue) : JsValue :=
  JsObject [("userId", userId); ("items", JsArray items)].

Definition sample_body : JsValue :=
  order_object (JsNumber (num 7))
    [item_object (JsNumber (num 100)) (JsNumber (num 2)) (JsNumber (num 10));
     item_object (JsNumber (num 101)) (JsNumber (num 3)) (JsNumber (num 5))].

(** A reading of texts that takes none for a number, as is right for
    the texts it is used on. *)
Definition no_number (s : string) : number := S754_nan.

Definition no_array_number (l : list JsValue) : option number := None.

(** The object [POST /orders] answers with for a created order. *)
Definition created_body (order : Order) : option (list (string * JsonValue)) :=
  Some [("id", JNum (ord_id order));
        ("userId", JNum (ord_user_id order));
        ("status", JStr (ord_status order));
        ("totalAmount", JAmount (ord_total_amount order));
        ("createdAt", JNum (ord_created_at order))].

(** The object the status routes answer with for a found order. *)
Definition status_body (stamp : string) (order : Order)
  : option (list (string * JsonValue)) :=
  Some [("id", JNum (ord_id order));
        ("status", JStr (ord_status order));
        (stamp, JNum (ord_updated_at order))].
(* ================================================================== *)
(** * Numbers: sums and products of safe integers are exact *)

Section Doubles.
Local Open Scope Z_scope.

Lemma digits2_bounds (m : positive) :
  2 ^ (Zpos (digits2_pos m) - 1) <= Zpos m < 2 ^ Zpos (digits2_pos m).
Proof.
  induction m as [m IH | m IH |]; cbn [digits2_pos].
  - rewrite Pos2Z.inj_succ.
    replace (Z.succ (Zpos (digits2_pos m)) - 1) with (Z.succ (Zpos (digits2_pos m) - 1)) by lia.
    rewrite !Z.pow_succ_r by lia. lia.
  - rewrite Pos2Z.inj_succ.
    replace (Z.succ (Zpos (digits2_pos m)) - 1) with (Z.succ (Zpos (digits2_pos m) - 1)) by lia.
    rewrite !Z.pow_succ_r by lia. lia.
  - cbn. lia.
Qed.

Lemma digits2_unique (m : positive) (k : Z) :
  2 ^ (k - 1) <= Zpos m < 2 ^ k -> Zpos (digits2_pos m) = k.
Proof.
  intros [Hlo Hhi]. pose proof (digits2_bounds m) as [Dlo Dhi].
  set (d := Zpos (digits2_pos m)) in *.
  assert (0 < k).
  { destruct (Z_lt_le_dec 0 k) as [|Hk]; [assumption |].
    assert (2 ^ k <= 2 ^ 0) by (apply Z.pow_le_mono_r; lia).
    change (2 ^ 0) with 1 in *. lia. }
  destruct (Z_lt_le_dec d k) as [Hdk | Hdk].
  - assert (2 ^ d <= 2 ^ (k - 1)) by (apply Z.pow_le_mono_r; lia). lia.
  - destruct (Z_lt_le_dec k d) as [Hkd | Hkd]; [| lia].
    assert (2 ^ k <= 2 ^ (d - 1)) by (apply Z.pow_le_mono_r; lia). lia.
Qed.

Lemma iter_xO_value (m p : positive) :
  Zpos (Pos.iter xO m p) = Zpos m * 2 ^ Zpos p.
Proof.
  induction p as [| p IH] using Pos.peano_ind.
  - cbn. lia.
  - rewrite Pos.iter_succ, Pos2Z.inj_succ, Z.pow_succ_r by lia.
    rewrite Pos2Z.inj_xO, IH. lia.
Qed.

Lemma shr_iter_exact (p : positive) : forall m,
  iter_pos shr_1 p (Build_shr_record (Zpos (Pos.iter xO m p)) false false)
  = Build_shr_record (Zpos m) false false.
Proof.
  induction p as [p IH | p IH |]; intros m; cbn [Pos.iter iter_pos].
  - cbn [shr_1 orb]. rewrite IH. apply IH.
  - rewrite IH. apply IH.
  - reflexivity.
Qed.

Lemma digits2_shift (m p : positive) :
  Zpos (digits2_pos (Pos.iter xO m p)) = Zpos (digits2_pos m) + Zpos p.
Proof.
  induction p as [| p IH] using Pos.peano_ind.
  - cbn [Pos.iter digits2_pos]. lia.
  - rewrite Pos.iter_succ. cbn [digits2_pos]. lia.
Qed.

Lemma bounded_canonical m e :
  bounded 53 1024 m e = true ->
  fexp 53 1024 (Zpos (digits2_pos m) + e) = e /\ e <= 971.
Proof.
  unfold bounded, canonical_mantissa. intros H.
  apply andb_true_iff in H. destruct H as [H1 H2].
  apply Z.eqb_eq in H1. apply Z.leb_le in H2. split; [exact H1 | exact H2].
Qed.

(** A mantissa that is the canonical one shifted left is shifted back
    without loss. *)
Lemma shifted_mantissa (M m' : positive) (k : Z) :
  0 <= k -> Zpos M = Zpos m' * 2 ^ k ->
  match k with
  | Zpos p => M = Pos.iter xO m' p
  | _ => M = m'
  end.
Proof.
  intros Hk HM. destruct k as [| p | p]; [| | lia].
  - rewrite Z.pow_0_r, Z.mul_1_r in HM. now injection HM.
  - rewrite <- iter_xO_value in HM. now injection HM.
Qed.

Lemma round_aux_exact s M E m' e' :
  bounded 53 1024 m' e' = true ->
  E <= e' ->
  Zpos M = Zpos m' * 2 ^ (e' - E) ->
  binary_round_aux 53 1024 s (Zpos M) E loc_Exact = S754_finite s m' e'.
Proof.
  intros Hb HE HM. destruct (bounded_canonical _ _ Hb) as [Hc Hmax].
  pose proof (shifted_mantissa M m' (e' - E) ltac:(lia) HM) as Hsh.
  assert (Hd : Zpos (digits2_pos M) + E = Zpos (digits2_pos m') + e').
  { destruct (e' - E) as [| p | p] eqn:Ek; subst M.
    - lia.
    - rewrite digits2_shift. lia.
    - lia. }
  assert (Hfinal :
    (let '(mrs'', e'') :=
       shr_fexp 53 1024 (Zpos m') e' loc_Exact in
     match shr_m mrs'' with
     | Z0 => S754_zero s
     | Zpos m => if Z.leb e'' (1024 - 53) then S754_finite s m e''
                 else S754_infinity s
     | _ => S754_nan
     end) = S754_finite s m' e').
  { unfold shr_fexp. cbn [Zdigits2]. rewrite Hc, Z.sub_diag.
    cbn [shr shr_record_of_loc shr_m].
    replace (e' <=? 1024 - 53) with true; [reflexivity |].
    symmetry. apply Z.leb_le. lia. }
  unfold binary_round_aux.
  unfold shr_fexp at 1. cbn [Zdigits2]. rewrite Hd, Hc.
  destruct (e' - E) as [| p | p] eqn:Ek; subst M.
  - cbn [shr shr_record_of_loc shr_m loc_of_shr_record round_nearest_even].
    replace E with e' by lia. exact Hfinal.
  - cbn [shr shr_record_of_loc]. rewrite shr_iter_exact.
    cbn [shr_m loc_of_shr_record round_nearest_even].
    replace (E + Zpos p) with e' by lia. exact Hfinal.
  - lia.
Qed.

Lemma round_exact s M E m' e' :
  bounded 53 1024 m' e' = true ->
  (E <= e' /\ Zpos M = Zpos m' * 2 ^ (e' - E))
  \/ (e' <= E /\ Zpos m' = Zpos M * 2 ^ (E - e')) ->
  binary_round 53 1024 s M E = S754_finite s m' e'.
Proof.
  intros Hb H. destruct (bounded_canonical _ _ Hb) as [Hc Hmax].
  unfold binary_round.
  destruct H as [[HE HM] | [HE HM]].
  - pose proof (shifted_mantissa M m' (e' - E) ltac:(lia) HM) as Hsh.
    assert (Hd : Zpos (digits2_pos M) + E = Zpos (digits2_pos m') + e').
    { destruct (e' - E) as [| p | p] eqn:Ek; subst M.
      - lia.
      - rewrite digits2_shift. lia.
      - lia. }
    rewrite Hd, Hc. unfold shl_align.
    destruct (e' - E) as [| p | p] eqn:Ek; try lia;
      apply round_aux_exact; try assumption; rewrite ?Ek; assumption.
  - pose proof (shifted_mantissa m' M (E - e') ltac:(lia) HM) as Hsh.
    assert (Hd : Zpos (digits2_pos M) + E = Zpos (digits2_pos m') + e').
    { destruct (E - e') as [| p | p] eqn:Ek; subst m'.
      - lia.
      - rewrite digits2_shift. lia.
      - lia. }
    rewrite Hd, Hc. unfold shl_align.
    destruct (E - e') as [| p | p] eqn:Ek; try lia.
    + replace (e' - E) with 0 by lia. subst m'. replace E with e' by lia.
      apply round_aux_exact; [assumption | lia |].
      rewrite Z.sub_diag. cbn. lia.
    + replace (e' - E) with (Zneg p) by lia. subst m'.
      apply round_aux_exact; [assumption | lia |].
      rewrite Z.sub_diag. cbn. lia.
Qed.

Lemma bounded_normal (m : positive) (e : Z) :
  2 ^ 52 <= Zpos m < 2 ^ 53 -> -1074 <= e <= 971 ->
  bounded 53 1024 m e = true.
Proof.
  intros Hm He. unfold bounded, canonical_mantissa.
  rewrite (digits2_unique m 53) by exact Hm.
  unfold fexp, emin. apply andb_true_iff. split.
  - apply Z.eqb_eq. lia.
  - apply Z.leb_le. lia.
Qed.

Lemma num_represents (c : Z) : c <> 0 -> safe c -> represents (num c) c.
Proof.
  intros Hc Hs. unfold safe in Hs.
  assert (Hex : exists cp, Z.abs c = Zpos cp
                /\ num c = binary_round 53 1024 (c <? 0) cp 0).
  { destruct c as [| cp | cp]; [congruence | |]; exists cp; split; reflexivity. }
  destruct Hex as (cp & Habs & Hnum).
  pose proof (digits2_bounds cp) as [Dlo Dhi].
  set (d := Zpos (digits2_pos cp)) in *.
  assert (Hd : 1 <= d <= 53).
  { split; [unfold d; lia |].
    destruct (Z_lt_le_dec 53 d) as [H |]; [| assumption].
    assert (2 ^ 53 <= 2 ^ (d - 1)) by (apply Z.pow_le_mono_r; lia). lia. }
  assert (Hm : 2 ^ 52 <= Zpos cp * 2 ^ (53 - d) < 2 ^ 53).
  { assert (E52 : 2 ^ 52 = 2 ^ (d - 1) * 2 ^ (53 - d))
      by (rewrite <- Z.pow_add_r by lia; f_equal; lia).
    assert (E53 : 2 ^ 53 = 2 ^ d * 2 ^ (53 - d))
      by (rewrite <- Z.pow_add_r by lia; f_equal; lia).
    assert (0 < 2 ^ (53 - d)) by (apply Z.pow_pos_nonneg; lia).
    rewrite E52, E53.
    split; [apply Z.mul_le_mono_nonneg_r | apply Z.mul_lt_mono_pos_r]; lia. }
  assert (Hpos : 0 < Zpos cp * 2 ^ (53 - d)).
  { assert (0 < 2 ^ 52) by (apply Z.pow_pos_nonneg; lia). lia. }
  destruct (Zpos cp * 2 ^ (53 - d)) as [| m |] eqn:Em; try lia.
  exists m, (d - 53).
  assert (Hb : bounded 53 1024 m (d - 53) = true)
    by (apply bounded_normal; [exact Hm | lia]).
  split; [| split; [exact Hb | split; [lia | split]]].
  - rewrite Hnum. apply round_exact; [exact Hb |].
    right. split; [lia |]. rewrite <- Em. f_equal. f_equal. lia.
  - rewrite Habs, <- Em. f_equal. f_equal. lia.
  - exact Hm.
Qed.

Lemma shl_align_fst (m : positive) (e ez : Z) :
  ez <= e -> Zpos (fst (shl_align m e ez)) = Zpos m * 2 ^ (e - ez).
Proof.
  intros H. unfold shl_align.
  destruct (ez - e) as [| p | p] eqn:E; try lia; cbn [fst].
  - replace (e - ez) with 0 by lia. cbn. lia.
  - rewrite iter_xO_value. f_equal. f_equal. lia.
Qed.

Lemma cond_Zopp_abs (c : Z) : cond_Zopp (c <? 0) (Z.abs c) = c.
Proof.
  unfold cond_Zopp. destruct (c <? 0) eqn:E.
  - apply Z.ltb_lt in E. lia.
  - apply Z.ltb_ge in E. lia.
Qed.

Lemma cond_Zopp_mul (s : bool) (a b : Z) :
  cond_Zopp s (a * b) = cond_Zopp s a * b.
Proof. destruct s; cbn; lia. Qed.

Lemma num_zero : num 0 = S754_zero false.
Proof. reflexivity. Qed.

Lemma pow2_pos (k : Z) : 0 <= k -> 0 < 2 ^ k.
Proof. intros. apply Z.pow_pos_nonneg; lia. Qed.

(** The sum of the doubles of two non-zero safe integers whose sum is
    safe is the double of their sum. *)
Lemma add_represents (x y : number) (a b : Z) :
  represents x a -> represents y b -> safe (a + b) ->
  js_add x y = num (a + b).
Proof.
  intros (ma & ea & -> & Hba & Hea & Hma & Hna)
         (mb & eb & -> & Hbb & Heb & Hmb & Hnb) Hs.
  unfold js_add. cbn [SFadd].
  set (ez := Z.min ea eb).
  assert (Hez : ez <= ea /\ ez <= eb /\ ez <= 0) by (unfold ez; lia).
  rewrite !shl_align_fst by lia.
  rewrite Hma, Hmb.
  rewrite <- !Z.mul_assoc, <- !Z.pow_add_r by lia.
  replace (- ea + (ea - ez)) with (- ez) by lia.
  replace (- eb + (eb - ez)) with (- ez) by lia.
  rewrite !cond_Zopp_mul, !cond_Zopp_abs, <- Z.mul_add_distr_r.
  destruct (Z.eq_dec (a + b) 0) as [Hz | Hnz].
  - rewrite Hz. reflexivity.
  - destruct (num_represents (a + b) Hnz Hs)
      as (m' & e' & Hnum & Hb' & He' & Hm' & Hn').
    rewrite Hnum.
    pose proof (pow2_pos (- ez) ltac:(lia)) as Hp.
    assert (Hround : forall M, Zpos M = Z.abs (a + b) * 2 ^ (- ez) ->
              binary_round 53 1024 (a + b <? 0) M ez
              = S754_finite (a + b <? 0) m' e').
    { intros M HM. apply round_exact; [exact Hb' |].
      destruct (Z_le_gt_dec ez e') as [Hle | Hgt].
      - left. split; [exact Hle |].
        rewrite HM, Hm', <- Z.mul_assoc, <- Z.pow_add_r by lia.
        f_equal. f_equal. lia.
      - right. split; [lia |].
        rewrite HM, Hm', <- Z.mul_assoc, <- Z.pow_add_r by lia.
        f_equal. f_equal. lia. }
    destruct ((a + b) * 2 ^ (- ez)) as [| M | M] eqn:EM.
    + nia.
    + assert (0 < a + b) by nia.
      replace (a + b <? 0) with false in *
        by (symmetry; apply Z.ltb_ge; lia).
      cbn [binary_normalize]. apply Hround.
      rewrite Z.abs_eq by lia. now rewrite EM.
    + assert (a + b < 0) by nia.
      replace (a + b <? 0) with true in *
        by (symmetry; apply Z.ltb_lt; lia).
      cbn [binary_normalize]. apply Hround.
      rewrite Z.abs_neq by lia.
      rewrite Z.mul_opp_l, EM. reflexivity.
Qed.

Lemma represents_nonzero (x : number) (c : Z) : represents x c -> c <> 0.
Proof.
  intros (m & e & _ & _ & _ & Hm & _) ->. cbn in Hm. lia.
Qed.

Lemma sign_of_product (a b : Z) :
  a <> 0 -> b <> 0 -> xorb (a <? 0) (b <? 0) = (a * b <? 0).
Proof.
  intros Ha Hb.
  destruct (a <? 0) eqn:Ea, (b <? 0) eqn:Eb; cbn [xorb]; symmetry;
    rewrite ?Z.ltb_lt, ?Z.ltb_ge in *; nia.
Qed.

(** The product of the doubles of two non-zero integers whose product is
    safe is the double of their product. *)
Lemma mul_represents (x y : number) (a b : Z) :
  represents x a -> represents y b -> safe (a * b) ->
  js_mul x y = num (a * b).
Proof.
  intros Hx Hy Hs.
  pose proof (represents_nonzero _ _ Hx) as Ha.
  pose proof (represents_nonzero _ _ Hy) as Hb.
  destruct Hx as (ma & ea & -> & Hba & Hea & Hma & Hna).
  destruct Hy as (mb & eb & -> & Hbb & Heb & Hmb & Hnb).
  assert (Hab : a * b <> 0) by nia.
  destruct (num_represents (a * b) Hab Hs)
    as (m' & e' & Hnum & Hb' & He' & Hm' & Hn').
  rewrite Hnum. unfold js_mul. cbn [SFmul].
  rewrite sign_of_product by assumption.
  assert (Hprod : Zpos (ma * mb) = Z.abs (a * b) * 2 ^ (- (ea + eb))).
  { rewrite Pos2Z.inj_mul, Hma, Hmb, Z.abs_mul.
    replace (- (ea + eb)) with (- ea + - eb) by lia.
    rewrite Z.pow_add_r by lia. ring. }
  assert (Hle : ea + eb <= e').
  { destruct (Z_le_gt_dec (ea + eb) e') as [| Hgt]; [assumption | exfalso].
    assert (E : Zpos m' = Zpos (ma * mb) * 2 ^ (ea + eb - e')).
    { rewrite Hprod, Hm', <- Z.mul_assoc, <- Z.pow_add_r by lia.
      f_equal. f_equal. lia. }
    assert (2 ^ 1 <= 2 ^ (ea + eb - e')) by (apply Z.pow_le_mono_r; lia).
    change (2 ^ 1) with 2 in *.
    assert (2 ^ 52 * 2 ^ 52 <= Zpos (ma * mb)).
    { rewrite Pos2Z.inj_mul. apply Z.mul_le_mono_nonneg; lia. }
    change (2 ^ 52) with 4503599627370496 in *.
    change (2 ^ 53) with 9007199254740992 in *.
    nia. }
  apply round_aux_exact; [exact Hb' | exact Hle |].
  rewrite Hprod, Hm', <- Z.mul_assoc, <- Z.pow_add_r by lia.
  f_equal. f_equal. lia.
Qed.

Lemma js_mul_num (a b : Z) :
  safe a -> safe b -> safe (a * b) ->
  amounts_to (js_mul (num a) (num b)) (a * b).
Proof.
  intros Ha Hb Hab. unfold amounts_to.
  destruct (Z.eq_dec a 0) as [-> | Hna].
  - rewrite Z.mul_0_l, num_zero.
    destruct (Z.eq_dec b 0) as [-> | Hnb].
    + left. reflexivity.
    + destruct (num_represents b Hnb Hb) as (m & e & -> & _).
      unfold js_mul. cbn [SFmul xorb].
      destruct (b <? 0); [right | left]; auto.
  - destruct (Z.eq_dec b 0) as [-> | Hnb].
    + rewrite Z.mul_0_r, num_zero.
      destruct (num_represents a Hna Ha) as (m & e & -> & _).
      unfold js_mul. cbn [SFmul].
      destruct (a <? 0); cbn [xorb]; [right | left]; auto.
    + left. apply mul_represents; try assumption;
        apply num_represents; assumption.
Qed.

Lemma js_add_num (s l : Z) (x : number) :
  safe s -> safe l -> safe (s + l) -> amounts_to x l ->
  js_add (num s) x = num (s + l).
Proof.
  intros Hs Hl Hsl [-> | [-> ->]].
  - destruct (Z.eq_dec s 0) as [-> | Hns].
    + rewrite Z.add_0_l, num_zero.
      destruct (Z.eq_dec l 0) as [-> | Hnl]; [reflexivity |].
      destruct (num_represents l Hnl Hl) as (m & e & -> & _). reflexivity.
    + destruct (Z.eq_dec l 0) as [-> | Hnl].
      * rewrite Z.add_0_r, num_zero.
        destruct (num_represents s Hns Hs) as (m & e & -> & _). reflexivity.
      * apply add_represents; try assumption;
          apply num_represents; assumption.
  - rewrite Z.add_0_r.
    destruct (Z.eq_dec s 0) as [-> | Hns]; [reflexivity |].
    destruct (num_represents s Hns Hs) as (m & e & -> & _). reflexivity.
Qed.

End Doubles.


(* ================================================================== *)
(** * Reasoning about runs *)

Ltac run_monad :=
  unfold outcome, after, bind, try_catch, try_finally, ret, throw, log in *.

Lemma add_events_nil w : add_events [] w = w.
Proof.
  destruct w; unfold add_events; simpl. now rewrite app_nil_r.
Qed.

Lemma add_events_app evs1 evs2 w :
  add_events evs2 (add_events evs1 w) = add_events (evs1 ++ evs2) w.
Proof.
  unfold add_events; simpl. now rewrite app_assoc.
Qed.

Lemma new_events_app w w' evs :
  trace w' = trace w ++ evs -> new_events w w' = evs.
Proof.
  intros H. unfold new_events. rewrite H.
  rewrite skipn_app, skipn_all, Nat.sub_diag. reflexivity.
Qed.

Lemma bind_ok A B (m : M A) (k : A -> M B) w a w1 :
  m w = (Ok a, w1) -> bind m k w = k a w1.
Proof. intros H. unfold bind. now rewrite H. Qed.

Lemma bind_err A B (m : M A) (k : A -> M B) w e w1 :
  m w = (Err e, w1) -> bind m k w = (Err e, w1).
Proof. intros H. unfold bind. now rewrite H. Qed.

(** For a reflexive and transitive relation [R], the combinators of the
    monad maintain [R] as soon as their parts do. *)
Section Maintains.
Variable R : World -> World -> Prop.
Hypothesis R_refl : forall w, R w w.
Hypothesis R_trans : forall w1 w2 w3, R w1 w2 -> R w2 w3 -> R w1 w3.

Lemma maintains_ret A (a : A) : maintains R (ret a).
Proof. intros w. apply R_refl. Qed.

Lemma maintains_throw A e : maintains R (@throw A e).
Proof. intros w. apply R_refl. Qed.

Lemma maintains_bind A B (m : M A) (k : A -> M B) :
  maintains R m -> (forall a, maintains R (k a)) -> maintains R (bind m k).
Proof.
  intros Hm Hk w. specialize (Hm w). unfold after, bind in *.
  destruct (m w) as [[a | e] w1]; simpl in *; auto.
  eapply R_trans; [exact Hm | apply Hk].
Qed.

Lemma maintains_try_catch A (m : M A) (h : Error -> M A) :
  maintains R m -> (forall e, maintains R (h e)) ->
  maintains R (try_catch m h).
Proof.
  intros Hm Hh w. specialize (Hm w). unfold after, try_catch in *.
  destruct (m w) as [[a | e] w1]; simpl in *; auto.
  eapply R_trans; [exact Hm | apply Hh].
Qed.

Lemma maintains_try_finally A (m : M A) (fin : M unit) :
  maintains R m -> maintains R fin -> maintains R (try_finally m fin).
Proof.
  intros Hm Hf w. specialize (Hm w). unfold after, try_finally in *.
  destruct (m w) as [r w1]; simpl in *.
  specialize (Hf w1). unfold after in Hf.
  destruct (fin w1) as [[u | e] w2]; simpl in *; eapply R_trans; eauto.
Qed.

Lemma maintains_for_of A (xs : list A) (body : A -> M unit) :
  (forall x, maintains R (body x)) -> maintains R (for_of xs body).
Proof.
  intros Hb. induction xs as [| x rest IH]; simpl.
  - apply maintains_ret.
  - apply maintains_bind; auto.
Qed.

End Maintains.

(** A handler that returns normally makes the whole block return
    normally. *)
Lemma try_catch_swallow (m : M unit) (h : Error -> M unit) (w : World) :
  (forall e w', outcome (h e) w' = Ok tt) ->
  outcome (try_catch m h) w = Ok tt.
Proof.
  intros Hh. unfold outcome, try_catch in *.
  destruct (m w) as [[[] | e] w1]; [reflexivity | apply Hh].
Qed.

(** ** The notification service touches nothing but the trace *)

Ltac world_eq :=
  unfold emit, add_events;
  cbn [tables order_seq item_seq sessions acquired released tick
       db_faults lookup_fails deliver_fails trace];
  rewrite <- ?app_assoc; try reflexivity.

Lemma emit_add_events e w : emit e w = add_events [e] w.
Proof. reflexivity. Qed.

Lemma user_directory_run u w :
  user_directory u w
  = (if lookup_fails w u then Err (LookupError u) else Ok tt,
     add_events [EvLookup u (negb (lookup_fails w u))] w).
Proof.
  unfold user_directory. destruct (lookup_fails w u); reflexivity.
Qed.

Lemma fetchUserEmail_run u w :
  fetchUserEmail u w
  = (if lookup_fails w u then Err (LookupError u)
     else Ok (mkUserEmail (address_of u)),
     add_events [EvLookup u (negb (lookup_fails w u))] w).
Proof.
  unfold fetchUserEmail, bind. rewrite user_directory_run.
  destruct (lookup_fails w u); reflexivity.
Qed.

Lemma sendEmail_run n w :
  sendEmail n w
  = (if deliver_fails w n then Err (DeliveryError n) else Ok tt,
     add_events (email_events w n) w).
Proof.
  unfold sendEmail, delivery_channel, email_events. run_monad.
  cbn [deliver_fails emit].
  destruct (deliver_fails w n); world_eq.
Qed.

Lemma notify_one_run s b u w :
  notify_one s b u w
  = (result_of_settled (settle w s b u),
     add_events (bulk_events_one w s b u) w).
Proof.
  unfold notify_one, bind. rewrite fetchUserEmail_run.
  unfold settle, bulk_events_one.
  destruct (lookup_fails w u); [reflexivity |].
  cbn [email]. rewrite sendEmail_run. fold (bulk_email s b u).
  change (deliver_fails (add_events _ w)) with (deliver_fails w).
  unfold email_events.
  change (deliver_fails (add_events _ w)) with (deliver_fails w).
  destruct (deliver_fails w (bulk_email s b u));
    rewrite add_events_app; reflexivity.
Qed.

Lemma sendOrderConfirmation_run o u w :
  sendOrderConfirmation o u w
  = (if confirmation_fails w o u
     then Err (ErrorMsg "Failed to send order confirmation") else Ok tt,
     add_events
       (if lookup_fails w u then [EvLookup u false]
        else EvLookup u true :: email_events w (confirmation_email o u)) w).
Proof.
  unfold sendOrderConfirmation, try_catch, bind, throw, confirmation_fails.
  rewrite fetchUserEmail_run.
  destruct (lookup_fails w u); [reflexivity |].
  cbn [email orb]. fold (confirmation_email o u). rewrite sendEmail_run.
  unfold email_events.
  change (deliver_fails (add_events _ w)) with (deliver_fails w).
  destruct (deliver_fails w (confirmation_email o u));
    rewrite add_events_app; reflexivity.
Qed.

(** The guarded confirmation step of [createOrder]: it always returns
    normally. *)
Lemma confirmation_step_run o u w :
  try_catch
    (sendOrderConfirmation o u)
    (fun error =>
       log LError "Failed to send order confirmation"
           [("orderId", LNum o); ("error", LErr error)]) w
  = (Ok tt, add_events (confirmation_events w o u) w).
Proof.
  unfold try_catch, log, confirmation_events.
  rewrite sendOrderConfirmation_run.
  destruct (confirmation_fails w o u).
  - rewrite emit_add_events, add_events_app. reflexivity.
  - rewrite app_nil_r. reflexivity.
Qed.

Lemma allSettled_bulk s b ids : forall w,
  allSettled (map (notify_one s b) ids) w
  = (Ok (map (settle w s b) ids),
     add_events (flat_map (bulk_events_one w s b) ids) w).
Proof.
  induction ids as [| u rest IH]; intros w.
  - simpl. unfold ret. now rewrite add_events_nil.
  - cbn [map allSettled flat_map]. rewrite notify_one_run.
    destruct (settle w s b u) as [[] | e] eqn:E; cbn [result_of_settled];
      unfold bind, ret; rewrite IH, add_events_app; reflexivity.
Qed.

Lemma settled_partition (results : list (Settled unit)) :
  List.length (filter is_fulfilled results)
  + List.length (filter is_rejected results)
  = List.length results.
Proof.
  induction results as [| [u | e] rest IH]; simpl; lia.
Qed.

(** ** The relations are preorders *)

Lemma pool_kept_refl w : pool_kept w w.
Proof. reflexivity. Qed.

Lemma pool_kept_trans w1 w2 w3 :
  pool_kept w1 w2 -> pool_kept w2 w3 -> pool_kept w1 w3.
Proof. unfold pool_kept. congruence. Qed.

Lemma tx_kept_refl c w : tx_kept c w w.
Proof. intros H. auto. Qed.

Lemma tx_kept_trans c w1 w2 w3 :
  tx_kept c w1 w2 -> tx_kept c w2 w3 -> tx_kept c w1 w3.
Proof.
  intros H12 H23 H1. destruct (H12 H1) as [H2 E2].
  destruct (H23 H2) as [H3 E3]. split; congruence.
Qed.

Lemma extends_with_refl P w : extends_with P w w.
Proof. exists []. split; [now rewrite app_nil_r | constructor]. Qed.

Lemma extends_with_trans P w1 w2 w3 :
  extends_with P w1 w2 -> extends_with P w2 w3 -> extends_with P w1 w3.
Proof.
  intros [evs1 [E1 F1]] [evs2 [E2 F2]]. exists (evs1 ++ evs2). split.
  - rewrite E2, E1. now rewrite app_assoc.
  - apply Forall_app. now split.
Qed.

Lemma only_events_pool_kept w w' : only_events w w' -> pool_kept w w'.
Proof. intros [evs ->]. reflexivity. Qed.

Lemma only_events_tx_kept c w w' : only_events w w' -> tx_kept c w w'.
Proof. intros [evs ->] H. split; [exact H | reflexivity]. Qed.

(** ** The driver, call by call *)

Lemma query_rejected c s w :
  db_faults w (tick w) = true ->
  query c s w = (Err (QueryError s), driver_call (EvQuery c s false) w).
Proof. intros H. unfold query. rewrite H. reflexivity. Qed.

Lemma query_rollback_accepted c w :
  db_faults w (tick w) = false ->
  query c Rollback w
  = (Ok (mkResult [] 0),
     set_session c None (driver_call (EvQuery c Rollback true) w)).
Proof. intros H. unfold query. rewrite H. reflexivity. Qed.

Lemma query_commit_accepted c w pending :
  db_faults w (tick w) = false ->
  sessions w c = Some pending ->
  query c Commit w
  = (Ok (mkResult [] 0),
     set_session c None
       (set_tables (pending (tables w)) (driver_call (EvQuery c Commit true) w))).
Proof. intros H Hs. unfold query. rewrite H, Hs. reflexivity. Qed.

Lemma query_pool_kept c s : maintains pool_kept (query c s).
Proof.
  intros w. unfold after, query, pool_kept, in_use.
  destruct (db_faults w (tick w)); [reflexivity |].
  destruct s; destruct (sessions w c); reflexivity.
Qed.

Lemma log_only_events level message meta :
  maintains only_events (log level message meta).
Proof. intros w. exists [EvLog level message meta]. reflexivity. Qed.

Lemma confirmation_step_only_events o u :
  maintains only_events
    (try_catch
       (sendOrderConfirmation o u)
       (fun error =>
          log LError "Failed to send order confirmation"
              [("orderId", LNum o); ("error", LErr error)])).
Proof.
  intros w. unfold after. rewrite confirmation_step_run. now eexists.
Qed.

(** An insert sent on a connection with a transaction open stays in that
    transaction. *)
Lemma query_insert_tx_kept c s :
  (exists u st total, s = InsertOrder u st total)
  \/ (exists o p q pr, s = InsertOrderItem o p q pr) ->
  maintains (tx_kept c) (query c s).
Proof.
  intros Hs w Hopen. unfold after, query.
  destruct (db_faults w (tick w)); [split; [exact Hopen | reflexivity] |].
  destruct (sessions w c) as [pending |] eqn:E; [| contradiction].
  destruct Hs as [(u & st & total & ->) | (o & p & q & pr & ->)];
    cbn; rewrite Nat.eqb_refl; split; (discriminate || reflexivity).
Qed.

Lemma query_extends P c s :
  P (EvQuery c s true) -> P (EvQuery c s false) ->
  maintains (extends_with P) (query c s).
Proof.
  intros Pt Pf w. unfold after, query.
  destruct (db_faults w (tick w)).
  - exists [EvQuery c s false]. split; [reflexivity | now constructor].
  - exists [EvQuery c s true]. split; [| now constructor].
    destruct s; destruct (sessions w c); reflexivity.
Qed.

(** ** [executeTransaction], step by step *)

Lemma tx_started_inv w c w1 :
  tx_started w = (Ok c, w1) ->
  c = acquired w
  /\ db_faults w (tick w) = false
  /\ db_faults w (S (tick w)) = false
  /\ w1 = set_session c (Some (fun d => d))
            (driver_call (EvQuery c Begin true)
               (set_session c None
                  (set_pool (S (acquired w)) (released w)
                     (driver_call (EvConnect c) w)))).
Proof.
  unfold tx_started, bind, pool_connect, query, ret.
  destruct (db_faults w (tick w)) eqn:E0; [discriminate |].
  cbn [tick db_faults driver_call emit set_pool set_session].
  destruct (db_faults w (S (tick w))) eqn:E1; [discriminate |].
  cbn [sessions set_session]. rewrite Nat.eqb_refl.
  intros H. inversion H; subst. auto.
Qed.

Lemma tx_started_accepted w :
  driver_ok 2 w ->
  exists w1, tx_started w = (Ok (acquired w), w1).
Proof.
  intros H.
  assert (E0 : db_faults w (tick w) = false)
    by (rewrite <- (Nat.add_0_r (tick w)); apply H; lia).
  assert (E1 : db_faults w (S (tick w)) = false)
    by (rewrite <- Nat.add_1_r; apply H; lia).
  unfold tx_started, bind, pool_connect, query, ret.
  rewrite E0.
  cbn [tick db_faults driver_call emit set_pool set_session].
  rewrite E1.
  cbn [sessions set_session]. rewrite Nat.eqb_refl. eauto.
Qed.

(** Once the transaction is started, [executeTransaction] is its guarded
    body run from there. *)
Lemma executeTransaction_started T (callback : nat -> M T) w c w1 :
  tx_started w = (Ok c, w1) ->
  executeTransaction callback w
  = try_finally
      (try_catch
         (result <- callback c ;; query c Commit ;; ret result)
         (fun error => query c Rollback ;; throw error))
      (release c) w1.
Proof.
  unfold tx_started, executeTransaction, bind, try_finally, try_catch, ret.
  destruct (pool_connect w) as [[c0 | e0] w0]; [| discriminate].
  destruct (query c0 Begin w0) as [[r | e] w0']; [| discriminate].
  intros H. inversion H; subst. reflexivity.
Qed.

(** The failure path: the callback raised [e] in [w2]. *)
Lemma executeTransaction_failure_path T (callback : nat -> M T) w c w1 e w2 :
  tx_started w = (Ok c, w1) ->
  callback c w1 = (Err e, w2) ->
  executeTransaction callback w
  = if db_faults w2 (tick w2)
    then (Err (QueryError Rollback),
          after (release c) (driver_call (EvQuery c Rollback false) w2))
    else (Err e,
          after (release c)
            (set_session c None (driver_call (EvQuery c Rollback true) w2))).
Proof.
  intros Hs Hc. rewrite (executeTransaction_started _ _ _ _ _ Hs).
  unfold try_finally, try_catch. erewrite bind_err by exact Hc.
  unfold bind, throw.
  destruct (db_faults w2 (tick w2)) eqn:E.
  - rewrite query_rejected by exact E. reflexivity.
  - rewrite query_rollback_accepted by exact E. reflexivity.
Qed.

Lemma executeTransaction_pool_kept T (callback : nat -> M T) :
  (forall c, maintains pool_kept (callback c)) ->
  maintains pool_kept (executeTransaction callback).
Proof.
  intros Hcb w. unfold after, executeTransaction, bind.
  unfold pool_connect at 1.
  destruct (db_faults w (tick w)); [reflexivity |].
  set (c := acquired w).
  set (w0 := set_session c None _).
  set (body := try_catch _ _).
  assert (Hbody : maintains pool_kept body).
  { unfold body.
    apply (maintains_try_catch _ pool_kept_trans).
    - apply (maintains_bind _ pool_kept_trans); [apply query_pool_kept |].
      intros _. apply (maintains_bind _ pool_kept_trans); [apply Hcb |].
      intros r. apply (maintains_bind _ pool_kept_trans);
        [apply query_pool_kept |].
      intros _. apply (maintains_ret _ pool_kept_refl).
    - intros e. apply (maintains_bind _ pool_kept_trans);
        [apply query_pool_kept |].
      intros _. apply (maintains_throw _ pool_kept_refl). }
  specialize (Hbody w0). unfold after, try_finally, release in *.
  destruct (body w0) as [r w2]. cbn [fst snd] in *.
  unfold pool_kept, in_use in *. subst w0 c.
  cbn [acquired released set_session set_pool driver_call emit] in *. lia.
Qed.

Lemma executeTransaction_release_last T (callback : nat -> M T) w :
  db_faults w (tick w) = false ->
  exists evs,
    trace (after (executeTransaction callback) w)
    = evs ++ [EvRelease (acquired w)].
Proof.
  intros H. unfold after, executeTransaction, bind.
  unfold pool_connect at 1. rewrite H.
  unfold try_finally, release.
  match goal with |- context [try_catch ?m ?h ?w0] =>
    destruct (try_catch m h w0) as [r w2] end.
  cbn. eauto.
Qed.

(** ** The unit of work of [createOrder] *)

Lemma confirmation_events_not_commit w o u :
  Forall not_commit (confirmation_events w o u).
Proof.
  unfold confirmation_events, email_events, not_commit.
  destruct (lookup_fails w u), (confirmation_fails w o u),
    (deliver_fails w (confirmation_email o u));
    repeat (constructor; try reflexivity).
Qed.

Lemma log_extends (P : Event -> Prop) level message meta :
  P (EvLog level message meta) ->
  maintains (extends_with P) (log level message meta).
Proof.
  intros HP w. exists [EvLog level message meta].
  split; [reflexivity | now constructor].
Qed.

Lemma createOrder_callback_pool_kept input c :
  maintains pool_kept (createOrder_callback input c).
Proof.
  unfold createOrder_callback.
  apply (maintains_bind _ pool_kept_trans); [apply query_pool_kept |].
  intros r. destruct (first_order (rows r)) as [order |];
    [| apply (maintains_throw _ pool_kept_refl)].
  repeat first
    [ apply (maintains_ret _ pool_kept_refl)
    | apply query_pool_kept
    | (intros w0; apply only_events_pool_kept;
       first [apply log_only_events | apply confirmation_step_only_events])
    | apply (maintains_bind _ pool_kept_trans); [| intros ?]
    | apply (maintains_for_of _ pool_kept_refl pool_kept_trans); intros ? ].
Qed.

(** The unit of work writes only through the transaction it is given. *)
Lemma createOrder_callback_tx_kept input c :
  maintains (tx_kept c) (createOrder_callback input c).
Proof.
  unfold createOrder_callback.
  apply (maintains_bind _ (tx_kept_trans c));
    [apply query_insert_tx_kept; left; eauto |].
  intros r. destruct (first_order (rows r)) as [order |];
    [| apply (maintains_throw _ (tx_kept_refl c))].
  repeat first
    [ apply (maintains_ret _ (tx_kept_refl c))
    | (apply query_insert_tx_kept; right; solve [eauto 6])
    | (intros w0; apply only_events_tx_kept;
       first [apply log_only_events | apply confirmation_step_only_events])
    | apply (maintains_bind _ (tx_kept_trans c)); [| intros ?]
    | apply (maintains_for_of _ (tx_kept_refl c) (tx_kept_trans c)); intros ? ].
Qed.

(** The unit of work never sends [COMMIT] itself. *)
Lemma createOrder_callback_no_commit input c :
  maintains (extends_with not_commit) (createOrder_callback input c).
Proof.
  unfold createOrder_callback.
  apply (maintains_bind _ (extends_with_trans _));
    [apply query_extends; reflexivity |].
  intros r. destruct (first_order (rows r)) as [order |];
    [| apply (maintains_throw _ (extends_with_refl _))].
  repeat first
    [ apply (maintains_ret _ (extends_with_refl _))
    | (apply query_extends; reflexivity)
    | (apply log_extends; reflexivity)
    | (intros w0; unfold after; rewrite confirmation_step_run;
       exists (confirmation_events w0 (ord_id order) (userId input));
       split; [reflexivity | apply confirmation_events_not_commit])
    | apply (maintains_bind _ (extends_with_trans _)); [| intros ?]
    | apply (maintains_for_of _ (extends_with_refl _) (extends_with_trans _));
      intros ? ].
Qed.

Lemma insert_item_accepted c oid item w pending :
  sessions w c = Some pending ->
  db_faults w (tick w) = false ->
  query c (item_stmt oid item) w
  = (Ok (mkResult [] 1),
     set_session c
       (Some (fun t => effect (item_stmt oid item) (Z.of_nat (tick w))
                              (order_seq w) (item_seq w) (pending t)))
       (draw (item_stmt oid item)
          (driver_call (EvQuery c (item_stmt oid item) true) w))).
Proof.
  intros Hs E. unfold query, item_stmt. rewrite E, Hs. reflexivity.
Qed.

Lemma insert_items_accepted c oid its : forall w pending,
  sessions w c = Some pending ->
  driver_ok (List.length its) w ->
  exists w',
    for_of its (fun item => query c (item_stmt oid item) ;; ret tt) w
    = (Ok tt, w')
    /\ items_inserted c oid its w w'.
Proof.
  induction its as [| item rest IH]; intros w pending Hs Hok.
  - exists w. split; [reflexivity |].
    constructor; rewrite ?app_nil_r, ?Nat.add_0_r, ?Z.add_0_r; auto.
    intros p Hp. exists p. split; [exact Hp |].
    intros t. cbn [item_rows]. rewrite app_nil_r. now destruct (p t).
  - assert (E0 : db_faults w (tick w) = false)
      by (rewrite <- (Nat.add_0_r (tick w)); apply Hok; simpl; lia).
    pose proof (insert_item_accepted c oid item w pending Hs E0) as Hq.
    set (w1 := set_session c _ _) in Hq.
    assert (Hs1 : sessions w1 c
                  = Some (fun t => effect (item_stmt oid item)
                                     (Z.of_nat (tick w)) (order_seq w)
                                     (item_seq w) (pending t))).
    { unfold w1. cbn [sessions set_session]. now rewrite Nat.eqb_refl. }
    assert (F1 : tables w1 = tables w /\ order_seq w1 = order_seq w
                 /\ item_seq w1 = (item_seq w + 1)%Z
                 /\ acquired w1 = acquired w /\ released w1 = released w
                 /\ tick w1 = S (tick w) /\ db_faults w1 = db_faults w
                 /\ lookup_fails w1 = lookup_fails w
                 /\ deliver_fails w1 = deliver_fails w
                 /\ trace w1 = trace w ++ [EvQuery c (item_stmt oid item) true])
      by (unfold w1, item_stmt; repeat split; reflexivity).
    destruct F1 as (Ft & Fo & Fi & Fa & Fr & Fk & Ff & Fl & Fd & Fe).
    assert (Hok1 : driver_ok (List.length rest) w1).
    { intros k Hk. rewrite Ff, Fk.
      replace (S (tick w) + k) with (tick w + S k) by lia.
      apply Hok. simpl. lia. }
    destruct (IH w1 _ Hs1 Hok1) as [w' [Hrun Hpost]].
    exists w'. split.
    + cbn [for_of]. unfold bind at 1 2. rewrite Hq. unfold ret at 1.
      exact Hrun.
    + destruct Hpost. constructor.
      * congruence.
      * congruence.
      * rewrite ii_item_seq0, Fi. cbn [List.length]. lia.
      * intros p Hp. rewrite Hs in Hp. inversion Hp; subst p.
        destruct (ii_session0 _ Hs1) as [g [Hg Hgt]].
        exists g. split; [exact Hg |]. intros t. rewrite Hgt, Fi.
        unfold item_stmt. cbn [effect orders order_items item_rows].
        rewrite <- app_assoc. reflexivity.
      * congruence.
      * congruence.
      * rewrite ii_tick0, Fk. cbn [List.length]. lia.
      * congruence.
      * congruence.
      * congruence.
      * rewrite ii_trace0, Fe. cbn [map]. rewrite <- app_assoc. reflexivity.
Qed.

Lemma confirmation_events_ext w w' o u :
  lookup_fails w' = lookup_fails w ->
  deliver_fails w' = deliver_fails w ->
  confirmation_events w' o u = confirmation_events w o u.
Proof.
  intros Hl Hd.
  unfold confirmation_events, confirmation_fails, email_events.
  rewrite Hl, Hd. reflexivity.
Qed.

(** The unit of work on its accepted path: the order and the items are
    pending in the transaction, nothing is committed yet, and the
    confirmation has been attempted. *)
Lemma createOrder_callback_accepted input c w pending :
  sessions w c = Some pending ->
  driver_ok (1 + List.length (items input)) w ->
  exists w',
    createOrder_callback input c w = (Ok (inserted_order input w), w')
    /\ tables w' = tables w
    /\ (exists g, sessions w' c = Some g
                  /\ forall t,
                    g t = mkDb (orders (pending t) ++ [inserted_order input w])
                               (order_items (pending t)
                                ++ item_rows (order_seq w) (item_seq w)
                                     (items input)))
    /\ acquired w' = acquired w /\ released w' = released w
    /\ tick w' = tick w + 1 + List.length (items input)
    /\ db_faults w' = db_faults w
    /\ trace w' = trace w ++ callback_events input c w.
Proof.
  intros Hs Hok.
  assert (E0 : db_faults w (tick w) = false)
    by (rewrite <- (Nat.add_0_r (tick w)); apply Hok; lia).
  set (order := inserted_order input w).
  set (s := InsertOrder (userId input) "pending" (totalAmount (items input))).
  set (w1 := set_session c
               (Some (fun t => effect s (Z.of_nat (tick w)) (order_seq w)
                                      (item_seq w) (pending t)))
               (draw s (driver_call (EvQuery c s true) w))).
  assert (Hq : query c s w = (Ok (mkResult [RowOrder order] 1), w1)).
  { unfold query, s. rewrite E0, Hs. reflexivity. }
  set (w2 := emit (EvLog Info "Order created" [("orderId", LNum (ord_id order))]) w1).
  assert (Hs2 : sessions w2 c
                = Some (fun t => effect s (Z.of_nat (tick w)) (order_seq w)
                                        (item_seq w) (pending t))).
  { unfold w2, w1, s. cbn [sessions set_session emit]. now rewrite Nat.eqb_refl. }
  assert (F2 : tables w2 = tables w /\ item_seq w2 = item_seq w
               /\ acquired w2 = acquired w /\ released w2 = released w
               /\ tick w2 = S (tick w) /\ db_faults w2 = db_faults w
               /\ lookup_fails w2 = lookup_fails w
               /\ deliver_fails w2 = deliver_fails w
               /\ trace w2 = trace w ++ [EvQuery c s true;
                    EvLog Info "Order created" [("orderId", LNum (ord_id order))]])
    by (unfold w2, w1, s; repeat split; try reflexivity;
        cbn; rewrite <- app_assoc; reflexivity).
  destruct F2 as (Ft & Fi & Fa & Fr & Fk & Ff & Fl & Fd & Fe).
  assert (Hok2 : driver_ok (List.length (items input)) w2).
  { intros k Hk. rewrite Ff, Fk.
    replace (S (tick w) + k) with (tick w + S k) by lia. apply Hok. lia. }
  destruct (insert_items_accepted c (ord_id order) (items input) w2 _ Hs2 Hok2)
    as [w3 [Hloop Hpost]].
  destruct Hpost.
  destruct (ii_session0 _ Hs2) as [g [Hg Hgt]].
  set (e4 := EvLog Info "Order items added"
               [("orderId", LNum (ord_id order));
                ("itemCount", LNum (Z.of_nat (List.length (items input))))]).
  exists (add_events (confirmation_events (emit e4 w3) (ord_id order) (userId input))
            (emit e4 w3)).
  split; [| repeat split].
  - unfold createOrder_callback. fold s. erewrite bind_ok by exact Hq.
    cbn [rows first_order]. unfold bind at 1, log at 1. fold w2.
    unfold item_stmt in Hloop. erewrite bind_ok by exact Hloop.
    unfold bind at 1, log at 1. fold e4.
    unfold bind. rewrite confirmation_step_run. reflexivity.
  - cbn [tables add_events emit]. congruence.
  - exists g. split; [exact Hg |]. intros t. rewrite Hgt, Fi.
    unfold s. cbn [effect orders order_items]. reflexivity.
  - cbn [acquired add_events emit]. congruence.
  - cbn [released add_events emit]. congruence.
  - cbn [tick add_events emit]. rewrite ii_tick0, Fk. lia.
  - cbn [db_faults add_events emit]. congruence.
  - cbn [trace add_events emit]. rewrite ii_trace0, Fe.
    rewrite (confirmation_events_ext w); [| cbn; congruence | cbn; congruence].
    unfold callback_events. fold s. fold e4.
    change (ord_id order) with (order_seq w).
    rewrite <- !app_assoc. reflexivity.
Qed.

(** ** [createOrder] when every statement is accepted *)

Lemma createOrder_committed input w :
  driver_ok (4 + List.length (items input)) w ->
  exists w',
    createOrder input w = (Ok (new_order input w), w')
    /\ tables w'
       = mkDb (orders (tables w) ++ [new_order input w])
              (order_items (tables w)
               ++ item_rows (order_seq w) (item_seq w) (items input))
    /\ trace w' = trace w ++ createOrder_events input w
    /\ acquired w' = S (acquired w)
    /\ released w' = S (released w).
Proof.
  intros Hok.
  set (e0 := EvLog Info "Creating new order"
               [("userId", LNum (userId input));
                ("itemCount", LNum (Z.of_nat (List.length (items input))))]).
  set (w0 := emit e0 w).
  set (c := acquired w).
  assert (Hok0 : driver_ok 2 w0) by (intros k Hk; apply Hok; lia).
  destruct (tx_started_accepted w0 Hok0) as [w1 Hst].
  change (acquired w0) with c in Hst.
  destruct (tx_started_inv _ _ _ Hst) as (_ & _ & _ & Hw1).
  change (acquired w0) with c in Hw1.
  assert (F1 : sessions w1 c = Some (fun d => d)
               /\ tables w1 = tables w /\ order_seq w1 = order_seq w
               /\ item_seq w1 = item_seq w
               /\ acquired w1 = S (acquired w) /\ released w1 = released w
               /\ tick w1 = S (S (tick w)) /\ db_faults w1 = db_faults w
               /\ lookup_fails w1 = lookup_fails w
               /\ deliver_fails w1 = deliver_fails w
               /\ trace w1 = trace w ++ [e0; EvConnect c; EvQuery c Begin true]).
  { rewrite Hw1. unfold w0. repeat split; try reflexivity.
    - cbn [sessions set_session]. now rewrite Nat.eqb_refl.
    - cbn. rewrite <- !app_assoc. reflexivity. }
  destruct F1 as (Fs & Ft & Fo & Fi & Fa & Fr & Fk & Ff & Fl & Fd & Fe).
  assert (Hok1 : driver_ok (1 + List.length (items input)) w1).
  { intros k Hk. rewrite Ff, Fk.
    replace (S (S (tick w)) + k) with (tick w + (2 + k)) by lia.
    apply Hok. lia. }
  destruct (createOrder_callback_accepted input c w1 _ Fs Hok1)
    as (w2 & Hcb & Gt & (g & Gs & Gg) & Ga & Gr & Gk & Gf & Ge).
  assert (Hord : inserted_order input w1 = new_order input w).
  { unfold inserted_order, new_order. rewrite Fo, Fk.
    replace (tick w + 2) with (S (S (tick w))) by lia. reflexivity. }
  rewrite Hord in *.
  assert (Ec : db_faults w2 (tick w2) = false).
  { rewrite Gf, Gk, Ff, Fk.
    replace (S (S (tick w)) + 1 + List.length (items input))
      with (tick w + (3 + List.length (items input))) by lia.
    apply Hok. lia. }
  pose proof (query_commit_accepted c w2 g Ec Gs) as Hcommit.
  set (w3 := set_session c None _) in Hcommit.
  exists (after (release c) w3).
  split; [| repeat split].
  - unfold createOrder. unfold bind at 1, log at 1. fold e0. fold w0.
    rewrite (executeTransaction_started _ _ _ _ _ Hst).
    unfold try_finally, try_catch.
    erewrite bind_ok by exact Hcb.
    erewrite bind_ok by exact Hcommit.
    reflexivity.
  - unfold w3. cbn [after snd release tables set_session set_pool emit
                    set_tables driver_call].
    rewrite Gg, Gt, Ft, Fo, Fi. reflexivity.
  - unfold w3. cbn [after snd release trace set_session set_pool emit
                    set_tables driver_call].
    rewrite Ge, Fe. unfold createOrder_events, callback_events.
    fold c. fold e0.
    rewrite (confirmation_events_ext w w1) by assumption.
    rewrite Fo. cbn [ord_id new_order].
    rewrite <- !app_assoc. reflexivity.
  - unfold w3. cbn [after snd release acquired set_session set_pool emit
                    set_tables driver_call].
    now rewrite Ga, Fa.
  - unfold w3. cbn [after snd release released set_session set_pool emit
                    set_tables driver_call].
    now rewrite Gr, Fr.
Qed.

(** ** [executeQuery] when the driver accepts both of its calls *)

Lemma executeQuery_accepted s w :
  driver_ok 2 w ->
  is_data s = true ->
  let now := Z.of_nat (S (tick w)) in
  exists w',
    executeQuery s w
    = (Ok (mkResult (answer s now (order_seq w) (item_seq w) (tables w))
                    (affected s (tables w))), w')
    /\ tables w' = effect s now (order_seq w) (item_seq w) (tables w)
    /\ tick w' = tick w + 2
    /\ db_faults w' = db_faults w
    /\ lookup_fails w' = lookup_fails w
    /\ deliver_fails w' = deliver_fails w
    /\ trace w' = trace w ++ [EvConnect (acquired w);
                              EvQuery (acquired w) s true;
                              EvRelease (acquired w)].
Proof.
  intros H Hs now.
  assert (E0 : db_faults w (tick w) = false)
    by (rewrite <- (Nat.add_0_r (tick w)); apply H; lia).
  assert (E1 : db_faults w (S (tick w)) = false)
    by (rewrite <- Nat.add_1_r; apply H; lia).
  unfold executeQuery, bind, pool_connect, try_finally, ret. rewrite E0.
  unfold query, view.
  cbn [tick db_faults sessions driver_call emit set_pool set_session
       tables order_seq item_seq].
  rewrite E1, Nat.eqb_refl.
  destruct s; try discriminate Hs;
    (eexists; split; [reflexivity |]);
    repeat split; cbn; rewrite <- ?app_assoc; try reflexivity; lia.
Qed.

Lemma no_row_with_id id (os : list Order) :
  (forall o, In o os -> ord_id o <> id) -> filter (has_id id) os = [].
Proof.
  intros H. induction os as [| o rest IH]; [reflexivity |].
  cbn [filter]. unfold has_id at 1.
  destruct (Z.eqb_spec (ord_id o) id) as [E | _].
  - exfalso. apply (H o); [now left | exact E].
  - apply IH. intros o' Ho'. apply H. now right.
Qed.

Lemma deleted_order_is_gone id (os : list Order) :
  filter (has_id id) (filter (fun o => negb (has_id id o)) os) = [].
Proof.
  induction os as [| o rest IH]; [reflexivity |].
  cbn [filter]. destruct (has_id id o) eqn:E; cbn [negb filter].
  - exact IH.
  - rewrite E. exact IH.
Qed.

Lemma totalAmount_from a (its : list OrderLine) :
  fold_left (fun sum item => js_add sum (js_mul (price item) (quantity item)))
            its a
  = sum_from a (map line_amount its).
Proof.
  revert a.
  induction its as [| item rest IH]; intros a; cbn [fold_left map sum_from].
  - reflexivity.
  - apply IH.
Qed.

Lemma totalAmount_is_sum its : totalAmount its = sum_of_lines its.
Proof. apply totalAmount_from. Qed.

Lemma absolute_total_nonneg (ls : list IntegerLine) :
  (0 <= absolute_total ls)%Z.
Proof.
  unfold absolute_total. induction ls as [| l rest IH]; cbn; lia.
Qed.

Lemma totalAmount_exact_from (ls : list IntegerLine) : forall s,
  Forall (fun l => safe (il_quantity l) /\ safe (il_price l)) ls ->
  (Z.abs s + absolute_total ls < 2 ^ 53)%Z ->
  fold_left (fun sum item => js_add sum (js_mul (price item) (quantity item)))
            (map line_of ls) (num s)
  = num (s + integer_total ls).
Proof.
  induction ls as [| l rest IH]; intros s Hall Hsum.
  - cbn. now rewrite Z.add_0_r.
  - inversion Hall as [| ? ? [Hq Hp] Hrest]; subst.
    pose proof (absolute_total_nonneg rest) as Hnn.
    assert (Ht : absolute_total (l :: rest)
                 = (Z.abs (il_price l * il_quantity l) + absolute_total rest)%Z)
      by reflexivity.
    assert (Hi : integer_total (l :: rest)
                 = (il_price l * il_quantity l + integer_total rest)%Z)
      by reflexivity.
    rewrite Ht in Hsum. rewrite Hi.
    cbn [map fold_left line_of price quantity].
    rewrite (js_add_num s (il_price l * il_quantity l)).
    + rewrite IH; [f_equal; lia | exact Hrest | lia].
    + unfold safe. lia.
    + unfold safe. lia.
    + unfold safe. lia.
    + apply js_mul_num; [exact Hp | exact Hq | unfold safe; lia].
Qed.

(** On integer prices and quantities within the safe range the total is
    the double of the integer sum. *)
Lemma totalAmount_exact (ls : list IntegerLine) :
  safe_lines ls -> totalAmount (map line_of ls) = num (integer_total ls).
Proof.
  intros [Hall Hsum]. unfold totalAmount.
  rewrite (totalAmount_exact_from ls 0%Z Hall).
  - reflexivity.
  - unfold safe in Hsum. pose proof (absolute_total_nonneg ls). lia.
Qed.

(** ** The order of the events of [executeTransaction] *)

Lemma query_trace c s w :
  trace (after (query c s) w)
  = trace w ++ [EvQuery c s (negb (db_faults w (tick w)))].
Proof.
  unfold after, query. destruct (db_faults w (tick w)); [reflexivity |].
  destruct s; destruct (sessions w c); reflexivity.
Qed.

Lemma pool_connect_trace w :
  trace (after pool_connect w)
  = trace w ++ [if db_faults w (tick w) then EvConnectFailed
                else EvConnect (acquired w)].
Proof.
  unfold after, pool_connect. destruct (db_faults w (tick w)); reflexivity.
Qed.

Lemma pool_connect_client w c w0 :
  pool_connect w = (Ok c, w0) ->
  c = acquired w /\ db_faults w (tick w) = false.
Proof.
  unfold pool_connect. destruct (db_faults w (tick w)); [discriminate |].
  intros H. inversion H. auto.
Qed.

(** The events [executeTransaction] adds fall in three stretches: those
    up to [BEGIN], those of the callback, and those from [COMMIT] or
    [ROLLBACK] on.  The first holds no [COMMIT] and neither the first nor
    the last holds a dispatch step. *)
Lemma executeTransaction_shape T (callback : nat -> M T) P w :
  (forall c, maintains (extends_with P) (callback c)) ->
  exists pre cb tail,
    trace (after (executeTransaction callback) w)
    = trace w ++ pre ++ cb ++ tail
    /\ Forall not_commit pre /\ Forall not_dispatch pre
    /\ Forall P cb
    /\ Forall not_dispatch tail.
Proof.
  intros Hcb. unfold after, executeTransaction. unfold bind at 1.
  pose proof (pool_connect_trace w) as Hc. unfold after in Hc.
  destruct (pool_connect w) as [[c | e0] w0] eqn:Epc; cbn [snd] in Hc.
  2:{ exists [if db_faults w (tick w) then EvConnectFailed
              else EvConnect (acquired w)], [], [].
      cbn [snd app]. rewrite Hc.
      destruct (db_faults w (tick w)); repeat split; repeat constructor. }
  destruct (pool_connect_client _ _ _ Epc) as [-> E0]. rewrite E0 in Hc.
  set (c := acquired w) in *.
  unfold try_finally, try_catch, release. unfold bind at 1.
  pose proof (query_trace c Begin w0) as Hb. unfold after in Hb.
  destruct (query c Begin w0) as [[rb | eb] w1]; cbn [snd] in Hb.
  - unfold bind at 1.
    destruct (Hcb c w1) as [cb [Hcbt Hcbp]]. unfold after in Hcbt.
    destruct (callback c w1) as [[a | e] w2]; cbn [snd] in Hcbt.
    + unfold bind at 1.
      pose proof (query_trace c Commit w2) as Hm. unfold after in Hm.
      destruct (query c Commit w2) as [[rm | em] w3]; cbn [snd] in Hm.
      * exists [EvConnect c; EvQuery c Begin (negb (db_faults w0 (tick w0)))],
               cb, [EvQuery c Commit (negb (db_faults w2 (tick w2)));
                    EvRelease c].
        unfold ret. cbn [snd trace set_session set_pool emit].
        rewrite Hm, Hcbt, Hb, Hc, <- !app_assoc.
        repeat split; try assumption; repeat constructor.
      * unfold bind, throw.
        pose proof (query_trace c Rollback w3) as Hr. unfold after in Hr.
        destruct (query c Rollback w3) as [[rr | er] w4]; cbn [snd] in Hr;
          (exists [EvConnect c; EvQuery c Begin (negb (db_faults w0 (tick w0)))],
                  cb, [EvQuery c Commit (negb (db_faults w2 (tick w2)));
                       EvQuery c Rollback (negb (db_faults w3 (tick w3)));
                       EvRelease c];
           cbn [snd trace set_session set_pool emit];
           rewrite Hr, Hm, Hcbt, Hb, Hc, <- !app_assoc;
           repeat split; try assumption; repeat constructor).
    + unfold bind, throw.
      pose proof (query_trace c Rollback w2) as Hr. unfold after in Hr.
      destruct (query c Rollback w2) as [[rr | er] w4]; cbn [snd] in Hr;
        (exists [EvConnect c; EvQuery c Begin (negb (db_faults w0 (tick w0)))],
                cb, [EvQuery c Rollback (negb (db_faults w2 (tick w2)));
                     EvRelease c];
         cbn [snd trace set_session set_pool emit];
         rewrite Hr, Hcbt, Hb, Hc, <- !app_assoc;
         repeat split; try assumption; repeat constructor).
  - unfold bind, throw.
    pose proof (query_trace c Rollback w1) as Hr. unfold after in Hr.
    destruct (query c Rollback w1) as [[rr | er] w4]; cbn [snd] in Hr;
      (exists [EvConnect c; EvQuery c Begin (negb (db_faults w0 (tick w0)))],
              [], [EvQuery c Rollback (negb (db_faults w1 (tick w1)));
                   EvRelease c];
       cbn [snd trace set_session set_pool emit];
       rewrite Hr, Hb, Hc, <- !app_assoc;
       repeat split; repeat constructor).
Qed.

Lemma no_dispatch_then_ordered (evs : list Event) :
  Forall not_dispatch evs -> dispatch_only_before_commit evs = true.
Proof.
  induction 1 as [| e rest He Hrest IH]; [reflexivity |].
  cbn [dispatch_only_before_commit]. rewrite IH.
  destruct (is_commit e); [| reflexivity].
  rewrite andb_true_r. apply negb_true_iff.
  clear IH He. induction Hrest as [| e' rest' He' _ IH']; [reflexivity |].
  cbn [existsb]. unfold not_dispatch in He'. now rewrite He', IH'.
Qed.

Lemma commit_free_prefix_ordered (pre tail : list Event) :
  Forall not_commit pre -> Forall not_dispatch tail ->
  dispatch_only_before_commit (pre ++ tail) = true.
Proof.
  intros Hpre Htail. induction Hpre as [| e rest He _ IH].
  - now apply no_dispatch_then_ordered.
  - cbn [app dispatch_only_before_commit]. unfold not_commit in He.
    now rewrite He, IH.
Qed.

(** ** A rejected item insert *)

Lemma insert_items_rejected c oid pre item post : forall w pending,
  sessions w c = Some pending ->
  driver_ok (List.length pre) w ->
  db_faults w (tick w + List.length pre) = true ->
  exists w',
    for_of (pre ++ item :: post)
           (fun item => query c (item_stmt oid item) ;; ret tt) w
    = (Err (QueryError (item_stmt oid item)), w')
    /\ tick w' = tick w + List.length pre + 1
    /\ db_faults w' = db_faults w.
Proof.
  induction pre as [| first rest IH]; intros w pending Hs Hok Hbad.
  - cbn [List.length] in Hbad. rewrite Nat.add_0_r in Hbad.
    cbn [app for_of]. unfold bind. rewrite (query_rejected _ _ _ Hbad).
    eexists. split; [reflexivity |]. cbn. split; [lia | reflexivity].
  - assert (E0 : db_faults w (tick w) = false)
      by (rewrite <- (Nat.add_0_r (tick w)); apply Hok; simpl; lia).
    pose proof (insert_item_accepted c oid first w pending Hs E0) as Hq.
    set (w1 := set_session c _ _) in Hq.
    assert (Hs1 : sessions w1 c
                  = Some (fun t => effect (item_stmt oid first)
                                     (Z.of_nat (tick w)) (order_seq w)
                                     (item_seq w) (pending t))).
    { unfold w1. cbn [sessions set_session]. now rewrite Nat.eqb_refl. }
    assert (F1 : tick w1 = S (tick w) /\ db_faults w1 = db_faults w)
      by (unfold w1, item_stmt; split; reflexivity).
    destruct F1 as [Fk Ff].
    assert (Hok1 : driver_ok (List.length rest) w1).
    { intros k Hk. rewrite Ff, Fk.
      replace (S (tick w) + k) with (tick w + S k) by lia.
      apply Hok. simpl. lia. }
    assert (Hbad1 : db_faults w1 (tick w1 + List.length rest) = true).
    { rewrite Ff, Fk. cbn [List.length] in Hbad.
      replace (S (tick w) + List.length rest)
        with (tick w + S (List.length rest)) by lia. exact Hbad. }
    destruct (IH w1 _ Hs1 Hok1 Hbad1) as (w' & Hrun & Hk' & Hf').
    exists w'. split; [| split].
    + cbn [app for_of]. unfold bind at 1 2. rewrite Hq. unfold ret at 1.
      exact Hrun.
    + rewrite Hk', Fk. cbn [List.length]. lia.
    + congruence.
Qed.

Lemma createOrder_callback_rejected input c w pending pre item post :
  items input = pre ++ item :: post ->
  sessions w c = Some pending ->
  driver_ok (1 + List.length pre) w ->
  db_faults w (tick w + 1 + List.length pre) = true ->
  exists w',
    createOrder_callback input c w
    = (Err (QueryError (item_stmt (order_seq w) item)), w')
    /\ tick w' = tick w + 2 + List.length pre
    /\ db_faults w' = db_faults w.
Proof.
  intros Hitems Hs Hok Hbad.
  assert (E0 : db_faults w (tick w) = false)
    by (rewrite <- (Nat.add_0_r (tick w)); apply Hok; lia).
  set (s := InsertOrder (userId input) "pending" (totalAmount (items input))).
  set (order := inserted_order input w).
  set (w1 := set_session c
               (Some (fun t => effect s (Z.of_nat (tick w)) (order_seq w)
                                      (item_seq w) (pending t)))
               (draw s (driver_call (EvQuery c s true) w))).
  assert (Hq : query c s w = (Ok (mkResult [RowOrder order] 1), w1)).
  { unfold query, s. rewrite E0, Hs. reflexivity. }
  set (w2 := emit (EvLog Info "Order created" [("orderId", LNum (ord_id order))]) w1).
  assert (Hs2 : sessions w2 c
                = Some (fun t => effect s (Z.of_nat (tick w)) (order_seq w)
                                        (item_seq w) (pending t))).
  { unfold w2, w1, s. cbn [sessions set_session emit]. now rewrite Nat.eqb_refl. }
  assert (F2 : tick w2 = S (tick w) /\ db_faults w2 = db_faults w)
    by (unfold w2, w1, s; split; reflexivity).
  destruct F2 as [Fk Ff].
  assert (Hok2 : driver_ok (List.length pre) w2).
  { intros k Hk. rewrite Ff, Fk.
    replace (S (tick w) + k) with (tick w + S k) by lia. apply Hok. lia. }
  assert (Hbad2 : db_faults w2 (tick w2 + List.length pre) = true).
  { rewrite Ff, Fk.
    replace (S (tick w) + List.length pre)
      with (tick w + 1 + List.length pre) by lia. exact Hbad. }
  destruct (insert_items_rejected c (ord_id order) pre item post w2 _
              Hs2 Hok2 Hbad2) as (w3 & Hloop & Hk3 & Hf3).
  exists w3. split; [| split].
  - unfold createOrder_callback. fold s. erewrite bind_ok by exact Hq.
    cbn [rows first_order]. unfold bind at 1, log at 1. fold w2.
    rewrite Hitems. unfold item_stmt in Hloop.
    erewrite bind_err by exact Hloop. reflexivity.
  - rewrite Hk3, Fk. lia.
  - congruence.
Qed.

(** ** The failure path of [executeTransaction] *)

Lemma executeTransaction_failure T (callback : nat -> M T) w c w1 e w2 :
  tx_started w = (Ok c, w1) ->
  callback c w1 = (Err e, w2) ->
  let rollback_ok := negb (db_faults w2 (tick w2)) in
  let w' := after (executeTransaction callback) w in
  trace w' = trace w2 ++ [EvQuery c Rollback rollback_ok; EvRelease c]
  /\ outcome (executeTransaction callback) w
     = Err (if rollback_ok then e else QueryError Rollback)
  /\ (tables w2 = tables w1 -> tables w' = tables w).
Proof.
  intros Hs Hc rollback_ok w'. unfold w', rollback_ok, outcome, after.
  rewrite (executeTransaction_failure_path _ _ _ _ _ _ _ Hs Hc).
  destruct (tx_started_inv _ _ _ Hs) as (_ & _ & _ & Hw1).
  assert (Ht1 : tables w1 = tables w) by (rewrite Hw1; reflexivity).
  destruct (db_faults w2 (tick w2)); cbn [negb fst snd after release];
    repeat split;
    try (cbn [trace set_session set_pool emit driver_call];
         rewrite <- ?app_assoc; reflexivity);
    try (cbn [tables set_session set_pool emit driver_call]; congruence).
Qed.

(** ** Which failures can leave a computation *)

Section Raises.
Variable P : Error -> Prop.

Lemma raises_only_ret A (a : A) : raises_only P (ret a).
Proof. intros w e H. discriminate H. Qed.

Lemma raises_only_throw A e : P e -> raises_only P (@throw A e).
Proof. intros HP w e' H. inversion H. now subst. Qed.

Lemma raises_only_bind A B (m : M A) (k : A -> M B) :
  raises_only P m -> (forall a, raises_only P (k a)) ->
  raises_only P (bind m k).
Proof.
  intros Hm Hk w e. specialize (Hm w). unfold outcome, bind in *.
  destruct (m w) as [[a | e0] w1]; cbn [fst] in *.
  - apply Hk.
  - intros H. inversion H. subst e. now apply Hm.
Qed.

Lemma raises_only_try_catch A (m : M A) (h : Error -> M A) :
  (forall e, raises_only P (h e)) -> raises_only P (try_catch m h).
Proof.
  intros Hh w e. unfold outcome, try_catch.
  destruct (m w) as [[a | e0] w1]; cbn [fst].
  - discriminate.
  - apply Hh.
Qed.

Lemma raises_only_try_finally A (m : M A) (fin : M unit) :
  raises_only P m -> raises_only P fin -> raises_only P (try_finally m fin).
Proof.
  intros Hm Hf w e. unfold raises_only, outcome, try_finally in *.
  specialize (Hm w). destruct (m w) as [r w1]. specialize (Hf w1).
  cbn [fst] in *.
  destruct (fin w1) as [[u | e1] w2]; cbn [fst] in *.
  - intros H. apply Hm. exact H.
  - intros H. inversion H. subst e. now apply Hf.
Qed.

Lemma raises_only_for_of A (xs : list A) (body : A -> M unit) :
  (forall x, raises_only P (body x)) -> raises_only P (for_of xs body).
Proof.
  intros Hb. induction xs as [| x rest IH]; cbn [for_of].
  - apply raises_only_ret.
  - apply raises_only_bind; auto.
Qed.

Lemma raises_only_log level message meta :
  raises_only P (log level message meta).
Proof. intros w e H. discriminate H. Qed.

Lemma raises_only_release c : raises_only P (release c).
Proof. intros w e H. discriminate H. Qed.

Lemma raises_only_query c s : P (QueryError s) -> raises_only P (query c s).
Proof.
  intros HP w e. unfold outcome, query.
  destruct (db_faults w (tick w)); cbn [fst].
  - intros H. inversion H. now subst.
  - destruct s; destruct (sessions w c); discriminate.
Qed.

Lemma raises_only_pool_connect :
  P ConnectionError -> raises_only P pool_connect.
Proof.
  intros HP w e. unfold outcome, pool_connect.
  destruct (db_faults w (tick w)); cbn [fst].
  - intros H. inversion H. now subst.
  - discriminate.
Qed.

Lemma raises_only_try_catch_from A (m : M A) (h : Error -> M A) :
  raises_only P m -> (forall e, P e -> raises_only P (h e)) ->
  raises_only P (try_catch m h).
Proof.
  intros Hm Hh w e. specialize (Hm w). unfold outcome, try_catch in *.
  destruct (m w) as [[a | e0] w1]; cbn [fst] in *.
  - discriminate.
  - apply Hh. now apply Hm.
Qed.

Lemma raises_only_executeTransaction T (callback : nat -> M T) :
  P ConnectionError -> (forall s, P (QueryError s)) ->
  (forall c, raises_only P (callback c)) ->
  raises_only P (executeTransaction callback).
Proof.
  intros Hc Hq Hcb. unfold executeTransaction.
  apply raises_only_bind; [now apply raises_only_pool_connect |].
  intros c. apply raises_only_try_finally; [| apply raises_only_release].
  apply raises_only_try_catch_from.
  - apply raises_only_bind; [apply raises_only_query, Hq |].
    intros _. apply raises_only_bind; [apply Hcb |].
    intros r. apply raises_only_bind; [apply raises_only_query, Hq |].
    intros _. apply raises_only_ret.
  - intros e He. apply raises_only_bind; [apply raises_only_query, Hq |].
    intros _. now apply raises_only_throw.
Qed.
End Raises.

(** No failure of the notification service leaves the unit of work of
    [createOrder]. *)
Lemma createOrder_callback_raises input c :
  raises_only not_notification_failure (createOrder_callback input c).
Proof.
  unfold createOrder_callback.
  apply raises_only_bind; [now apply raises_only_query |].
  intros r. destruct (first_order (rows r)) as [order |];
    [| now apply raises_only_throw].
  apply raises_only_bind; [apply raises_only_log |]. intros _.
  apply raises_only_bind.
  { apply raises_only_for_of. intros item.
    apply raises_only_bind; [now apply raises_only_query |].
    intros _. apply raises_only_ret. }
  intros _. apply raises_only_bind; [apply raises_only_log |]. intros _.
  apply raises_only_bind; [| intros _; apply raises_only_ret].
  apply raises_only_try_catch. intros e. apply raises_only_log.
Qed.

Lemma createOrder_raises input :
  raises_only not_notification_failure (createOrder input).
Proof.
  unfold createOrder.
  apply raises_only_bind; [apply raises_only_log |]. intros _.
  apply raises_only_executeTransaction; try reflexivity.
  intros c. apply createOrder_callback_raises.
Qed.

(* ================================================================== *)
(** * cancelOrder: which failures reach the caller *)

(** C6 (as amended).  A failure of either [DELETE] (or of acquiring its
    connection) leaves [cancelOrder] unchanged, with the world as the
    failed helper left it; once both deletes have returned, nothing that
    happens in the lookup of the order or in the notification reaches the
    caller: [cancelOrder] returns normally. *)
Theorem cancelOrder_swallows_only_after_deletes (orderId : Z) (w : World) :
  match executeQuery (DeleteOrderItems orderId) w with
  | (Err e, w1) => cancelOrder orderId w = (Err e, w1)
  | (Ok _, w1) =>
      match executeQuery (DeleteOrder orderId) w1 with
      | (Err e, w2) => cancelOrder orderId w = (Err e, w2)
      | (Ok _, w2) => outcome (cancelOrder orderId) w = Ok tt
      end
  end.
Proof.
  destruct (executeQuery (DeleteOrderItems orderId) w) as [[r1 | e1] w1] eqn:E1.
  - destruct (executeQuery (DeleteOrder orderId) w1) as [[r2 | e2] w2] eqn:E2.
    + unfold cancelOrder, outcome. erewrite bind_ok by exact E1.
      erewrite bind_ok by exact E2.
      apply try_catch_swallow. reflexivity.
    + unfold cancelOrder. erewrite bind_ok by exact E1.
      apply bind_err. exact E2.
  - unfold cancelOrder. apply bind_err. exact E1.
Qed.

(** C6 (as stated) fails: a rejected [DELETE] reaches the caller of
    [cancelOrder].  With the first delete rejected nothing is removed;
    with the second one rejected the items are gone and the order stays. *)
Lemma cancelOrder_delete_failure_escapes :
  outcome (cancelOrder 1) (world_of sample_db 2 3 [1])
    = Err (QueryError (DeleteOrderItems 1))
  /\ outcome (cancelOrder 1) (world_of sample_db 2 3 [3])
    = Err (QueryError (DeleteOrder 1))
  /\ tables (after (cancelOrder 1) (world_of sample_db 2 3 [3]))
    = mkDb (orders sample_db) []
  /\ ~ cancelOrder_never_fails.
Proof.
  repeat split; try (vm_compute; reflexivity).
  intros H. destruct (H 1%Z (world_of sample_db 2 3 [1])) as [u Hu].
  vm_compute in Hu. discriminate.
Qed.

(* ================================================================== *)
(** * Notification policies *)

(** C8.  [sendPasswordReset] raises to its caller the very failure the
    delivery raised; [sendWelcomeEmail] returns normally whatever the
    directory lookup and the delivery do. *)
Theorem password_reset_propagates_welcome_swallows :
  (forall address token w,
      deliver_fails w (reset_email address token) = true ->
      outcome (sendPasswordReset address token) w
      = Err (DeliveryError (reset_email address token)))
  /\ (forall userId w, outcome (sendWelcomeEmail userId) w = Ok tt).
Proof.
  split.
  - intros address token w H.
    unfold sendPasswordReset, outcome, bind, try_catch, log, throw.
    fold (reset_email address token). rewrite sendEmail_run.
    change (deliver_fails (emit _ w)) with (deliver_fails w).
    rewrite H. reflexivity.
  - intros userId w. unfold sendWelcomeEmail.
    apply try_catch_swallow. reflexivity.
Qed.

Lemma password_reset_propagates_welcome_swallows_witness :
  outcome (sendPasswordReset "a@example.com" "t0k3n")
          (notifications_down empty_db 1 1 [])
  = Err (DeliveryError (reset_email "a@example.com" "t0k3n"))
  /\ outcome (sendWelcomeEmail 7) (notifications_down empty_db 1 1 []) = Ok tt.
Proof.
  split.
  - apply (proj1 password_reset_propagates_welcome_swallows). reflexivity.
  - apply (proj2 password_reset_propagates_welcome_swallows).
Defined.

(** C9.  [sendBulkNotifications] returns normally for every list of
    recipients.  What each recipient settles to is [settle] of that
    recipient alone, so no recipient's failure reaches another one's
    outcome.  The last line logged reports the number of fulfilled and of
    rejected recipients, which add up to the number of recipients.  With
    the directory down for two recipients out of five the report reads
    successful = 3, failed = 2. *)
Theorem sendBulkNotifications_reports_counts :
  (forall userIds subject body w,
      let results := map (settle w subject body) userIds in
      outcome (sendBulkNotifications userIds subject body) w = Ok tt
      /\ outcome (allSettled (map (notify_one subject body) userIds)) w
         = Ok results
      /\ (exists evs,
             trace (after (sendBulkNotifications userIds subject body) w)
             = trace w ++ evs ++ [bulk_report results])
      /\ List.length (filter is_fulfilled results)
         + List.length (filter is_rejected results)
         = List.length userIds)
  /\ (let w := directory_down_for [2; 4]%Z in
      let w' := after (sendBulkNotifications [1; 2; 3; 4; 5]%Z "Sale" "Now on") w in
      outcome (sendBulkNotifications [1; 2; 3; 4; 5]%Z "Sale" "Now on") w = Ok tt
      /\ last (trace w') EvConnectFailed
         = EvLog Info "Bulk notifications completed"
             [("successful", LNum 3); ("failed", LNum 2)]).
Proof.
  split.
  - intros userIds subject body w results.
    assert (Hrun : sendBulkNotifications userIds subject body w
      = (Ok tt,
         add_events
           (EvLog Info "Sending bulk notifications"
              [("count", LNum (Z.of_nat (List.length userIds)))]
            :: flat_map (bulk_events_one w subject body) userIds
            ++ [bulk_report results]) w)).
    { unfold sendBulkNotifications, bind, log. rewrite allSettled_bulk.
      change (settle (emit _ w)) with (settle w).
      change (bulk_events_one (emit _ w)) with (bulk_events_one w).
      rewrite !emit_add_events, !add_events_app. reflexivity. }
    repeat split.
    + unfold outcome. now rewrite Hrun.
    + unfold outcome. now rewrite allSettled_bulk.
    + unfold after. rewrite Hrun. cbn [snd add_events trace].
      eexists (_ :: _). reflexivity.
    + unfold results. rewrite settled_partition. apply length_map.
  - split; vm_compute; reflexivity.
Qed.

(* ================================================================== *)
(** * Status updates and cancellation *)

Lemma updateOrderStatus_absent orderId status w :
  driver_ok 2 w ->
  (forall o, In o (orders (tables w)) -> ord_id o <> orderId) ->
  exists w', updateOrderStatus orderId status w = (Ok None, w').
Proof.
  intros H Hno. unfold updateOrderStatus, bind, log.
  set (w0 := emit _ w).
  destruct (executeQuery_accepted (UpdateOrderStatus status orderId) w0 H eq_refl)
    as (w1 & Hrun & _).
  rewrite Hrun. subst w0. cbn [rows answer tables emit].
  rewrite (no_row_with_id _ _ Hno). cbn [map first_order].
  unfold ret. eauto.
Qed.

(** C10.  For an order id that no row of [orders] carries,
    [updateOrderStatus], [markOrderPaid] and [fulfillOrder] do not raise:
    each returns the first row of an empty result, the absent value. *)
Theorem status_updates_return_absent_for_unknown_order
    (orderId : Z) (status : string) (w : World) :
  driver_ok 2 w ->
  (forall o, In o (orders (tables w)) -> ord_id o <> orderId) ->
  outcome (updateOrderStatus orderId status) w = Ok None
  /\ outcome (markOrderPaid orderId) w = Ok None
  /\ outcome (fulfillOrder orderId) w = Ok None.
Proof.
  intros H Hno. repeat split.
  - destruct (updateOrderStatus_absent orderId status w H Hno) as [w' E].
    unfold outcome. now rewrite E.
  - unfold outcome, markOrderPaid, bind.
    destruct (executeQuery_accepted (UpdateOrderPaid "paid" orderId) w H eq_refl)
      as (w1 & Hrun & _).
    rewrite Hrun. cbn [rows answer].
    rewrite (no_row_with_id _ _ Hno). reflexivity.
  - unfold outcome, fulfillOrder, bind, log.
    set (w0 := emit _ w).
    destruct (updateOrderStatus_absent orderId "fulfilled" w0 H Hno) as [w' E].
    rewrite E. reflexivity.
Qed.

Lemma status_updates_return_absent_for_unknown_order_witness :
  outcome (updateOrderStatus 9 "paid") (world_of sample_db 2 3 []) = Ok None
  /\ outcome (markOrderPaid 9) (world_of sample_db 2 3 []) = Ok None
  /\ outcome (fulfillOrder 9) (world_of sample_db 2 3 []) = Ok None.
Proof.
  apply (status_updates_return_absent_for_unknown_order
           9 "paid" (world_of sample_db 2 3 [])).
  - intros k Hk. reflexivity.
  - intros o [<- | []]. discriminate.
Defined.

(** C5.  When its statements are accepted, [cancelOrder] removes the
    items of the order and the order, and then looks the order up: the
    lookup comes after the delete and finds nothing, so no cancellation is
    dispatched at all, to the order's user or to anybody. *)
Theorem cancelOrder_deletes_then_never_dispatches (orderId : Z) (w : World) :
  driver_ok 6 w ->
  let w' := after (cancelOrder orderId) w in
  outcome (cancelOrder orderId) w = Ok tt
  /\ tables w'
     = mkDb (filter (fun o => negb (has_id orderId o)) (orders (tables w)))
            (filter (fun i => negb (of_order orderId i)) (order_items (tables w)))
  /\ existsb is_dispatch (new_events w w') = false.
Proof.
  intros H.
  assert (H0 : driver_ok 2 w) by (intros k Hk; apply H; lia).
  destruct (executeQuery_accepted (DeleteOrderItems orderId) w H0 eq_refl)
    as (w1 & R1 & T1 & K1 & F1 & _ & _ & E1).
  assert (H1 : driver_ok 2 w1).
  { intros k Hk. rewrite F1, K1, <- Nat.add_assoc. apply H. lia. }
  destruct (executeQuery_accepted (DeleteOrder orderId) w1 H1 eq_refl)
    as (w2 & R2 & T2 & K2 & F2 & _ & _ & E2).
  set (e3 := EvLog Info "Fetching order" [("orderId", LNum orderId)]).
  assert (H2 : driver_ok 2 (emit e3 w2)).
  { intros k Hk. cbn [db_faults tick emit].
    rewrite F2, K2, F1, K1, <- !Nat.add_assoc. apply H. lia. }
  destruct (executeQuery_accepted (SelectOrderById orderId) _ H2 eq_refl)
    as (w3 & R3 & T3 & _ & _ & _ & _ & E3).
  assert (Hrun : cancelOrder orderId w = (Ok tt, w3)).
  { unfold cancelOrder. erewrite bind_ok by exact R1.
    erewrite bind_ok by exact R2.
    unfold try_catch, getOrderById. unfold bind at 1 2, log at 1. fold e3.
    erewrite bind_ok by exact R3. unfold ret at 1.
    cbn [rows answer tables emit].
    rewrite T2, T1. cbn [effect orders].
    rewrite deleted_order_is_gone. reflexivity. }
  unfold outcome, after. rewrite Hrun. cbn [fst snd]. repeat split.
  - rewrite T3. cbn [effect tables emit]. rewrite T2, T1. reflexivity.
  - rewrite (new_events_app w w3
               ([EvConnect (acquired w);
                 EvQuery (acquired w) (DeleteOrderItems orderId) true;
                 EvRelease (acquired w)]
                ++ [EvConnect (acquired w1);
                    EvQuery (acquired w1) (DeleteOrder orderId) true;
                    EvRelease (acquired w1)]
                ++ e3 :: [EvConnect (acquired w2);
                          EvQuery (acquired w2) (SelectOrderById orderId) true;
                          EvRelease (acquired w2)])).
    + reflexivity.
    + rewrite E3. cbn [trace emit acquired]. rewrite E2, E1.
      rewrite <- !app_assoc. reflexivity.
Qed.

Lemma cancelOrder_deletes_then_never_dispatches_witness :
  let w := world_of sample_db 2 3 [] in
  let w' := after (cancelOrder 1) w in
  In 1%Z (map ord_id (orders (tables w)))
  /\ outcome (cancelOrder 1) w = Ok tt
  /\ tables w' = mkDb [] []
  /\ existsb is_dispatch (new_events w w') = false.
Proof.
  split; [now left |].
  apply (cancelOrder_deletes_then_never_dispatches 1 (world_of sample_db 2 3 [])).
  intros k Hk. reflexivity.
Defined.

(* ================================================================== *)
(** * createOrder *)

Lemma item_events_no_rollback c oid (its : list OrderLine) :
  existsb is_rollback
    (map (fun item => EvQuery c (item_stmt oid item) true) its) = false.
Proof. induction its as [| item rest IH]; [reflexivity | exact IH]. Qed.

Lemma confirmation_events_no_rollback w o u :
  existsb is_rollback (confirmation_events w o u) = false.
Proof.
  unfold confirmation_events, email_events.
  destruct (lookup_fails w u), (confirmation_fails w o u),
    (deliver_fails w (confirmation_email o u)); reflexivity.
Qed.

Lemma createOrder_events_no_rollback input w :
  existsb is_rollback (createOrder_events input w) = false.
Proof.
  unfold createOrder_events. rewrite !existsb_app.
  rewrite item_events_no_rollback, confirmation_events_no_rollback.
  reflexivity.
Qed.

Lemma createOrder_events_commit input w :
  In (EvQuery (acquired w) Commit true) (createOrder_events input w).
Proof.
  unfold createOrder_events. do 4 (apply in_or_app; right). now left.
Qed.

Lemma item_rows_length oid (its : list OrderLine) : forall iseq,
  List.length (item_rows oid iseq its) = List.length its.
Proof.
  induction its as [| item rest IH]; intros iseq;
    [reflexivity | cbn; now rewrite IH].
Qed.

(** C7.  When its statements are accepted, [createOrder] returns the
    order it inserted: status pending, for the given user, with as total
    the sum over the items of unit price times quantity.  Prices and
    quantities are numbers and the sum is the one of numbers, the line
    amounts added from 0 on in the order of the list; when prices and
    quantities are integers and the amounts stay within the safe range,
    it is the exact integer sum.  The [orders] table gains exactly that
    row and the [order_items] table gains, after it and in input order,
    one row per input item, carrying the order's id and the item's
    product, quantity and price.  For the items (price 10, quantity 2)
    and (price 5, quantity 3) the total is 35. *)
Theorem createOrder_inserts_order_and_items :
  (forall input w,
      items input <> [] ->
      driver_ok (4 + List.length (items input)) w ->
      exists order w',
        createOrder input w = (Ok order, w')
        /\ ord_status order = "pending"
        /\ ord_user_id order = userId input
        /\ ord_total_amount order = sum_of_lines (items input)
        /\ (forall lines,
              items input = map line_of lines -> safe_lines lines ->
              ord_total_amount order = num (integer_total lines))
        /\ orders (tables w') = orders (tables w) ++ [order]
        /\ order_items (tables w')
           = order_items (tables w)
             ++ item_rows (ord_id order) (item_seq w) (items input)
        /\ List.length (item_rows (ord_id order) (item_seq w) (items input))
           = List.length (items input)
        /\ trace w' = trace w ++ createOrder_events input w)
  /\ (exists order,
        outcome (createOrder
                   (mkInput 7 [mkLine 100 (num 2) (num 10);
                               mkLine 101 (num 3) (num 5)]))
                (world_of empty_db 1 1 []) = Ok order
        /\ ord_total_amount order = num 35).
Proof.
  split.
  - intros input w _ Hok.
    destruct (createOrder_committed input w Hok)
      as (w' & Hrun & Ht & He & _).
    exists (new_order input w), w'. rewrite Ht.
    repeat split; try reflexivity; try assumption.
    + apply totalAmount_is_sum.
    + intros lines Hlines Hsafe. cbn [ord_total_amount new_order].
      rewrite Hlines. apply totalAmount_exact, Hsafe.
    + apply item_rows_length.
  - eexists. split; vm_compute; reflexivity.
Qed.

Lemma createOrder_inserts_order_and_items_witness :
  exists order w',
    createOrder sample_input (world_of empty_db 1 1 []) = (Ok order, w')
    /\ ord_status order = "pending"
    /\ ord_user_id order = 7%Z
    /\ ord_total_amount order = num 35
    /\ orders (tables w') = [order]
    /\ order_items (tables w')
       = [mkOrderItem 1 (ord_id order) 100 (num 2) (num 10);
          mkOrderItem 2 (ord_id order) 101 (num 3) (num 5)].
Proof.
  destruct (proj1 createOrder_inserts_order_and_items sample_input
              (world_of empty_db 1 1 []))
    as (order & w' & Hrun & Hs & Hu & Ha & Hx & Ho & Hi & _).
  - discriminate.
  - intros k Hk. reflexivity.
  - exists order, w'.
    split; [exact Hrun |]. split; [exact Hs |]. split; [exact Hu |].
    split; [| split; [exact Ho | exact Hi]].
    apply (Hx [mkIntegerLine 100 2 10; mkIntegerLine 101 3 5]).
    + reflexivity.
    + split; [repeat constructor; vm_compute; reflexivity
             | vm_compute; reflexivity].
Defined.

(** C3.  When the order and item inserts (and the other statements of
    the transaction) are accepted and the dispatch of the confirmation
    fails, [createOrder] catches and logs the failure, sends [COMMIT] and
    no [ROLLBACK], and returns the order it created, which persists.
    And in no circumstances does a failure of the notification service
    leave [createOrder]: whatever it raises comes from the driver. *)
Theorem createOrder_survives_notification_failure :
  (forall input w,
      driver_ok (4 + List.length (items input)) w ->
      confirmation_fails w (order_seq w) (userId input) = true ->
      let order := new_order input w in
      let w' := after (createOrder input) w in
      outcome (createOrder input) w = Ok order
      /\ In order (orders (tables w'))
      /\ order_items (tables w')
         = order_items (tables w)
           ++ item_rows (ord_id order) (item_seq w) (items input)
      /\ existsb is_rollback (new_events w w') = false
      /\ In (EvQuery (acquired w) Commit true) (new_events w w')
      /\ In (EvLog LError "Failed to send order confirmation"
               [("orderId", LNum (ord_id order));
                ("error", LErr (ErrorMsg "Failed to send order confirmation"))])
            (new_events w w'))
  /\ (forall input w e,
      outcome (createOrder input) w = Err e ->
      is_notification_failure e = false).
Proof.
  split; [| intros input w e; apply createOrder_raises].
  intros input w Hok Hfail order w'.
  destruct (createOrder_committed input w Hok)
    as (w1 & Hrun & Ht & He & _).
  unfold w', outcome, after. rewrite Hrun. cbn [fst snd].
  rewrite (new_events_app _ _ _ He), Ht. cbn [orders order_items].
  repeat split.
  - apply in_or_app. right. now left.
  - apply createOrder_events_no_rollback.
  - apply createOrder_events_commit.
  - unfold createOrder_events. do 3 (apply in_or_app; right).
    apply in_or_app. left. unfold confirmation_events.
    cbn [ord_id new_order]. rewrite Hfail.
    apply in_or_app. right. now left.
Qed.

Lemma createOrder_survives_notification_failure_witness :
  let w := notifications_down empty_db 1 1 [] in
  let w' := after (createOrder sample_input) w in
  outcome (createOrder sample_input) w = Ok (new_order sample_input w)
  /\ In (new_order sample_input w) (orders (tables w'))
  /\ existsb is_rollback (new_events w w') = false.
Proof.
  destruct (proj1 createOrder_survives_notification_failure sample_input
              (notifications_down empty_db 1 1 []))
    as (H1 & H2 & _ & H4 & _).
  - intros k Hk. reflexivity.
  - reflexivity.
  - repeat split; assumption.
Defined.

(* ================================================================== *)
(** * The transaction coordinator *)

(** C2.  Whatever the callback and whatever the driver rejects,
    [executeTransaction] gives back the connection it acquired: the
    number of connections in use is what it was before the call, and when
    a connection was acquired the last thing that happens is its release.
    This covers the exit after [COMMIT], the exit after [ROLLBACK] and a
    re-raise, and the exits where [COMMIT] or [ROLLBACK] is itself
    rejected. *)
Theorem executeTransaction_always_releases
    (T : Type) (callback : nat -> M T) (w : World) :
  (forall c, maintains pool_kept (callback c)) ->
  let w' := after (executeTransaction callback) w in
  in_use w' = in_use w
  /\ (db_faults w (tick w) = false ->
      exists evs, trace w' = evs ++ [EvRelease (acquired w)]).
Proof.
  intros Hcb w'. split.
  - apply (executeTransaction_pool_kept T callback Hcb w).
  - apply executeTransaction_release_last.
Qed.

Lemma executeTransaction_always_releases_witness :
  let w := world_of empty_db 1 1 [5; 6] in
  let w' := after (executeTransaction (createOrder_callback sample_input)) w in
  outcome (executeTransaction (createOrder_callback sample_input)) w
  = Err (QueryError Rollback)
  /\ in_use w' = in_use w
  /\ exists evs, trace w' = evs ++ [EvRelease 0].
Proof.
  split; [vm_compute; reflexivity |].
  destruct (executeTransaction_always_releases Order
              (createOrder_callback sample_input)
              (world_of empty_db 1 1 [5; 6])) as [H1 H2].
  - intros c. apply createOrder_callback_pool_kept.
  - split; [exact H1 | apply H2; reflexivity].
Defined.

(** C1 (as amended).  When the unit of work handed to
    [executeTransaction] raises [e], a [ROLLBACK] is sent on the
    connection, the connection is released, and nothing the unit of work
    wrote through the transaction is committed.  The failure raised to
    the caller is [e] when the [ROLLBACK] is accepted, and the failure of
    the [ROLLBACK] when it is not.  In [createOrder], when the insert of
    an item is rejected after the order row (and the items before it)
    were inserted, the tables are left as they were: no order row and no
    item row persists. *)
Theorem executeTransaction_rolls_back_on_failure :
  (forall (T : Type) (callback : nat -> M T) w c w1 e w2,
      tx_started w = (Ok c, w1) ->
      callback c w1 = (Err e, w2) ->
      let rollback_ok := negb (db_faults w2 (tick w2)) in
      let w' := after (executeTransaction callback) w in
      trace w' = trace w2 ++ [EvQuery c Rollback rollback_ok; EvRelease c]
      /\ outcome (executeTransaction callback) w
         = Err (if rollback_ok then e else QueryError Rollback)
      /\ (tables w2 = tables w1 -> tables w' = tables w))
  /\ (forall input w pre item post,
      items input = pre ++ item :: post ->
      driver_ok (3 + List.length pre) w ->
      db_faults w (tick w + 3 + List.length pre) = true ->
      let rollback_ok := negb (db_faults w (tick w + 4 + List.length pre)) in
      let w' := after (createOrder input) w in
      outcome (createOrder input) w
      = Err (if rollback_ok
             then QueryError (item_stmt (order_seq w) item)
             else QueryError Rollback)
      /\ tables w' = tables w
      /\ In (EvQuery (acquired w) Rollback rollback_ok) (new_events w w')).
Proof.
  split; [exact executeTransaction_failure |].
  intros input w pre item post Hitems Hok Hbad rollback_ok w'.
  set (e0 := EvLog Info "Creating new order"
               [("userId", LNum (userId input));
                ("itemCount", LNum (Z.of_nat (List.length (items input))))]).
  set (w0 := emit e0 w).
  set (c := acquired w).
  assert (Hok0 : driver_ok 2 w0) by (intros k Hk; apply Hok; lia).
  destruct (tx_started_accepted w0 Hok0) as [w1 Hst].
  change (acquired w0) with c in Hst.
  destruct (tx_started_inv _ _ _ Hst) as (_ & _ & _ & Hw1).
  change (acquired w0) with c in Hw1.
  assert (F1 : sessions w1 c = Some (fun d => d)
               /\ tables w1 = tables w /\ order_seq w1 = order_seq w
               /\ tick w1 = S (S (tick w)) /\ db_faults w1 = db_faults w
               /\ trace w1 = trace w ++ [e0; EvConnect c; EvQuery c Begin true]).
  { rewrite Hw1. unfold w0. repeat split; try reflexivity.
    - cbn [sessions set_session]. now rewrite Nat.eqb_refl.
    - cbn. rewrite <- !app_assoc. reflexivity. }
  destruct F1 as (Fs & Ft & Fo & Fk & Ff & Fe).
  assert (Hok1 : driver_ok (1 + List.length pre) w1).
  { intros k Hk. rewrite Ff, Fk.
    replace (S (S (tick w)) + k) with (tick w + (2 + k)) by lia.
    apply Hok. lia. }
  assert (Hbad1 : db_faults w1 (tick w1 + 1 + List.length pre) = true).
  { rewrite Ff, Fk.
    replace (S (S (tick w)) + 1 + List.length pre)
      with (tick w + 3 + List.length pre) by lia. exact Hbad. }
  destruct (createOrder_callback_rejected input c w1 _ pre item post
              Hitems Fs Hok1 Hbad1) as (w2 & Hcb & Gk & Gf).
  destruct (executeTransaction_failure _ _ _ _ _ _ _ Hst Hcb)
    as (Htr & Hout & Htab).
  assert (Etick : db_faults w2 (tick w2)
                  = db_faults w (tick w + 4 + List.length pre)).
  { rewrite Gf, Gk, Ff, Fk. f_equal. lia. }
  rewrite Etick in Htr, Hout. fold rollback_ok in Htr, Hout.
  assert (Hrun : createOrder input w = executeTransaction (createOrder_callback input) w0)
    by reflexivity.
  unfold w', outcome, after in *. rewrite Hrun. rewrite Fo in Hout.
  split; [exact Hout |]. split.
  - rewrite Htab; [reflexivity |].
    pose proof (createOrder_callback_tx_kept input c w1) as Hkept.
    unfold after in Hkept. rewrite Hcb in Hkept. cbn [snd] in Hkept.
    apply Hkept. rewrite Fs. discriminate.
  - pose proof (createOrder_callback_no_commit input c w1) as [evs [He _]].
    unfold after in He. rewrite Hcb in He. cbn [snd] in He.
    rewrite (new_events_app w _
               ([e0; EvConnect c; EvQuery c Begin true] ++ evs
                ++ [EvQuery c Rollback rollback_ok; EvRelease c])).
    + apply in_or_app. right. apply in_or_app. right. now left.
    + rewrite Htr, He, Fe. rewrite <- !app_assoc. reflexivity.
Qed.

Lemma executeTransaction_rolls_back_on_failure_witness :
  let w := world_of sample_db 2 3 [4] in
  let w' := after (createOrder sample_input) w in
  outcome (createOrder sample_input) w
  = Err (QueryError (InsertOrderItem 2 101 (num 3) (num 5)))
  /\ tables w' = sample_db
  /\ In (EvQuery 0 Rollback true) (new_events w w').
Proof.
  apply (proj2 executeTransaction_rolls_back_on_failure sample_input
           (world_of sample_db 2 3 [4]) [mkLine 100 (num 2) (num 10)] (mkLine 101 (num 3) (num 5)) []).
  - reflexivity.
  - intros k Hk.
    destruct k as [| [| [| [| k]]]]; try reflexivity. simpl in Hk. lia.
  - reflexivity.
Defined.

(** C1 (as stated) fails: when the [ROLLBACK] is rejected too, the
    failure that reaches the caller is that of the [ROLLBACK]; the
    failure the unit of work raised is lost. *)
Lemma rollback_failure_masks_original :
  let w := world_of empty_db 1 1 [3; 4] in
  outcome (createOrder_callback sample_input 0) (after tx_started w)
  = Err (QueryError (InsertOrderItem 1 100 (num 2) (num 10)))
  /\ outcome (executeTransaction (createOrder_callback sample_input)) w
     = Err (QueryError Rollback)
  /\ ~ original_failure_reraised.
Proof.
  split; [vm_compute; reflexivity |].
  split; [vm_compute; reflexivity |].
  intros H.
  set (w := world_of empty_db 1 1 [3; 4]).
  assert (E1 : outcome tx_started w = Ok 0) by (vm_compute; reflexivity).
  assert (E2 : outcome (createOrder_callback sample_input 0) (after tx_started w)
               = Err (QueryError (InsertOrderItem 1 100 (num 2) (num 10))))
    by (vm_compute; reflexivity).
  assert (E3 : outcome (executeTransaction (createOrder_callback sample_input)) w
               = Err (QueryError Rollback)) by (vm_compute; reflexivity).
  unfold outcome, after in *.
  destruct (tx_started w) as [r w1] eqn:Hs. cbn [fst snd] in *. subst r.
  destruct (createOrder_callback sample_input 0 w1) as [r2 w2] eqn:Hc.
  cbn [fst] in E2. subst r2.
  specialize (H Order (createOrder_callback sample_input) w 0 w1 _ w2 Hs Hc).
  unfold outcome in H. rewrite E3 in H. discriminate.
Qed.

(* ================================================================== *)
(** * When the confirmation is dispatched *)

Lemma item_events_not_commit c oid (its : list OrderLine) :
  Forall not_commit (map (fun item => EvQuery c (item_stmt oid item) true) its).
Proof.
  induction its as [| item rest IH]; constructor; [reflexivity | exact IH].
Qed.

Lemma confirmation_events_head w o u :
  exists rest,
    confirmation_events w o u = EvLookup u (negb (lookup_fails w u)) :: rest.
Proof.
  unfold confirmation_events.
  destruct (lookup_fails w u); eexists; reflexivity.
Qed.

Lemma accepted_statements_app c (a b : list Event) :
  accepted_statements c (a ++ b)
  = accepted_statements c a ++ accepted_statements c b.
Proof.
  induction a as [| e rest IH]; [reflexivity |].
  destruct e as [| | c' s [|] | | | |]; cbn [app accepted_statements];
    try exact IH.
  destruct (Nat.eqb c' c); [cbn [app]; now rewrite IH | exact IH].
Qed.

Lemma accepted_item_statements c oid (its : list OrderLine) :
  accepted_statements c
    (map (fun item => EvQuery c (item_stmt oid item) true) its)
  = map (item_stmt oid) its.
Proof.
  induction its as [| item rest IH]; [reflexivity |].
  cbn [map accepted_statements]. rewrite Nat.eqb_refl. now rewrite IH.
Qed.

Lemma item_events_not_dispatch c oid (its : list OrderLine) :
  Forall not_dispatch
    (map (fun item => EvQuery c (item_stmt oid item) true) its).
Proof.
  induction its as [| item rest IH]; constructor; [reflexivity | exact IH].
Qed.

(** C4 (as amended).  [createOrder] dispatches the confirmation inside
    the unit of work it hands to [executeTransaction]: no dispatch step
    ever comes after a [COMMIT] was sent, and when the statements are
    accepted the dispatch starts, with the directory lookup, after the
    order and item inserts and before [COMMIT] is sent: up to the
    lookup, which is the first step of the dispatch, the statements the
    connection has accepted are [BEGIN], the insert of the order and the
    inserts of all the items, in input order, and [COMMIT] comes later. *)
Theorem createOrder_dispatches_inside_transaction :
  (forall input w,
      dispatch_only_before_commit
        (new_events w (after (createOrder input) w)) = true)
  /\ (forall input w,
      driver_ok (4 + List.length (items input)) w ->
      exists pre post ok,
        new_events w (after (createOrder input) w)
        = pre ++ EvLookup (userId input) ok :: post
        /\ Forall not_commit pre
        /\ Forall not_dispatch pre
        /\ accepted_statements (acquired w) pre
           = Begin
             :: InsertOrder (userId input) "pending"
                            (totalAmount (items input))
             :: map (item_stmt (order_seq w)) (items input)
        /\ In (EvQuery (acquired w)
                 (InsertOrder (userId input) "pending"
                              (totalAmount (items input))) true) pre
        /\ In (EvQuery (acquired w) Commit true) post).
Proof.
  split.
  - intros input w.
    set (e0 := EvLog Info "Creating new order"
                 [("userId", LNum (userId input));
                  ("itemCount", LNum (Z.of_nat (List.length (items input))))]).
    destruct (executeTransaction_shape Order (createOrder_callback input)
                not_commit (emit e0 w)
                (fun c => createOrder_callback_no_commit input c))
      as (pre & cb & tail & Htr & Hpc & Hpd & Hcb & Htd).
    assert (Hrun : after (createOrder input) w
                   = after (executeTransaction (createOrder_callback input))
                           (emit e0 w)) by reflexivity.
    rewrite Hrun.
    rewrite (new_events_app w _ ((e0 :: pre ++ cb) ++ tail)).
    + apply commit_free_prefix_ordered; [| exact Htd].
      constructor; [reflexivity |]. apply Forall_app. now split.
    + rewrite Htr. cbn [trace emit app]. rewrite <- !app_assoc.
      reflexivity.
  - intros input w Hok.
    destruct (createOrder_committed input w Hok) as (w' & Hrun & _ & He & _).
    unfold after. rewrite Hrun. cbn [snd].
    rewrite (new_events_app _ _ _ He).
    destruct (confirmation_events_head w (order_seq w) (userId input))
      as [rest Hconf].
    unfold createOrder_events. cbn [ord_id new_order]. rewrite Hconf.
    set (c := acquired w).
    set (head := [_; _; _; _; _]).
    set (its := map _ (items input)).
    set (e4 := EvLog Info "Order items added" _).
    exists (head ++ its ++ [e4]), (rest ++ [EvQuery c Commit true; EvRelease c]),
           (negb (lookup_fails w (userId input))).
    split; [| split; [| split; [| split; [| split]]]].
    + rewrite <- !app_assoc. reflexivity.
    + apply Forall_app. split; [repeat constructor |].
      apply Forall_app. split;
        [apply item_events_not_commit | repeat constructor].
    + apply Forall_app. split; [repeat constructor |].
      apply Forall_app. split;
        [apply item_events_not_dispatch | repeat constructor].
    + rewrite !accepted_statements_app. unfold its.
      rewrite accepted_item_statements.
      unfold head, e4. cbn [accepted_statements].
      rewrite Nat.eqb_refl. cbn [app]. now rewrite app_nil_r.
    + apply in_or_app. left. unfold head. cbn. auto.
    + apply in_or_app. right. now left.
Qed.

Lemma createOrder_dispatches_inside_transaction_witness :
  let w := world_of empty_db 1 1 [] in
  exists pre post ok,
    new_events w (after (createOrder sample_input) w)
    = pre ++ EvLookup 7 ok :: post
    /\ Forall not_commit pre
    /\ Forall not_dispatch pre
    /\ accepted_statements 0 pre
       = [Begin; InsertOrder 7 "pending" (num 35);
          InsertOrderItem 1 100 (num 2) (num 10);
          InsertOrderItem 1 101 (num 3) (num 5)]
    /\ In (EvQuery 0 (InsertOrder 7 "pending" (num 35)) true) pre
    /\ In (EvQuery 0 Commit true) post.
Proof.
  apply (proj2 createOrder_dispatches_inside_transaction sample_input
           (world_of empty_db 1 1 [])).
  intros k Hk. reflexivity.
Defined.

(** C4 (as stated) fails: in a run where everything is accepted the
    directory lookup and the delivery of the confirmation come before
    [COMMIT] is sent; and when [COMMIT] is then rejected, the
    confirmation has been delivered for an order that does not persist. *)
Lemma confirmation_dispatched_before_commit :
  let w := world_of empty_db 1 1 [] in
  let evs := new_events w (after (createOrder sample_input) w) in
  dispatch_only_after_commit false evs = false
  /\ nth_error evs 8 = Some (EvLookup 7 true)
  /\ nth_error evs 10 = Some (EvDeliver (confirmation_email 1 7) true)
  /\ nth_error evs 12 = Some (EvQuery 0 Commit true)
  /\ (let wc := world_of empty_db 1 1 [5] in
      let evc := new_events wc (after (createOrder sample_input) wc) in
      nth_error evc 10 = Some (EvDeliver (confirmation_email 1 7) true)
      /\ nth_error evc 12 = Some (EvQuery 0 Commit false)
      /\ outcome (createOrder sample_input) wc = Err (QueryError Commit)
      /\ tables (after (createOrder sample_input) wc) = empty_db).
Proof.
  repeat split; vm_compute; reflexivity.
Qed.

(* ================================================================== *)
(** * Further properties of db/repository.ts *)

(** X1.  [executeQuery] gives its connection back on every path: the
    number of connections in use is unchanged, and once a connection was
    acquired the last event is its release, also when the statement is
    rejected.  What it raises is the failure of [pool.connect] or of the
    statement itself, and then no row has changed. *)
Theorem executeQuery_releases_and_fails_clean (s : Stmt) (w : World) :
  let w' := after (executeQuery s) w in
  in_use w' = in_use w
  /\ (db_faults w (tick w) = false ->
      exists evs, trace w' = evs ++ [EvRelease (acquired w)])
  /\ (forall e, outcome (executeQuery s) w = Err e ->
      (e = ConnectionError \/ e = QueryError s) /\ tables w' = tables w).
Proof.
  unfold executeQuery, outcome, after, bind, try_finally, ret, release,
    pool_connect, in_use.
  destruct (db_faults w (tick w)) eqn:E0.
  - cbn [fst snd]. repeat split; try discriminate.
    + inversion H. auto.
  - unfold query.
    cbn [tick db_faults sessions driver_call emit set_pool set_session
         acquired released].
    destruct (db_faults w (S (tick w))) eqn:E1.
    + cbn [fst snd acquired released trace tables set_pool emit set_session
           driver_call].
      split; [lia |]. split; [intros _; eexists; reflexivity |].
      intros e H. inversion H. auto.
    + rewrite Nat.eqb_refl.
      destruct s;
        cbn [fst snd acquired released trace tables set_pool emit set_session
             driver_call draw set_seqs set_tables];
        (split; [lia |]); (split; [intros _; eexists; reflexivity |]);
        intros e H; discriminate H.
Qed.

Lemma executeQuery_releases_and_fails_clean_witness :
  let w := world_of sample_db 2 3 [1] in
  exists evs,
    trace (after (executeQuery (DeleteOrder 1)) w)
    = evs ++ [EvRelease (acquired w)].
Proof.
  intros w.
  pose proof (executeQuery_releases_and_fails_clean (DeleteOrder 1)
                (world_of sample_db 2 3 [1])) as H.
  cbv zeta in H. apply proj2 in H. apply proj1 in H. apply H.
  reflexivity.
Defined.

(** X2.  When the unit of work returns normally, everything hangs on
    [COMMIT].  Accepted: its pending writes become the committed rows, no
    [ROLLBACK] is sent and the result of the unit of work is returned.
    Rejected: a [ROLLBACK] is sent, the result of the unit of work is
    dropped, the failure of the [COMMIT] (or of the [ROLLBACK], if that
    is rejected too) is raised and the committed rows stay as they were.
    The connection is released either way. *)
Theorem executeTransaction_commit_decides
    (T : Type) (callback : nat -> M T) w c w1 (a : T) w2 :
  tx_started w = (Ok c, w1) ->
  callback c w1 = (Ok a, w2) ->
  let w' := after (executeTransaction callback) w in
  if db_faults w2 (tick w2)
  then outcome (executeTransaction callback) w
       = Err (if db_faults w2 (S (tick w2))
              then QueryError Rollback else QueryError Commit)
       /\ tables w' = tables w2
       /\ trace w'
          = trace w2 ++ [EvQuery c Commit false;
                         EvQuery c Rollback (negb (db_faults w2 (S (tick w2))));
                         EvRelease c]
  else outcome (executeTransaction callback) w = Ok a
       /\ tables w' = view w2 c
       /\ trace w' = trace w2 ++ [EvQuery c Commit true; EvRelease c].
Proof.
  intros Hs Hc w'. unfold w', outcome, after.
  rewrite (executeTransaction_started _ _ _ _ _ Hs).
  destruct (db_faults w2 (tick w2)) eqn:E.
  - assert (Hrun :
      try_finally
        (try_catch (result <- callback c;; query c Commit;; ret result)
           (fun error => query c Rollback;; throw error)) (release c) w1
      = (Err (if db_faults w2 (S (tick w2))
              then QueryError Rollback else QueryError Commit),
         after (release c)
           (after (query c Rollback)
              (driver_call (EvQuery c Commit false) w2)))).
    { unfold try_finally, try_catch. erewrite bind_ok by exact Hc.
      erewrite bind_err by (apply query_rejected; exact E).
      unfold bind, throw, after, query.
      cbn [tick db_faults driver_call emit].
      destruct (db_faults w2 (S (tick w2))); reflexivity. }
    rewrite Hrun. unfold after, query.
    cbn [tick db_faults driver_call emit].
    destruct (db_faults w2 (S (tick w2)));
      cbn [fst snd release tables trace set_pool emit set_session driver_call
           negb];
      repeat split; rewrite <- ?app_assoc; reflexivity.
  - assert (Hrun :
      try_finally
        (try_catch (result <- callback c;; query c Commit;; ret result)
           (fun error => query c Rollback;; throw error)) (release c) w1
      = (Ok a, after (release c) (after (query c Commit) w2))).
    { unfold try_finally, try_catch. erewrite bind_ok by exact Hc.
      unfold bind, ret, after, query. rewrite E.
      destruct (sessions w2 c); reflexivity. }
    rewrite Hrun. unfold after, query, view. rewrite E.
    destruct (sessions w2 c);
      cbn [fst snd release tables trace set_pool emit set_session
           set_tables driver_call negb];
      repeat split; rewrite <- ?app_assoc; reflexivity.
Qed.

Lemma executeTransaction_commit_decides_witness :
  let w := world_of empty_db 1 1 [5] in
  let callback := createOrder_callback sample_input in
  let w2 := after (callback 0) (after tx_started w) in
  db_faults w2 (tick w2) = true
  /\ outcome (executeTransaction callback) w
     = Err (if db_faults w2 (S (tick w2))
            then QueryError Rollback else QueryError Commit)
  /\ tables (after (executeTransaction callback) w) = tables w2.
Proof.
  intros w callback w2.
  split; [vm_compute; reflexivity |].
  pose proof (executeTransaction_commit_decides Order callback w 0
                (after tx_started w) (inserted_order sample_input
                                        (after tx_started w)) w2) as H.
  cbv zeta in H.
  replace (db_faults w2 (tick w2)) with true in H by (vm_compute; reflexivity).
  destruct H as (H1 & H2 & _).
  - vm_compute. reflexivity.
  - vm_compute. reflexivity.
  - split; [exact H1 | exact H2].
Defined.

(** X3.  When [pool.connect] or [BEGIN] is rejected the unit of work is
    not run at all: the whole outcome is fixed without it.  Without a
    connection nothing is released and no statement is sent; after a
    rejected [BEGIN] a [ROLLBACK] is still sent and the connection is
    released.  No row changes. *)
Theorem executeTransaction_skips_unit_of_work
    (T : Type) (callback : nat -> M T) (w : World) :
  (db_faults w (tick w) = true ->
   executeTransaction callback w
   = (Err ConnectionError, driver_call EvConnectFailed w))
  /\ (db_faults w (tick w) = false ->
      db_faults w (S (tick w)) = true ->
      let w' := after (executeTransaction callback) w in
      let c := acquired w in
      outcome (executeTransaction callback) w
      = Err (if db_faults w (S (S (tick w)))
             then QueryError Rollback else QueryError Begin)
      /\ trace w'
         = trace w ++ [EvConnect c; EvQuery c Begin false;
                       EvQuery c Rollback (negb (db_faults w (S (S (tick w)))));
                       EvRelease c]
      /\ tables w' = tables w
      /\ in_use w' = in_use w).
Proof.
  split.
  - intros E0. unfold executeTransaction, bind, pool_connect.
    rewrite E0. reflexivity.
  - intros E0 E1 w' c. unfold w', outcome, after.
    unfold executeTransaction, bind, pool_connect, try_finally, try_catch,
      throw, release, query, in_use.
    rewrite E0.
    cbn [tick db_faults sessions driver_call emit set_pool set_session].
    rewrite E1.
    cbn [tick db_faults sessions driver_call emit set_pool set_session].
    destruct (db_faults w (S (S (tick w))));
      cbn [fst snd acquired released trace tables set_pool emit set_session
           driver_call negb];
      repeat split; rewrite <- ?app_assoc; try reflexivity; lia.
Qed.

Lemma executeTransaction_skips_unit_of_work_witness :
  let w := world_of sample_db 2 3 [1] in
  outcome (executeTransaction (createOrder_callback sample_input)) w
  = Err (QueryError Begin)
  /\ tables (after (executeTransaction (createOrder_callback sample_input)) w)
     = sample_db.
Proof.
  destruct (proj2 (executeTransaction_skips_unit_of_work Order
                     (createOrder_callback sample_input)
                     (world_of sample_db 2 3 [1])))
    as (H1 & _ & H3 & _); try reflexivity.
  split; [exact H1 | exact H3].
Defined.

(* ================================================================== *)
(** * Further properties of services/order-service.ts *)

Lemma executeQuery_rejected s w :
  db_faults w (tick w) = true \/ db_faults w (S (tick w)) = true ->
  exists w',
    executeQuery s w
    = (Err (if db_faults w (tick w) then ConnectionError else QueryError s), w')
    /\ tables w' = tables w.
Proof.
  intros H.
  unfold executeQuery, bind, try_finally, ret, release, pool_connect.
  destruct (db_faults w (tick w)) eqn:E0.
  - eexists. split; reflexivity.
  - destruct H as [H | H]; [discriminate |].
    unfold query.
    cbn [tick db_faults sessions driver_call emit set_pool set_session].
    rewrite H. eexists. split; reflexivity.
Qed.

Lemma executeQuery_trace_blind s evs w :
  outcome (executeQuery s) (add_events evs w) = outcome (executeQuery s) w
  /\ tables (after (executeQuery s) (add_events evs w))
     = tables (after (executeQuery s) w).
Proof.
  unfold executeQuery, outcome, after, bind, try_finally, ret, release,
    pool_connect.
  cbn [db_faults tick add_events].
  destruct (db_faults w (tick w)); [split; reflexivity |].
  unfold query, view.
  cbn [tick db_faults sessions driver_call emit set_pool set_session
       add_events acquired].
  destruct (db_faults w (S (tick w))); [split; reflexivity |].
  rewrite Nat.eqb_refl. destruct s; split; reflexivity.
Qed.

Lemma executeQuery_select_keeps_tables s w :
  (exists id, s = SelectOrderById id) \/ (exists id, s = SelectOrderItems id) ->
  tables (after (executeQuery s) w) = tables w.
Proof.
  intros Hs.
  unfold executeQuery, after, bind, try_finally, ret, release, pool_connect.
  destruct (db_faults w (tick w)); [reflexivity |].
  unfold query.
  cbn [tick db_faults sessions driver_call emit set_pool set_session].
  destruct (db_faults w (S (tick w))); [reflexivity |].
  rewrite Nat.eqb_refl.
  destruct Hs as [[id ->] | [id ->]]; cbn; now destruct (tables w).
Qed.

Lemma getOrderById_accepted orderId w :
  driver_ok 2 w ->
  exists w',
    getOrderById orderId w
    = (Ok (first_order (map RowOrder (filter (has_id orderId)
                                             (orders (tables w))))), w')
    /\ tables w' = tables w
    /\ tick w' = tick w + 2
    /\ db_faults w' = db_faults w.
Proof.
  intros H. unfold getOrderById, bind, log.
  set (w0 := emit _ w).
  destruct (executeQuery_accepted (SelectOrderById orderId) w0 H eq_refl)
    as (w1 & Hrun & T1 & K1 & F1 & _).
  rewrite Hrun. exists w1. subst w0.
  cbn [rows answer tables emit effect tick db_faults] in *.
  repeat split; assumption.
Qed.

Lemma getOrderItems_accepted orderId w :
  driver_ok 2 w ->
  exists w',
    getOrderItems orderId w
    = (Ok (map RowItem (filter (of_order orderId) (order_items (tables w)))), w')
    /\ tables w' = tables w.
Proof.
  intros H. unfold getOrderItems, bind, log.
  set (w0 := emit _ w).
  destruct (executeQuery_accepted (SelectOrderItems orderId) w0 H eq_refl)
    as (w1 & Hrun & T1 & _).
  rewrite Hrun. exists w1. subst w0.
  cbn [rows answer tables emit effect] in *.
  split; [reflexivity | exact T1].
Qed.

Lemma no_item_of_order id (its : list OrderItem) :
  (forall i, In i its -> oi_order_id i <> id) -> filter (of_order id) its = [].
Proof.
  intros H. induction its as [| i rest IH]; [reflexivity |].
  cbn [filter]. unfold of_order at 1.
  destruct (Z.eqb_spec (oi_order_id i) id) as [E | _].
  - exfalso. apply (H i); [now left | exact E].
  - apply IH. intros i' Hi'. apply H. now right.
Qed.

Lemma item_rows_of_order oid (its : list OrderLine) : forall iseq,
  filter (of_order oid) (item_rows oid iseq its) = item_rows oid iseq its.
Proof.
  induction its as [| item rest IH]; intros iseq; [reflexivity |].
  cbn [item_rows filter]. unfold of_order at 1. cbn [oi_order_id].
  rewrite Z.eqb_refl, IH. reflexivity.
Qed.

(** X4.  What [createOrder] stored can be read back: when the order id
    drawn from the sequence is not yet used by a row, [getOrderById] of
    that id then returns the very order [createOrder] returned, and
    [getOrderItems] returns the rows of its items, one per input item,
    in input order. *)
Theorem createOrder_then_read_back (input : CreateOrderInput) (w : World) :
  driver_ok (4 + List.length (items input)) w ->
  driver_ok 4 (after (createOrder input) w) ->
  (forall o, In o (orders (tables w)) -> ord_id o <> order_seq w) ->
  (forall i, In i (order_items (tables w)) -> oi_order_id i <> order_seq w) ->
  let w1 := after (createOrder input) w in
  let w2 := after (getOrderById (order_seq w)) w1 in
  exists order,
    outcome (createOrder input) w = Ok order
    /\ ord_id order = order_seq w
    /\ outcome (getOrderById (order_seq w)) w1 = Ok (Some order)
    /\ outcome (getOrderItems (order_seq w)) w2
       = Ok (map RowItem (item_rows (order_seq w) (item_seq w) (items input))).
Proof.
  intros Hok Hok1 Hfresh Hfresh_items w1 w2.
  destruct (createOrder_committed input w Hok) as (w1' & Hrun & Ht & _).
  assert (Ew1 : w1 = w1') by (unfold w1, after; now rewrite Hrun).
  exists (new_order input w). split; [unfold outcome; now rewrite Hrun |].
  split; [reflexivity |].
  assert (H2 : driver_ok 2 w1) by (intros k Hk; apply Hok1; lia).
  destruct (getOrderById_accepted (order_seq w) w1 H2)
    as (w2' & Hget & T2 & K2 & F2).
  assert (Ew2 : w2 = w2') by (unfold w2, after; now rewrite Hget).
  split.
  - unfold outcome. rewrite Hget. cbn [fst]. rewrite Ew1, Ht. cbn [orders].
    rewrite filter_app, (no_row_with_id _ _ Hfresh). cbn [filter app].
    unfold has_id. cbn [ord_id new_order]. rewrite Z.eqb_refl. reflexivity.
  - assert (H3 : driver_ok 2 w2).
    { rewrite Ew2. intros k Hk. rewrite F2, K2, <- Nat.add_assoc.
      apply Hok1. lia. }
    destruct (getOrderItems_accepted (order_seq w) w2 H3) as (w3 & Hitems & _).
    unfold outcome. rewrite Hitems. cbn [fst].
    rewrite Ew2, T2, Ew1, Ht. cbn [order_items].
    rewrite filter_app, (no_item_of_order _ _ Hfresh_items), item_rows_of_order.
    reflexivity.
Qed.

Lemma createOrder_then_read_back_witness :
  let w := world_of sample_db 2 3 [] in
  let w1 := after (createOrder sample_input) w in
  let w2 := after (getOrderById (order_seq w)) w1 in
  exists order,
    outcome (createOrder sample_input) w = Ok order
    /\ ord_id order = order_seq w
    /\ outcome (getOrderById (order_seq w)) w1 = Ok (Some order)
    /\ outcome (getOrderItems (order_seq w)) w2
       = Ok (map RowItem (item_rows (order_seq w) (item_seq w)
                                    (items sample_input))).
Proof.
  apply (createOrder_then_read_back sample_input (world_of sample_db 2 3 [])).
  - intros k Hk. reflexivity.
  - intros k Hk. vm_compute. reflexivity.
  - intros o [<- | []]. vm_compute. discriminate.
  - intros i [<- | [<- | []]]; vm_compute; discriminate.
Defined.

(** X5.  The reads write nothing, whatever the driver does: after
    [getOrderById] or [getOrderItems] the tables are what they were.
    Asked twice in a row, [getOrderById] gives the same answer twice. *)
Theorem reads_leave_tables_alone (orderId : Z) (w : World) :
  tables (after (getOrderById orderId) w) = tables w
  /\ tables (after (getOrderItems orderId) w) = tables w
  /\ (driver_ok 2 w ->
      driver_ok 2 (after (getOrderById orderId) w) ->
      outcome (getOrderById orderId) (after (getOrderById orderId) w)
      = outcome (getOrderById orderId) w).
Proof.
  split; [| split].
  - unfold getOrderById, after, bind, log.
    set (w0 := emit _ w).
    pose proof (executeQuery_select_keeps_tables (SelectOrderById orderId) w0
                  (or_introl (ex_intro _ orderId eq_refl))) as H.
    unfold after in H.
    destruct (executeQuery (SelectOrderById orderId) w0) as [[r | e] w1];
      exact H.
  - unfold getOrderItems, after, bind, log.
    set (w0 := emit _ w).
    pose proof (executeQuery_select_keeps_tables (SelectOrderItems orderId) w0
                  (or_intror (ex_intro _ orderId eq_refl))) as H.
    unfold after in H.
    destruct (executeQuery (SelectOrderItems orderId) w0) as [[r | e] w1];
      exact H.
  - intros H1 H2.
    destruct (getOrderById_accepted orderId w H1) as (w1 & R1 & T1 & _).
    unfold after in *. rewrite R1 in *. cbn [snd] in *.
    destruct (getOrderById_accepted orderId w1 H2) as (w2 & R2 & _).
    unfold outcome. rewrite R1, R2, T1. reflexivity.
Qed.

Lemma reads_leave_tables_alone_witness :
  let w := world_of sample_db 2 3 [] in
  outcome (getOrderById 1) (after (getOrderById 1) w)
  = outcome (getOrderById 1) w.
Proof.
  apply (proj2 (proj2 (reads_leave_tables_alone 1 (world_of sample_db 2 3 [])))).
  - intros k Hk. reflexivity.
  - intros k Hk. vm_compute. reflexivity.
Defined.

Lemma updated_rows (g : Order -> Order) id (os : list Order) o :
  filter (has_id id) os = [o] ->
  let os' := map (fun x => if has_id id x then g x else x) os in
  In (g o) os'
  /\ (forall x, In x os -> ord_id x <> id -> In x os')
  /\ List.length os' = List.length os.
Proof.
  intros Hf os'. split; [| split].
  - assert (Ho : In o (filter (has_id id) os)) by (rewrite Hf; now left).
    apply filter_In in Ho. destruct Ho as [Hin Hid].
    unfold os'. apply in_map_iff. exists o. now rewrite Hid.
  - intros x Hx Hne. unfold os'. apply in_map_iff. exists x.
    split; [| exact Hx]. unfold has_id.
    destruct (Z.eqb_spec (ord_id x) id); [contradiction | reflexivity].
  - unfold os'. apply length_map.
Qed.

(** X6.  [updateOrderStatus] overwrites without looking: whatever the
    status of the order was and whatever string it is given, the row with
    that id gets the string as its status and a new update time and is
    returned; its id, user, total and creation time are kept, every other
    order is left as it was and no item row is touched. *)
Theorem updateOrderStatus_overwrites_unconditionally
    (orderId : Z) (status : string) (w : World) (o : Order) :
  driver_ok 2 w ->
  filter (has_id orderId) (orders (tables w)) = [o] ->
  let now := Z.of_nat (S (tick w)) in
  let w' := after (updateOrderStatus orderId status) w in
  outcome (updateOrderStatus orderId status) w
  = Ok (Some (mkOrder (ord_id o) (ord_user_id o) status (ord_total_amount o)
                      (ord_created_at o) now (ord_paid_at o)))
  /\ In (set_status status now o) (orders (tables w'))
  /\ (forall x, In x (orders (tables w)) -> ord_id x <> orderId ->
                In x (orders (tables w')))
  /\ List.length (orders (tables w')) = List.length (orders (tables w))
  /\ order_items (tables w') = order_items (tables w).
Proof.
  intros H Hf now w'.
  unfold w', outcome, after, updateOrderStatus, bind, log.
  set (w0 := emit _ w).
  destruct (executeQuery_accepted (UpdateOrderStatus status orderId) w0 H eq_refl)
    as (w1 & Hrun & T1 & _).
  rewrite Hrun. subst w0.
  cbn [rows answer tables emit effect tick fst snd ret] in *.
  rewrite Hf, T1. cbn [map first_order orders order_items].
  destruct (updated_rows (set_status status now) orderId _ o Hf)
    as (H1 & H2 & H3).
  repeat split; assumption.
Qed.

Lemma updateOrderStatus_overwrites_unconditionally_witness :
  let w := world_of (mkDb [mkOrder 1 7 "fulfilled" (num 35) 0 0 None] []) 2 1 [] in
  outcome (updateOrderStatus 1 "pending") w
  = Ok (Some (mkOrder 1 7 "pending" (num 35) 0 1 None)).
Proof.
  apply (updateOrderStatus_overwrites_unconditionally 1 "pending"
           (world_of (mkDb [mkOrder 1 7 "fulfilled" (num 35) 0 0 None] []) 2 1 [])
           (mkOrder 1 7 "fulfilled" (num 35) 0 0 None)).
  - intros k Hk. reflexivity.
  - reflexivity.
Defined.

(** X7.  [markOrderPaid] sets the status of the row with that id to
    paid and stamps its payment time and its update time with the same
    instant, whatever its status was (an order already fulfilled goes
    back to paid); user, total and creation time are kept, other orders
    and all item rows are left alone. *)
Theorem markOrderPaid_stamps_and_overwrites
    (orderId : Z) (w : World) (o : Order) :
  driver_ok 2 w ->
  filter (has_id orderId) (orders (tables w)) = [o] ->
  let now := Z.of_nat (S (tick w)) in
  let w' := after (markOrderPaid orderId) w in
  outcome (markOrderPaid orderId) w
  = Ok (Some (mkOrder (ord_id o) (ord_user_id o) "paid" (ord_total_amount o)
                      (ord_created_at o) now (Some now)))
  /\ In (set_paid "paid" now o) (orders (tables w'))
  /\ (forall x, In x (orders (tables w)) -> ord_id x <> orderId ->
                In x (orders (tables w')))
  /\ List.length (orders (tables w')) = List.length (orders (tables w))
  /\ order_items (tables w') = order_items (tables w).
Proof.
  intros H Hf now w'.
  unfold w', outcome, after, markOrderPaid, bind.
  destruct (executeQuery_accepted (UpdateOrderPaid "paid" orderId) w H eq_refl)
    as (w1 & Hrun & T1 & _).
  rewrite Hrun.
  cbn [rows answer tables effect fst snd ret] in *.
  rewrite Hf, T1. cbn [map first_order orders order_items].
  destruct (updated_rows (set_paid "paid" now) orderId _ o Hf)
    as (H1 & H2 & H3).
  repeat split; assumption.
Qed.

Lemma markOrderPaid_stamps_and_overwrites_witness :
  let w := world_of (mkDb [mkOrder 1 7 "fulfilled" (num 35) 0 0 None] []) 2 1 [] in
  outcome (markOrderPaid 1) w
  = Ok (Some (mkOrder 1 7 "paid" (num 35) 0 1 (Some 1%Z))).
Proof.
  apply (markOrderPaid_stamps_and_overwrites 1
           (world_of (mkDb [mkOrder 1 7 "fulfilled" (num 35) 0 0 None] []) 2 1 [])
           (mkOrder 1 7 "fulfilled" (num 35) 0 0 None)).
  - intros k Hk. reflexivity.
  - reflexivity.
Defined.

(** X8.  [fulfillOrder] is [updateOrderStatus] with the status
    fulfilled, and only adds log lines to it: in every world, whatever
    the driver rejects, both return or raise the same and leave the same
    tables. *)
Theorem fulfillOrder_is_status_update (orderId : Z) (w : World) :
  outcome (fulfillOrder orderId) w
  = outcome (updateOrderStatus orderId "fulfilled") w
  /\ tables (after (fulfillOrder orderId) w)
     = tables (after (updateOrderStatus orderId "fulfilled") w).
Proof.
  unfold fulfillOrder, updateOrderStatus, outcome, after, bind, log, ret.
  rewrite !emit_add_events, add_events_app.
  destruct (executeQuery_trace_blind (UpdateOrderStatus "fulfilled" orderId)
              ([EvLog Info "Fulfilling order" [("orderId", LNum orderId)]]
               ++ [EvLog Info "Updating order status"
                     [("orderId", LNum orderId); ("status", LStr "fulfilled")]])
              w) as [O1 T1].
  destruct (executeQuery_trace_blind (UpdateOrderStatus "fulfilled" orderId)
              [EvLog Info "Updating order status"
                 [("orderId", LNum orderId); ("status", LStr "fulfilled")]]
              w) as [O2 T2].
  unfold outcome, after in *. rewrite <- O2 in O1. rewrite <- T2 in T1.
  destruct (executeQuery _ (add_events (_ ++ _) w)) as [[r1 | e1] w1];
    destruct (executeQuery _ (add_events [_] w)) as [[r2 | e2] w2];
    cbn [fst snd tables add_events] in *;
    try discriminate O1; inversion O1; subst; split; auto.
Qed.

Lemma cancelOrder_accepted orderId w :
  driver_ok 6 w ->
  exists w',
    cancelOrder orderId w = (Ok tt, w')
    /\ tables w'
       = mkDb (filter (fun o => negb (has_id orderId o)) (orders (tables w)))
              (filter (fun i => negb (of_order orderId i))
                      (order_items (tables w))).
Proof.
  intros H.
  assert (H0 : driver_ok 2 w) by (intros k Hk; apply H; lia).
  destruct (executeQuery_accepted (DeleteOrderItems orderId) w H0 eq_refl)
    as (w1 & R1 & T1 & K1 & F1 & _).
  assert (H1 : driver_ok 2 w1).
  { intros k Hk. rewrite F1, K1, <- Nat.add_assoc. apply H. lia. }
  destruct (executeQuery_accepted (DeleteOrder orderId) w1 H1 eq_refl)
    as (w2 & R2 & T2 & K2 & F2 & _).
  assert (H2 : driver_ok 2 w2).
  { intros k Hk. rewrite F2, K2, F1, K1, <- !Nat.add_assoc. apply H. lia. }
  destruct (getOrderById_accepted orderId w2 H2) as (w3 & R3 & T3 & _).
  exists w3. split.
  - unfold cancelOrder. erewrite bind_ok by exact R1.
    erewrite bind_ok by exact R2.
    unfold try_catch. erewrite bind_ok by exact R3.
    rewrite T2, T1. cbn [effect orders].
    rewrite deleted_order_is_gone. reflexivity.
  - rewrite T3, T2, T1. reflexivity.
Qed.

Lemma filter_keeps_all A (f : A -> bool) (l : list A) :
  (forall x, In x l -> f x = true) -> filter f l = l.
Proof.
  intros H. induction l as [| x rest IH]; [reflexivity |].
  cbn [filter]. rewrite (H x) by now left.
  f_equal. apply IH. intros y Hy. apply H. now right.
Qed.

Lemma filter_twice A (f : A -> bool) (l : list A) :
  filter f (filter f l) = filter f l.
Proof.
  apply filter_keeps_all. intros x Hx. apply filter_In in Hx. tauto.
Qed.

(** X9.  [cancelOrder] is not atomic.  When the items were deleted and
    the delete of the order is then rejected (or no connection can be had
    for it), the failure reaches the caller and the database keeps the
    order without any of its items. *)
Theorem cancelOrder_partial_failure_keeps_order (orderId : Z) (w : World) :
  driver_ok 2 w ->
  db_faults w (tick w + 2) = true \/ db_faults w (tick w + 3) = true ->
  let w' := after (cancelOrder orderId) w in
  outcome (cancelOrder orderId) w
  = Err (if db_faults w (tick w + 2)
         then ConnectionError else QueryError (DeleteOrder orderId))
  /\ orders (tables w') = orders (tables w)
  /\ order_items (tables w')
     = filter (fun i => negb (of_order orderId i)) (order_items (tables w)).
Proof.
  intros H0 Hbad w'.
  destruct (executeQuery_accepted (DeleteOrderItems orderId) w H0 eq_refl)
    as (w1 & R1 & T1 & K1 & F1 & _).
  assert (Hbad1 : db_faults w1 (tick w1) = true
                  \/ db_faults w1 (S (tick w1)) = true).
  { rewrite F1, K1. replace (S (tick w + 2)) with (tick w + 3) by lia.
    exact Hbad. }
  destruct (executeQuery_rejected (DeleteOrder orderId) w1 Hbad1)
    as (w2 & R2 & T2).
  rewrite F1, K1 in R2.
  assert (Hrun : cancelOrder orderId w
                 = (Err (if db_faults w (tick w + 2)
                         then ConnectionError
                         else QueryError (DeleteOrder orderId)), w2)).
  { unfold cancelOrder. erewrite bind_ok by exact R1.
    erewrite bind_err by exact R2. reflexivity. }
  unfold w', outcome, after. rewrite Hrun. cbn [fst snd].
  rewrite T2, T1. repeat split.
Qed.

Lemma cancelOrder_partial_failure_keeps_order_witness :
  let w := world_of sample_db 2 3 [3] in
  outcome (cancelOrder 1) w = Err (QueryError (DeleteOrder 1))
  /\ orders (tables (after (cancelOrder 1) w)) = orders sample_db
  /\ order_items (tables (after (cancelOrder 1) w)) = [].
Proof.
  apply (cancelOrder_partial_failure_keeps_order 1 (world_of sample_db 2 3 [3])).
  - intros k Hk. destruct k as [| [| k]]; try reflexivity. lia.
  - right. reflexivity.
Defined.

(** X10.  Cancelling is idempotent and never asks whether the order
    exists: cancelling again after a cancellation returns normally and
    changes nothing, and so does cancelling an id no row carries. *)
Theorem cancelOrder_again_is_a_no_op (orderId : Z) (w : World) :
  driver_ok 6 w ->
  let w1 := after (cancelOrder orderId) w in
  (driver_ok 6 w1 ->
   outcome (cancelOrder orderId) w1 = Ok tt
   /\ tables (after (cancelOrder orderId) w1) = tables w1)
  /\ ((forall o, In o (orders (tables w)) -> ord_id o <> orderId) ->
      (forall i, In i (order_items (tables w)) -> oi_order_id i <> orderId) ->
      outcome (cancelOrder orderId) w = Ok tt /\ tables w1 = tables w).
Proof.
  intros H w1.
  destruct (cancelOrder_accepted orderId w H) as (w1' & R1 & T1).
  assert (E1 : w1 = w1') by (unfold w1, after; now rewrite R1).
  split.
  - intros H1.
    destruct (cancelOrder_accepted orderId w1 H1) as (w2 & R2 & T2).
    unfold outcome, after. rewrite R2. cbn [fst snd].
    split; [reflexivity |].
    rewrite T2, E1, T1. cbn [orders order_items].
    now rewrite !filter_twice.
  - intros Ho Hi. unfold outcome. rewrite R1. split; [reflexivity |].
    rewrite E1, T1.
    rewrite (filter_keeps_all _ _ (orders (tables w))),
            (filter_keeps_all _ _ (order_items (tables w))).
    + now destruct (tables w).
    + intros i Hin. unfold of_order.
      destruct (Z.eqb_spec (oi_order_id i) orderId) as [E | _];
        [exfalso; exact (Hi i Hin E) | reflexivity].
    + intros o Hin. unfold has_id.
      destruct (Z.eqb_spec (ord_id o) orderId) as [E | _];
        [exfalso; exact (Ho o Hin E) | reflexivity].
Qed.

Lemma cancelOrder_again_is_a_no_op_witness :
  let w := world_of sample_db 2 3 [] in
  outcome (cancelOrder 1) (after (cancelOrder 1) w) = Ok tt
  /\ tables (after (cancelOrder 1) (after (cancelOrder 1) w))
     = tables (after (cancelOrder 1) w).
Proof.
  apply (proj1 (cancelOrder_again_is_a_no_op 1 (world_of sample_db 2 3 [])
                  (fun k _ => eq_refl))).
  intros k Hk. vm_compute. reflexivity.
Defined.

(* ================================================================== *)
(** * Further properties of services/notification-service.ts *)

Lemma sendOrderCancellation_run o u w :
  sendOrderCancellation o u w
  = (if lookup_fails w u || deliver_fails w (cancellation_email o u)
     then Err (ErrorMsg "Order cancellation notification failed") else Ok tt,
     add_events
       (if lookup_fails w u then [EvLookup u false]
        else EvLookup u true :: email_events w (cancellation_email o u)) w).
Proof.
  unfold sendOrderCancellation, try_catch, bind, throw.
  rewrite fetchUserEmail_run.
  destruct (lookup_fails w u); [reflexivity |].
  cbn [email orb]. fold (cancellation_email o u). rewrite sendEmail_run.
  unfold email_events.
  change (deliver_fails (add_events _ w)) with (deliver_fails w).
  destruct (deliver_fails w (cancellation_email o u));
    rewrite add_events_app; reflexivity.
Qed.

Lemma email_events_one_delivery w n :
  List.length (filter is_delivery (email_events w n)) = 1
  /\ filter is_lookup (email_events w n) = [].
Proof.
  unfold email_events. destruct (deliver_fails w n); split; reflexivity.
Qed.

(** X11.  [sendOrderConfirmation] and [sendOrderCancellation] turn
    every failure into one fixed error of their own: the caller cannot
    tell a failed lookup from a failed delivery and the cause is not
    passed on.  They succeed exactly when both steps do, and when the
    lookup fails no delivery is attempted. *)
Theorem order_notifications_hide_the_cause (orderId userId : Z) (w : World) :
  outcome (sendOrderConfirmation orderId userId) w
  = (if lookup_fails w userId
        || deliver_fails w (confirmation_email orderId userId)
     then Err (ErrorMsg "Failed to send order confirmation") else Ok tt)
  /\ outcome (sendOrderCancellation orderId userId) w
     = (if lookup_fails w userId
           || deliver_fails w (cancellation_email orderId userId)
        then Err (ErrorMsg "Order cancellation notification failed")
        else Ok tt)
  /\ (lookup_fails w userId = true ->
      filter is_delivery
        (new_events w (after (sendOrderConfirmation orderId userId) w)) = []
      /\ filter is_delivery
           (new_events w (after (sendOrderCancellation orderId userId) w)) = []).
Proof.
  unfold outcome, after.
  rewrite sendOrderConfirmation_run, sendOrderCancellation_run.
  cbn [fst snd]. unfold confirmation_fails.
  split; [reflexivity |]. split; [reflexivity |].
  intros H. rewrite H.
  rewrite !(new_events_app w _ [EvLookup userId false]) by reflexivity.
  split; reflexivity.
Qed.

Lemma order_notifications_hide_the_cause_witness :
  let w := directory_down_for [7]%Z in
  filter is_delivery (new_events w (after (sendOrderConfirmation 1 7) w)) = []
  /\ filter is_delivery (new_events w (after (sendOrderCancellation 1 7) w))
     = [].
Proof.
  apply (proj2 (proj2 (order_notifications_hide_the_cause 1 7
                         (directory_down_for [7]%Z)))).
  reflexivity.
Defined.

Lemma sendBulkNotifications_run userIds subject body w :
  sendBulkNotifications userIds subject body w
  = (Ok tt,
     add_events
       (EvLog Info "Sending bulk notifications"
          [("count", LNum (Z.of_nat (List.length userIds)))]
        :: flat_map (bulk_events_one w subject body) userIds
        ++ [bulk_report (map (settle w subject body) userIds)]) w).
Proof.
  unfold sendBulkNotifications, bind, log. rewrite allSettled_bulk.
  change (settle (emit _ w)) with (settle w).
  change (bulk_events_one (emit _ w)) with (bulk_events_one w).
  rewrite !emit_add_events, !add_events_app. reflexivity.
Qed.

Lemma bulk_attempts w subject body (userIds : list Z) :
  List.length (filter is_lookup
                 (flat_map (bulk_events_one w subject body) userIds))
  = List.length userIds
  /\ List.length (filter is_delivery
                    (flat_map (bulk_events_one w subject body) userIds))
     = List.length (filter (fun u => negb (lookup_fails w u)) userIds).
Proof.
  induction userIds as [| u rest [IH1 IH2]]; [split; reflexivity |].
  cbn [flat_map filter]. rewrite !filter_app, !length_app, IH1, IH2.
  unfold bulk_events_one.
  destruct (email_events_one_delivery w (bulk_email subject body u))
    as [Hd Hl].
  destruct (lookup_fails w u); cbn [negb filter is_lookup is_delivery].
  - split; reflexivity.
  - rewrite Hl, Hd. split; reflexivity.
Qed.

(** X12.  [sendBulkNotifications] makes one attempt per entry of the
    list and no more: one directory lookup for every entry (an id listed
    twice is looked up twice), and one delivery for every entry whose
    lookup succeeded; nothing is retried. *)
Theorem sendBulkNotifications_one_attempt_each
    (userIds : list Z) (subject body : string) (w : World) :
  let evs := new_events w (after (sendBulkNotifications userIds subject body) w) in
  List.length (filter is_lookup evs) = List.length userIds
  /\ List.length (filter is_delivery evs)
     = List.length (filter (fun u => negb (lookup_fails w u)) userIds).
Proof.
  intros evs. unfold evs, after. rewrite sendBulkNotifications_run.
  cbn [snd]. erewrite new_events_app by reflexivity.
  cbn [filter is_lookup is_delivery].
  rewrite !filter_app, !length_app.
  destruct (bulk_attempts w subject body userIds) as [H1 H2].
  rewrite H1, H2. cbn. split; lia.
Qed.
(* ================================================================== *)
(** * utils/validator.ts: which bodies pass *)

Section ValidatorFacts.
Variable StringToNumber : string -> number.
Variable ArrayToNumber : list JsValue -> option number.

Lemma truthy_iff (v : JsValue) : truthy v = true <-> acceptable_id v.
Proof.
  destruct v as [| | b | x | s | l | ps]; cbn [truthy acceptable_id];
    try (split; [discriminate | contradiction]);
    try (split; [reflexivity | trivial]); try tauto.
  - destruct x as [sg | sg | | sg m e]; split;
      try discriminate; try (intros [H1 H2]; congruence);
      try (intros [H1 H2]; exfalso; now apply (H2 sg));
      intros _; split; try discriminate; intros; discriminate.
  - rewrite negb_true_iff. split.
    + intros H ->. discriminate.
    + intros H. destruct (String.eqb_spec s ""); [contradiction | reflexivity].
Qed.

(** For a number, being truthy and not at most zero is being above
    zero: zero, a negative number and [NaN] are refused. *)
Lemma number_above_zero (x : number) :
  truthy (JsNumber x) && negb (SFleb x js_zero) = SFltb js_zero x.
Proof. destruct x as [[|] | [|] | | [|] m e]; reflexivity. Qed.

Lemma passes_quantity_iff (v : JsValue) :
  passes_quantity StringToNumber ArrayToNumber v = true
  <-> acceptable_quantity StringToNumber ArrayToNumber v.
Proof.
  unfold passes_quantity.
  destruct v as [| | b | x | s | l | ps]; cbn [acceptable_quantity].
  - split; [discriminate | contradiction].
  - split; [discriminate | contradiction].
  - cbn [truthy]. rewrite andb_true_r. tauto.
  - rewrite number_above_zero. tauto.
  - cbn [truthy]. rewrite andb_true_iff, !negb_true_iff. split.
    + intros [H1 H2]. split; [intros -> ; discriminate | exact H2].
    + intros [H1 H2]. split; [| exact H2].
      destruct (String.eqb_spec s ""); [contradiction | reflexivity].
  - cbn [truthy andb]. destruct (ArrayToNumber l) as [x |]; split.
    + intros H. exists x. split; [reflexivity |]. now apply negb_true_iff.
    + intros (y & E & H). inversion E. subst. now apply negb_true_iff.
    + discriminate.
    + intros (y & E & _). discriminate.
  - cbn [truthy andb]. apply negb_true_iff.
Qed.

Lemma passes_item_iff (item : JsValue) :
  passes_item StringToNumber ArrayToNumber item = true
  <-> acceptable_item StringToNumber ArrayToNumber item.
Proof.
  unfold passes_item, acceptable_item.
  rewrite andb_true_iff, truthy_iff, passes_quantity_iff. tauto.
Qed.

Lemma passes_body_iff (data : JsValue) :
  passes_body StringToNumber ArrayToNumber data = true
  <-> acceptable_body StringToNumber ArrayToNumber data.
Proof.
  unfold passes_body, acceptable_body.
  rewrite andb_true_iff, truthy_iff. split.
  - intros [Hu Hi]. split; [exact Hu |].
    destruct (property data "items") as [| | | | | [| first rest] |];
      try discriminate.
    exists first, rest. split; [reflexivity |].
    apply Forall_forall. intros item Hin. apply passes_item_iff.
    rewrite forallb_forall in Hi. now apply Hi.
  - intros (Hu & first & rest & -> & Hall). split; [exact Hu |].
    apply forallb_forall. intros item Hin. apply passes_item_iff.
    rewrite Forall_forall in Hall. now apply Hall.
Qed.

Ltac settle := first [exists ConnectionError; reflexivity | eexists; reflexivity].

(** The test on the quantity: refused, let through, or raising. *)
Lemma quantity_test_run (q : JsValue) (w : World) :
  exists e,
    (refused <- (if negb (truthy q)
                 then ret true
                 else at_most_zero StringToNumber ArrayToNumber q) ;;
     if refused
     then throw (ErrorMsg "Quantity must be positive") else ret tt) w
    = (if passes_quantity StringToNumber ArrayToNumber q
       then Ok tt else Err e, w).
Proof.
  unfold passes_quantity, at_most_zero, to_number, bind, ret, throw.
  destruct q as [| | [|] | x | s | l | ps]; cbn [truthy negb andb];
    try settle.
  - destruct x as [[|] | [|] | | [|] m e]; settle.
  - destruct (String.eqb s ""); cbn [negb andb].
    + settle.
    + destruct (SFleb (StringToNumber s) js_zero); settle.
  - destruct (ArrayToNumber l) as [x |]; [| settle].
    destruct (SFleb x js_zero); settle.
  - destruct (has_key "toString" ps); settle.
Qed.

Lemma validate_items_run (l : list JsValue) (w : World) :
  exists e,
    for_of l (fun item =>
      productId <- get item "productId" ;;
      (if negb (truthy productId)
       then throw (ErrorMsg "Product ID required for each item")
       else ret tt) ;;
      quantity <- get item "quantity" ;;
      refused <- (if negb (truthy quantity)
                  then ret true
                  else at_most_zero StringToNumber ArrayToNumber quantity) ;;
      if refused
      then throw (ErrorMsg "Quantity must be positive") else ret tt) w
    = (if forallb (passes_item StringToNumber ArrayToNumber) l
       then Ok tt else Err e, w).
Proof.
  induction l as [| item rest [e IH]].
  - exists ConnectionError. reflexivity.
  - cbn [for_of forallb]. unfold passes_item at 1.
    destruct item as [| | b | x | s | els | ps];
      try settle.
    unfold bind at 1 2. unfold get at 1. unfold ret at 1.
    cbn [property].
    destruct (truthy (lookup "productId" ps)); cbn [negb andb];
      [| settle].
    unfold bind at 1 2. unfold ret at 1. unfold get at 1. unfold ret at 1.
    cbn [property].
    destruct (quantity_test_run (lookup "quantity" ps) w) as [e' He'].
    fold (@bind bool unit). unfold bind at 1 in He'. unfold bind at 1.
    destruct (passes_quantity StringToNumber ArrayToNumber
                (lookup "quantity" ps)).
    + exists e. 
      destruct ((if negb (truthy (lookup "quantity" ps))
                 then ret true
                 else at_most_zero StringToNumber ArrayToNumber
                        (lookup "quantity" ps)) w) as [[r | er] w1].
      * destruct r; [discriminate |]. inversion He'. subst. exact IH.
      * discriminate.
    + exists e'.
      destruct ((if negb (truthy (lookup "quantity" ps))
                 then ret true
                 else at_most_zero StringToNumber ArrayToNumber
                        (lookup "quantity" ps)) w) as [[r | er] w1].
      * destruct r; [exact He' | discriminate].
      * exact He'.
Qed.

Lemma validateOrderData_run (data : JsValue) (w : World) :
  validateOrderData StringToNumber ArrayToNumber data w
  = (if passes_body StringToNumber ArrayToNumber data then Ok tt
     else Err (ErrorMsg "Order validation failed"), w).
Proof.
  unfold validateOrderData, passes_body, try_catch.
  destruct data as [| | b | x | s | els | ps]; try reflexivity.
  unfold bind at 1. unfold get at 1. unfold ret at 1. cbn [property].
  destruct (truthy (lookup "userId" ps)); cbn [negb andb]; [| reflexivity].
  unfold bind at 1. unfold ret at 1.
  unfold bind at 1. unfold get at 1. unfold ret at 1. cbn [property].
  destruct (lookup "items" ps) as [| | b | x | s | [| first rest] | qs];
    try reflexivity.
  - destruct b; reflexivity.
  - destruct (truthy (JsNumber x)); reflexivity.
  - destruct (truthy (JsString s)); reflexivity.
  - cbn [truthy is_array elements_of negb orb List.length Nat.eqb].
    unfold bind at 1. unfold ret at 1.
    destruct (validate_items_run (first :: rest) w) as [e He].
    rewrite He. unfold throw.
    destruct (forallb (passes_item StringToNumber ArrayToNumber)
                (first :: rest)); reflexivity.
Qed.

Lemma post_orders_run (svc : JsValue -> JsValue -> M Order)
    (body : JsValue) (w : World) :
  post_orders StringToNumber ArrayToNumber svc body w
  = if passes_body StringToNumber ArrayToNumber body
    then match svc (property body "userId") (property body "items") w with
         | (Ok order, w1) => (Ok (mkResponse 201 (created_body order)), w1)
         | (Err e, w1) =>
             (Ok (mkResponse 400 (Some [("error", error_message e)])), w1)
         end
    else (Ok (mkResponse 400 (error_body "Order validation failed")), w).
Proof.
  unfold post_orders, try_catch. unfold bind at 1.
  rewrite validateOrderData_run.
  destruct (passes_body StringToNumber ArrayToNumber body) eqn:E;
    [| reflexivity].
  assert (Hobj : exists ps, body = JsObject ps).
  { unfold passes_body in E.
    destruct body as [| | b | x | s | els | ps]; try discriminate.
    now exists ps. }
  destruct Hobj as [ps ->].
  unfold bind, get, ret. cbn [property].
  destruct (svc (lookup "userId" ps) (lookup "items" ps) w)
    as [[order | e] w1]; reflexivity.
Qed.

End ValidatorFacts.

(** X13.  [validateOrderData] passes exactly the bodies whose [userId]
    is truthy, whose [items] is a non-empty array and in each of whose
    items [productId] is truthy and [quantity] is truthy and not at most
    zero as JavaScript compares.  For a number that is being above zero;
    but [true], a text that is no number and an object pass as a
    quantity too, an id may be any truthy value, and the price of an
    item is never looked at.  Every refusal, a failed property read
    included, is raised as the same error, and validating changes
    nothing. *)
Theorem validateOrderData_accepts_exactly
    (StringToNumber : string -> number)
    (ArrayToNumber : list JsValue -> option number)
    (data : JsValue) (w : World) :
  after (validateOrderData StringToNumber ArrayToNumber data) w = w
  /\ (acceptable_body StringToNumber ArrayToNumber data ->
      outcome (validateOrderData StringToNumber ArrayToNumber data) w = Ok tt)
  /\ (~ acceptable_body StringToNumber ArrayToNumber data ->
      outcome (validateOrderData StringToNumber ArrayToNumber data) w
      = Err (ErrorMsg "Order validation failed"))
  /\ (forall userId productId quantity price,
        acceptable_id userId -> acceptable_id productId ->
        acceptable_quantity StringToNumber ArrayToNumber quantity ->
        outcome (validateOrderData StringToNumber ArrayToNumber
                   (order_object userId
                      [item_object productId quantity price])) w
        = Ok tt).
Proof.
  unfold outcome, after. split; [| split; [| split]].
  - rewrite validateOrderData_run. reflexivity.
  - intros H. rewrite validateOrderData_run.
    apply passes_body_iff in H. now rewrite H.
  - intros H. rewrite validateOrderData_run.
    destruct (passes_body StringToNumber ArrayToNumber data) eqn:E;
      [| reflexivity].
    exfalso. apply H, passes_body_iff, E.
  - intros u p q pr Hu Hp Hq. rewrite validateOrderData_run.
    replace (passes_body StringToNumber ArrayToNumber
               (order_object u [item_object p q pr])) with true;
      [reflexivity |].
    symmetry. apply passes_body_iff. split; [exact Hu |].
    eexists. eexists. split; [reflexivity |].
    constructor; [| constructor]. split; [exact Hp | exact Hq].
Qed.

Lemma validateOrderData_accepts_exactly_witness :
  let w := world_of empty_db 1 1 [] in
  let body q :=
    order_object (JsNumber (num 7)) [item_object (JsNumber (num 100)) q JsUndefined] in
  outcome (validateOrderData no_number no_array_number (body (JsString "abc"))) w
  = Ok tt
  /\ outcome (validateOrderData no_number no_array_number (body (JsBool true))) w
     = Ok tt
  /\ outcome (validateOrderData no_number no_array_number
                (body (JsNumber (num 0)))) w
     = Err (ErrorMsg "Order validation failed").
Proof.
  intros w body. split; [| split].
  - apply (proj2 (proj2 (proj2 (validateOrderData_accepts_exactly
                                  no_number no_array_number
                                  (body (JsString "abc")) w)))).
    + split; [discriminate | intros s; discriminate].
    + split; [discriminate | intros s; discriminate].
    + split; [discriminate | reflexivity].
  - apply (proj2 (proj2 (proj2 (validateOrderData_accepts_exactly
                                  no_number no_array_number
                                  (body (JsBool true)) w)))).
    + split; [discriminate | intros s; discriminate].
    + split; [discriminate | intros s; discriminate].
    + reflexivity.
  - apply (proj1 (proj2 (proj2 (validateOrderData_accepts_exactly
                                  no_number no_array_number
                                  (body (JsNumber (num 0))) w)))).
    intros (_ & first & rest & E & Hall).
    inversion E. subst. inversion Hall as [| ? ? [_ Hq] _]. subst.
    discriminate Hq.
Defined.

(* ================================================================== *)
(** * api/orders.ts: what the routes answer *)

(** X14.  [POST /orders] answers 201 or 400 and nothing else.  A body
    that does not pass validation is answered 400 before the order
    service is called at all.  For a body that passes, the service is
    called on the [userId] and the [items] of the body, and the answer
    is 201 with the fields of the order the service returned, and 400
    carrying the message of whatever the service raised, a failure of
    the database included. *)
Theorem post_orders_answers
    (StringToNumber : string -> number)
    (ArrayToNumber : list JsValue -> option number)
    (svc : JsValue -> JsValue -> M Order) (body : JsValue) (w : World) :
  (~ acceptable_body StringToNumber ArrayToNumber body ->
   post_orders StringToNumber ArrayToNumber svc body w
   = (Ok (mkResponse 400 (error_body "Order validation failed")), w))
  /\ (acceptable_body StringToNumber ArrayToNumber body ->
      match svc (property body "userId") (property body "items") w with
      | (Ok order, w1) =>
          post_orders StringToNumber ArrayToNumber svc body w
          = (Ok (mkResponse 201 (created_body order)), w1)
      | (Err e, w1) =>
          post_orders StringToNumber ArrayToNumber svc body w
          = (Ok (mkResponse 400 (Some [("error", error_message e)])), w1)
      end).
Proof.
  rewrite post_orders_run. split.
  - intros H.
    destruct (passes_body StringToNumber ArrayToNumber body) eqn:E;
      [| reflexivity].
    exfalso. apply H, passes_body_iff, E.
  - intros H. apply passes_body_iff in H. rewrite H.
    destruct (svc (property body "userId") (property body "items") w)
      as [[order | e] w1]; reflexivity.
Qed.

Lemma post_orders_answers_witness :
  let w := world_of empty_db 1 1 [5] in
  outcome (post_orders no_number no_array_number createOrder_on_request
             sample_body) w
  = Ok (mkResponse 400 (Some [("error", JMessageOf (QueryError Commit))])).
Proof.
  intros w.
  assert (Hacc : acceptable_body no_number no_array_number sample_body).
  { apply passes_body_iff. vm_compute. reflexivity. }
  pose proof (proj2 (post_orders_answers no_number no_array_number
                       createOrder_on_request sample_body w) Hacc) as H.
  assert (E : outcome (createOrder_on_request (property sample_body "userId")
                         (property sample_body "items")) w
              = Err (QueryError Commit)) by (vm_compute; reflexivity).
  unfold outcome in *.
  destruct (createOrder_on_request (property sample_body "userId")
              (property sample_body "items") w) as [[order | e] w1];
    cbn [fst] in E; [discriminate |].
  rewrite H. inversion E. reflexivity.
Defined.



(** X16.  [POST /orders/:id/fulfill] and [POST /orders/:id/pay] answer
    200 with the row the service returned and 500 otherwise, whether the
    service raised or returned no row; the fulfil route logs the failure
    first.  What the pay route reports as [paidAt] is the update time of
    the row. *)
Theorem fulfill_and_pay_answers
    (parseInt : string -> Z) (svc : Z -> M (option Order))
    (id : string) (w : World) :
  let w0 := emit (EvLog Info "POST /orders/:id/fulfill" [("orderId", LStr id)]) w in
  match svc (parseInt id) w0 with
  | (Ok (Some order), w1) =>
      post_fulfill parseInt svc id w
      = (Ok (mkResponse 200 (status_body "updatedAt" order)), w1)
  | (Ok None, w1) =>
      post_fulfill parseInt svc id w
      = (Ok (mkResponse 500 (error_body "Internal server error")),
         emit (EvLog LError "Error fulfilling order"
                 [("orderId", LStr id);
                  ("error", LErr (TypeError
                     "Cannot read properties of undefined (reading 'id')"))])
              w1)
  | (Err e, w1) =>
      post_fulfill parseInt svc id w
      = (Ok (mkResponse 500 (error_body "Internal server error")),
         emit (EvLog LError "Error fulfilling order"
                 [("orderId", LStr id); ("error", LErr e)]) w1)
  end
  /\ match svc (parseInt id) w with
     | (Ok (Some order), w1) =>
         post_pay parseInt svc id w
         = (Ok (mkResponse 200
                  (Some [("id", JNum (ord_id order));
                         ("status", JStr (ord_status order));
                         ("paidAt", JNum (ord_updated_at order))])), w1)
     | (Ok None, w1) | (Err _, w1) =>
         post_pay parseInt svc id w
         = (Ok (mkResponse 500 (error_body "Payment processing failed")), w1)
     end.
Proof.
  intros w0. subst w0. split.
  - unfold post_fulfill, try_catch, bind, log. cbv beta iota.
    destruct (svc (parseInt id) (emit _ w)) as [[[order |] | e] w1];
      reflexivity.
  - unfold post_pay, try_catch, bind.
    destruct (svc (parseInt id) w) as [[[order |] | e] w1]; reflexivity.
Qed.

(** X17.  [DELETE /orders/:id] answers 204 with no body whenever the
    service returned and 500 with one fixed text whenever it raised; it
    has no other answer.  With [cancelOrder] behind it and the statements
    accepted it answers 204 and the rows of that id are gone, also when
    no order had that id. *)
Theorem delete_order_answers
    (parseInt : string -> Z) (svc : Z -> M unit) (id : string) (w : World) :
  match svc (parseInt id) w with
  | (Ok _, w1) =>
      delete_order parseInt svc id w = (Ok (mkResponse 204 None), w1)
  | (Err _, w1) =>
      delete_order parseInt svc id w
      = (Ok (mkResponse 500 (error_body "Failed to cancel order")), w1)
  end
  /\ (driver_ok 6 w ->
      outcome (delete_order parseInt cancelOrder id) w
      = Ok (mkResponse 204 None)
      /\ tables (after (delete_order parseInt cancelOrder id) w)
         = mkDb (filter (fun o => negb (has_id (parseInt id) o))
                        (orders (tables w)))
                (filter (fun i => negb (of_order (parseInt id) i))
                        (order_items (tables w)))).
Proof.
  split.
  - unfold delete_order, try_catch, bind.
    destruct (svc (parseInt id) w) as [[u | e] w1]; reflexivity.
  - intros H.
    destruct (cancelOrder_accepted (parseInt id) w H) as (w1 & R & T).
    unfold outcome, after, delete_order, try_catch.
    erewrite bind_ok by exact R. split; [reflexivity | exact T].
Qed.

Lemma delete_order_answers_witness :
  let w := world_of sample_db 2 3 [] in
  outcome (delete_order (parse_digits 0) cancelOrder "9") w
  = Ok (mkResponse 204 None)
  /\ tables (after (delete_order (parse_digits 0) cancelOrder "9") w)
     = mkDb (filter (fun o => negb (has_id (parse_digits 0 "9") o))
                    (orders (tables w)))
            (filter (fun i => negb (of_order (parse_digits 0 "9") i))
                    (order_items (tables w))).
Proof.
  intros w.
  pose proof (delete_order_answers (parse_digits 0) cancelOrder "9"
                (world_of sample_db 2 3 [])) as H.
  apply proj2 in H. apply H.
  intros k Hk. reflexivity.
Defined.

(** X18.  [GET /orders/:id] answers 404 when the service finds no
    order, and then does not ask for items; 200 with the order and its
    items when both reads succeed; and 500 with one fixed text, the
    failure being logged, when either read raises.  With [getOrderById]
    behind it, an id that no row carries is answered 404. *)
Theorem get_order_answers
    (parseInt : string -> Z) (svc_order : Z -> M (option Order))
    (svc_items : Z -> M (list Row)) (id : string) (w : World) :
  (let w0 := emit (EvLog Info "GET /orders/:id" [("orderId", LStr id)]) w in
   let failed e w1 :=
     (Ok (mkResponse 500 (error_body "Internal server error")),
      emit (EvLog LError "Error fetching order"
              [("orderId", LStr id); ("error", LErr e)]) w1) in
   match svc_order (parseInt id) w0 with
   | (Ok None, w1) =>
       get_order parseInt svc_order svc_items id w
       = (Ok (mkResponse 404 (error_body "Order not found")), w1)
   | (Ok (Some order), w1) =>
       match svc_items (ord_id order) w1 with
       | (Ok items, w2) =>
           get_order parseInt svc_order svc_items id w
           = (Ok (mkResponse 200
                    (Some [("id", JNum (ord_id order));
                           ("userId", JNum (ord_user_id order));
                           ("status", JStr (ord_status order));
                           ("totalAmount", JAmount (ord_total_amount order));
                           ("items", JRows items);
                           ("createdAt", JNum (ord_created_at order))])), w2)
       | (Err e, w2) =>
           get_order parseInt svc_order svc_items id w = failed e w2
       end
   | (Err e, w1) =>
       get_order parseInt svc_order svc_items id w = failed e w1
   end)
  /\ (driver_ok 2 w ->
      (forall o, In o (orders (tables w)) -> ord_id o <> parseInt id) ->
      outcome (get_order parseInt getOrderById getOrderItems id) w
      = Ok (mkResponse 404 (error_body "Order not found"))).
Proof.
  split.
  - intros w0 failed. subst w0 failed.
    unfold get_order, try_catch, bind, log. cbv beta iota.
    destruct (svc_order (parseInt id) (emit _ w)) as [[[order |] | e] w1];
      try reflexivity.
    destruct (svc_items (ord_id order) w1) as [[items | e] w2]; reflexivity.
  - intros H Hno.
    unfold outcome, get_order, try_catch. unfold bind at 1, log at 1.
    set (w0 := emit _ w).
    destruct (getOrderById_accepted (parseInt id) w0 H) as (w1 & R & _).
    erewrite bind_ok by exact R.
    unfold w0. cbn [tables emit]. rewrite (no_row_with_id _ _ Hno).
    reflexivity.
Qed.

Lemma get_order_answers_witness :
  outcome (get_order (parse_digits 0) getOrderById getOrderItems "9")
          (world_of sample_db 2 3 [])
  = Ok (mkResponse 404 (error_body "Order not found")).
Proof.
  pose proof (get_order_answers (parse_digits 0) getOrderById getOrderItems
                "9" (world_of sample_db 2 3 [])) as H.
  apply proj2 in H. apply H.
  - intros k Hk. reflexivity.
  - intros o [<- | []]. vm_compute. discriminate.
Defined.

(* ================================================================== *)
(** * createOrder under every pattern of failures *)

Lemma first_fault n w :
  driver_ok n w
  \/ exists k, k < n /\ driver_ok k w /\ db_faults w (tick w + k) = true.
Proof.
  induction n as [| n [IH | (k & Hk & Hpre & Hbad)]].
  - left. intros k Hk. lia.
  - destruct (db_faults w (tick w + n)) eqn:E.
    + right. exists n. auto.
    + left. intros k Hk.
      destruct (Nat.eq_dec k n) as [-> | Hne]; [exact E | apply IH; lia].
  - right. exists k. auto.
Qed.

Lemma split_at A (l : list A) j :
  j < List.length l ->
  exists pre x post, l = pre ++ x :: post /\ List.length pre = j.
Proof.
  intros Hj. destruct (nth_error l j) as [x |] eqn:E.
  - destruct (nth_error_split l j E) as (pre & post & Hl & Hlen).
    exists pre, x, post. auto.
  - apply nth_error_None in E. lia.
Qed.

Lemma createOrder_callback_ok_means_accepted input c w pending r w' :
  sessions w c = Some pending ->
  createOrder_callback input c w = (Ok r, w') ->
  driver_ok (1 + List.length (items input)) w.
Proof.
  intros Hs Hrun.
  destruct (first_fault (1 + List.length (items input)) w)
    as [H | (k & Hk & Hpre & Hbad)]; [exact H |].
  exfalso. destruct k as [| j].
  - rewrite Nat.add_0_r in Hbad.
    unfold createOrder_callback in Hrun.
    erewrite bind_err in Hrun by (apply query_rejected; exact Hbad).
    discriminate.
  - destruct (split_at _ (items input) j) as (pre & item & post & Hl & Hlen);
      [lia |].
    subst j.
    destruct (createOrder_callback_rejected input c w pending pre item post
                Hl Hs Hpre) as (w2 & Hrej & _).
    + rewrite <- Hbad. f_equal. lia.
    + rewrite Hrej in Hrun. discriminate.
Qed.

(** X19.  [createOrder] is all or nothing under every pattern of
    rejected driver calls.  Either it returns the order and the tables
    have gained exactly that order and one row for each of its items, or
    it raises and the tables are what they were: an order without all of
    its items, or items without their order, is never left behind. *)
Theorem createOrder_all_or_nothing (input : CreateOrderInput) (w : World) :
  let w' := after (createOrder input) w in
  (exists order,
      outcome (createOrder input) w = Ok order
      /\ tables w'
         = mkDb (orders (tables w) ++ [order])
                (order_items (tables w)
                 ++ item_rows (ord_id order) (item_seq w) (items input)))
  \/ (exists e, outcome (createOrder input) w = Err e /\ tables w' = tables w).
Proof.
  intros w'.
  destruct (first_fault (4 + List.length (items input)) w)
    as [Hok | (k & Hk & Hpre & Hbad)].
  { left. destruct (createOrder_committed input w Hok) as (w1 & Hrun & Ht & _).
    exists (new_order input w). unfold w', outcome, after. rewrite Hrun.
    split; [reflexivity | exact Ht]. }
  right.
  set (e0 := EvLog Info "Creating new order"
               [("userId", LNum (userId input));
                ("itemCount", LNum (Z.of_nat (List.length (items input))))]).
  set (w0 := emit e0 w).
  assert (Hrun : createOrder input w
                 = executeTransaction (createOrder_callback input) w0)
    by reflexivity.
  unfold w', outcome, after. rewrite Hrun.
  destruct (Nat.lt_ge_cases k 2) as [Hearly | Hlate].
  - (* no transaction was started *)
    unfold executeTransaction, bind, pool_connect, try_finally, try_catch,
      throw, release, query.
    destruct k as [| [| k]]; [| | lia].
    + rewrite Nat.add_0_r in Hbad.
      change (db_faults w0 (tick w0)) with (db_faults w (tick w)).
      rewrite Hbad. eexists. split; reflexivity.
    + assert (E0 : db_faults w (tick w) = false)
        by (rewrite <- (Nat.add_0_r (tick w)); apply Hpre; lia).
      change (db_faults w0 (tick w0)) with (db_faults w (tick w)).
      rewrite E0.
      cbn [tick db_faults sessions driver_call emit set_pool set_session w0].
      rewrite Nat.add_1_r in Hbad. rewrite Hbad.
      cbn [tick db_faults sessions driver_call emit set_pool set_session].
      destruct (db_faults w0 (S (S (tick w0)))); eexists; split; reflexivity.
  - (* the transaction was started *)
    assert (Hok0 : driver_ok 2 w0) by (intros i Hi; apply Hpre; lia).
    destruct (tx_started_accepted w0 Hok0) as [w1 Hst].
    set (c := acquired w0) in *.
    destruct (tx_started_inv _ _ _ Hst) as (_ & _ & _ & Hw1).
    fold c in Hw1.
    assert (F1 : sessions w1 c = Some (fun d => d)
                 /\ tables w1 = tables w
                 /\ tick w1 = S (S (tick w)) /\ db_faults w1 = db_faults w).
    { rewrite Hw1. unfold w0. repeat split; try reflexivity.
      cbn [sessions set_session]. now rewrite Nat.eqb_refl. }
    destruct F1 as (Fs & Ft & Fk & Ff).
    destruct (createOrder_callback input c w1) as [[r | e] w2] eqn:Hcb.
    + (* the unit of work returned: the COMMIT is what was rejected *)
      pose proof (createOrder_callback_ok_means_accepted _ _ _ _ _ _ Fs Hcb)
        as Hok1.
      destruct (createOrder_callback_accepted input c w1 _ Fs Hok1)
        as (w2' & Hcb' & Gt & _ & _ & _ & Gk & Gf & _).
      rewrite Hcb in Hcb'. inversion Hcb'. subst w2'.
      assert (Ec : db_faults w2 (tick w2) = true).
      { rewrite Gf, Gk, Ff, Fk.
        destruct (Nat.lt_ge_cases k (3 + List.length (items input)))
          as [Hlt | Hge].
        - exfalso.
          assert (Hk1 : db_faults w1 (tick w1 + (k - 2)) = false)
            by (apply Hok1; lia).
          rewrite Ff, Fk in Hk1.
          replace (S (S (tick w)) + (k - 2)) with (tick w + k) in Hk1 by lia.
          congruence.
        - rewrite <- Hbad. f_equal. lia. }
      rewrite (executeTransaction_started _ _ _ _ _ Hst).
      unfold try_finally, try_catch. erewrite bind_ok by exact Hcb.
      erewrite bind_err by (apply query_rejected; exact Ec).
      unfold bind, throw, query, release.
      cbn [tick db_faults driver_call emit].
      destruct (db_faults w2 (S (tick w2)));
        eexists;
        (split; [reflexivity |]);
        cbn [fst snd tables set_pool emit set_session driver_call];
        now rewrite Gt, Ft.
    + (* the unit of work raised *)
      destruct (executeTransaction_failure _ _ _ _ _ _ _ Hst Hcb)
        as (_ & Hout & Htab).
      unfold outcome, after in Hout, Htab. rewrite Hout.
      eexists. split; [reflexivity |].
      rewrite Htab; [reflexivity |].
      pose proof (createOrder_callback_tx_kept input c w1) as Hkept.
      unfold after in Hkept. rewrite Hcb in Hkept. cbn [snd] in Hkept.
      apply Hkept. rewrite Fs. discriminate.
Qed.

(** X20.  [createOrder] itself does not refuse an order without items:
    on an empty list it commits an order of total 0 and adds no item
    row.  Only the validation in front of [POST /orders] keeps such a
    body away from it. *)
Theorem createOrder_accepts_empty_order
    (user : Z) (w : World)
    (StringToNumber : string -> number)
    (ArrayToNumber : list JsValue -> option number)
    (svc : JsValue -> JsValue -> M Order) (body : JsValue) :
  (driver_ok 4 w ->
   let w' := after (createOrder (mkInput user [])) w in
   exists order,
     outcome (createOrder (mkInput user [])) w = Ok order
     /\ ord_total_amount order = num 0
     /\ orders (tables w') = orders (tables w) ++ [order]
     /\ order_items (tables w') = order_items (tables w))
  /\ (property body "items" = JsArray [] ->
      post_orders StringToNumber ArrayToNumber svc body w
      = (Ok (mkResponse 400 (error_body "Order validation failed")), w)).
Proof.
  split.
  - intros Hok w'.
    destruct (createOrder_committed (mkInput user []) w Hok)
      as (w1 & Hrun & Ht & _).
    exists (new_order (mkInput user []) w).
    unfold w', outcome, after. rewrite Hrun. cbn [fst snd]. rewrite Ht.
    cbn [orders order_items items item_rows]. rewrite app_nil_r.
    repeat split.
  - intros Hitems. rewrite post_orders_run.
    unfold passes_body. rewrite Hitems. rewrite andb_false_r. reflexivity.
Qed.

Lemma createOrder_accepts_empty_order_witness :
  let w := world_of empty_db 1 1 [] in
  (exists order,
    outcome (createOrder (mkInput 7 [])) w = Ok order
    /\ ord_total_amount order = num 0
    /\ orders (tables (after (createOrder (mkInput 7 [])) w)) = [order]
    /\ order_items (tables (after (createOrder (mkInput 7 [])) w)) = [])
  /\ post_orders no_number no_array_number createOrder_on_request
       (order_object (JsNumber (num 7)) []) w
     = (Ok (mkResponse 400 (error_body "Order validation failed")), w).
Proof.
  intros w.
  pose proof (createOrder_accepts_empty_order 7 (world_of empty_db 1 1 [])
                no_number no_array_number createOrder_on_request
                (order_object (JsNumber (num 7)) [])) as H.
  split.
  - apply (proj1 H). intros k Hk. reflexivity.
  - apply (proj2 H). reflexivity.
Defined.

(* ================================================================== *)
(** * The pool and the total *)

Lemma executeQuery_pool_kept s : maintains pool_kept (executeQuery s).
Proof.
  intros w.
  unfold executeQuery, after, bind, try_finally, ret, release, pool_connect,
    pool_kept, in_use.
  destruct (db_faults w (tick w)); [reflexivity |].
  unfold query.
  cbn [tick db_faults sessions driver_call emit set_pool set_session
       acquired released].
  destruct (db_faults w (S (tick w))).
  - cbn [fst snd acquired released set_pool emit set_session driver_call]. lia.
  - rewrite Nat.eqb_refl.
    destruct s;
      cbn [fst snd acquired released set_pool emit set_session driver_call
           draw set_seqs set_tables]; lia.
Qed.

Lemma sendOrderCancellation_only_events o u :
  maintains only_events (sendOrderCancellation o u).
Proof.
  intros w. unfold after. rewrite sendOrderCancellation_run. now eexists.
Qed.

Ltac keep_pool :=
  repeat first
    [ apply (maintains_ret _ pool_kept_refl)
    | apply (maintains_throw _ pool_kept_refl)
    | apply executeQuery_pool_kept
    | (intros ?; apply only_events_pool_kept;
       first [apply log_only_events | apply sendOrderCancellation_only_events])
    | apply (maintains_bind _ pool_kept_trans); [| intros ?]
    | apply (maintains_try_catch _ pool_kept_trans); [| intros ?] ].

(** X21.  No operation of the order service keeps a connection: in
    every world, whatever is rejected and whether the operation returns
    or raises, as many connections are in use after it as before. *)
Theorem order_service_leaks_no_connection (w : World) :
  (forall input, in_use (after (createOrder input) w) = in_use w)
  /\ (forall id, in_use (after (getOrderById id) w) = in_use w)
  /\ (forall id status, in_use (after (updateOrderStatus id status) w) = in_use w)
  /\ (forall id, in_use (after (markOrderPaid id) w) = in_use w)
  /\ (forall id, in_use (after (cancelOrder id) w) = in_use w)
  /\ (forall id, in_use (after (getOrderItems id) w) = in_use w)
  /\ (forall id, in_use (after (fulfillOrder id) w) = in_use w).
Proof.
  assert (Hget : forall id, maintains pool_kept (getOrderById id))
    by (intros id; unfold getOrderById; keep_pool).
  assert (Hupd : forall id st, maintains pool_kept (updateOrderStatus id st))
    by (intros id st; unfold updateOrderStatus; keep_pool).
  repeat split.
  - intros input.
    assert (H : maintains pool_kept (createOrder input)).
    { unfold createOrder. apply (maintains_bind _ pool_kept_trans).
      - intros w0. apply only_events_pool_kept, log_only_events.
      - intros _. apply executeTransaction_pool_kept.
        intros c. apply createOrder_callback_pool_kept. }
    apply H.
  - intros id. apply Hget.
  - intros id st. apply Hupd.
  - intros id.
    assert (H : maintains pool_kept (markOrderPaid id))
      by (unfold markOrderPaid; keep_pool).
    apply H.
  - intros id.
    assert (H : maintains pool_kept (cancelOrder id)).
    { unfold cancelOrder.
      apply (maintains_bind _ pool_kept_trans);
        [apply executeQuery_pool_kept | intros _].
      apply (maintains_bind _ pool_kept_trans);
        [apply executeQuery_pool_kept | intros _].
      apply (maintains_try_catch _ pool_kept_trans);
        [| intros e; apply (maintains_ret _ pool_kept_refl)].
      apply (maintains_bind _ pool_kept_trans); [apply Hget |].
      intros [o |]; [| apply (maintains_ret _ pool_kept_refl)].
      intros w0. apply only_events_pool_kept, sendOrderCancellation_only_events. }
    apply H.
  - intros id.
    assert (H : maintains pool_kept (getOrderItems id))
      by (unfold getOrderItems; keep_pool).
    apply H.
  - intros id.
    assert (H : maintains pool_kept (fulfillOrder id))
      by (unfold fulfillOrder; keep_pool; apply Hupd).
    apply H.
Qed.

Lemma integer_total_permutation (a b : list IntegerLine) :
  Permutation a b -> integer_total a = integer_total b.
Proof.
  unfold integer_total.
  induction 1 as [| x l l' _ IH | x y l | l l' l'' _ IH1 _ IH2]; cbn in *; lia.
Qed.

Lemma absolute_total_permutation (a b : list IntegerLine) :
  Permutation a b -> absolute_total a = absolute_total b.
Proof.
  unfold absolute_total.
  induction 1 as [| x l l' _ IH | x y l | l l' l'' _ IH1 _ IH2]; cbn in *; lia.
Qed.

Lemma safe_lines_permutation (a b : list IntegerLine) :
  Permutation a b -> safe_lines a -> safe_lines b.
Proof.
  intros Hp [Hall Hsum]. split.
  - exact (Permutation_Forall Hp Hall).
  - now rewrite <- (absolute_total_permutation a b Hp).
Qed.

(** X22.  On integer prices and quantities within the safe range the
    [reduce] of [createOrder] is exact: the total is the double of the
    integer sum of price times quantity, and so does not depend on the
    order of the lines.  Beyond that range it does: there are lines
    whose total changes when they are reordered. *)
Theorem totalAmount_exact_on_safe_integers :
  (forall lines,
      safe_lines lines ->
      totalAmount (map line_of lines) = num (integer_total lines))
  /\ (forall lines lines',
        Permutation lines lines' -> safe_lines lines ->
        totalAmount (map line_of lines') = totalAmount (map line_of lines))
  /\ (exists l l' : list OrderLine,
        Permutation l l' /\ totalAmount l <> totalAmount l').
Proof.
  split; [| split].
  - exact totalAmount_exact.
  - intros lines lines' Hp Hs.
    rewrite (totalAmount_exact lines Hs).
    rewrite (totalAmount_exact lines' (safe_lines_permutation _ _ Hp Hs)).
    now rewrite (integer_total_permutation _ _ Hp).
  - exists [mkLine 1 (num 1) (num 9007199254740992);
            mkLine 2 (num 1) (num 1); mkLine 3 (num 1) (num 1)],
           [mkLine 2 (num 1) (num 1); mkLine 3 (num 1) (num 1);
            mkLine 1 (num 1) (num 9007199254740992)].
    split.
    + apply Permutation_cons_append with (l := [_; _]).
    + vm_compute. discriminate.
Qed.

Lemma totalAmount_exact_on_safe_integers_witness :
  totalAmount (map line_of [mkIntegerLine 100 2 10; mkIntegerLine 101 3 5])
  = num (integer_total [mkIntegerLine 100 2 10; mkIntegerLine 101 3 5]).
Proof.
  apply (proj1 totalAmount_exact_on_safe_integers).
  split; [repeat constructor; vm_compute; reflexivity
         | vm_compute; reflexivity].
Defined.
